(** * Item lifecycle and reconciliation engine of the event shopping list

    A shallow embedding of the state handlers of [App] (the second revision
    of the application component): manual reordering ([handleMoveItem]),
    the per-day execute-column partition ([handleMoveToExecuteColumn],
    [executeColumnItems], [candidateColumnItems]) and the spreadsheet
    synchronisation ([handleUpdateEvent], [handleConfirmUpdate]).

    Conventions.
    - A JavaScript string is a [string] holding its UTF-8 bytes.
    - A JavaScript object used as a dictionary ([Record<string, T>]) is a
      [gmap string T]; a [Set<string>] that is only queried with [has] and
      [size] is a [gset string]; a [Set] or [Map] whose iteration order is
      observed is an insertion-ordered list.
    - React state setters are applied in program order to one state record;
      every handler is a function from state to state. *)

From Stdlib Require Import Ascii NArith DecimalString DecimalN.
From stdpp Require Import gmap strings list fin_maps sorting.

Local Open Scope string_scope.
Local Open Scope list_scope.

(** ** Strings *)

Module Str.

Definition chars (s : string) : list ascii := String.list_ascii_of_string s.
Definition ofChars (l : list ascii) : string := String.string_of_list_ascii l.

(** Byte length of the white-space character (ECMAScript WhiteSpace or
    LineTerminator, UTF-8 encoded) that starts [codes]; [0] when [codes]
    does not start with one. *)
Definition whiteSpaceLength (codes : list N) : nat :=
  match codes with
  | [] => 0
  | c :: rest =>
      if ((9 <=? c) && (c <=? 13) || (c =? 32))%N then 1
      else match c, rest with
           | 194%N, 160%N :: _ => 2                      (* U+00A0 *)
           | 225%N, 154%N :: 128%N :: _ => 3             (* U+1680 *)
           | 226%N, 128%N :: d :: _ =>                   (* U+2000-200A, 2028, 2029, 202F *)
               if ((128 <=? d) && (d <=? 138) || (d =? 168) || (d =? 169) || (d =? 175))%N
               then 3 else 0
           | 226%N, 129%N :: 159%N :: _ => 3             (* U+205F *)
           | 227%N, 128%N :: 128%N :: _ => 3             (* U+3000 *)
           | 239%N, 187%N :: 191%N :: _ => 3             (* U+FEFF *)
           | _, _ => 0
           end
  end.

(** A byte string cut into its white-space characters ([true]) and its
    other bytes ([false]). *)
Fixpoint tokens (fuel : nat) (l : list ascii) : list (bool * list ascii) :=
  match fuel, l with
  | 0, _ | _, [] => []
  | S fuel, c :: rest =>
      match whiteSpaceLength (N_of_ascii <$> take 3 l) with
      | 0 => (false, [c]) :: tokens fuel rest
      | k => (true, take k l) :: tokens fuel (drop k l)
      end
  end.

Fixpoint dropWhiteSpace (ts : list (bool * list ascii)) : list (bool * list ascii) :=
  match ts with
  | (true, _) :: ts => dropWhiteSpace ts
  | _ => ts
  end.

Definition trimTokens (ts : list (bool * list ascii)) : list (bool * list ascii) :=
  reverse (dropWhiteSpace (reverse (dropWhiteSpace ts))).

(** [String.prototype.trim] *)
Definition trim (s : string) : string :=
  let l := chars s in
  ofChars (concat (snd <$> trimTokens (tokens (length l) l))).

Fixpoint isPrefix (p l : list ascii) : bool :=
  match p, l with
  | [], _ => true
  | _ :: _, [] => false
  | a :: p, b :: l => if Ascii.eqb a b then isPrefix p l else false
  end.

Fixpoint includesChars (l needle : list ascii) : bool :=
  isPrefix needle l ||
  match l with
  | [] => false
  | _ :: l => includesChars l needle
  end.

(** [String.prototype.includes] *)
Definition includes (s needle : string) : bool :=
  includesChars (chars s) (chars needle).

(** [String.prototype.split] on a one-character separator; the piece being
    read is [current]. *)
Fixpoint splitChars (sep : ascii) (l current : list ascii) : list string :=
  match l with
  | [] => [ofChars current]
  | c :: l =>
      if Ascii.eqb c sep then ofChars current :: splitChars sep l []
      else splitChars sep l (current ++ [c])
  end.

Definition split (sep : ascii) (s : string) : list string :=
  splitChars sep (chars s) [].

Definition isDigit (c : ascii) : bool :=
  let n := N_of_ascii c in ((48 <=? n) && (n <=? 57))%N.

(** [parseInt(digits, 10) || 0] on a string of decimal digits: the empty
    string parses to [NaN], which [||] turns into [0]. *)
Definition parseDigits (l : list ascii) : N :=
  foldl (λ acc c, 10 * acc + (N_of_ascii c - 48))%N 0%N l.

(** [Array.prototype.join] *)
Fixpoint join (sep : string) (l : list string) : string :=
  match l with
  | [] => ""
  | x :: rest =>
      match rest with
      | [] => x
      | _ :: _ => x +:+ sep +:+ join sep rest
      end
  end.

(** [String(n)] for a non-negative integer that prints without an exponent:
    its decimal digits. *)
Definition ofNumber (n : N) : string := NilZero.string_of_uint (N.to_uint n).

(** [parseInt(s.replace(/[^0-9]/g, ''), 10) || 0], for digits whose number
    JavaScript holds exactly. *)
Definition digitsValue (s : string) : N :=
  parseDigits (filter (λ c, isDigit c) (chars s)).

End Str.

(** ** Data model ([./types]) *)

(** [PurchaseStatus] of [./types]: the six values of [PurchaseStatuses];
    [StatusNone] is ['None']. *)
Inductive PurchaseStatus :=
  | StatusNone | Purchased | SoldOut | Absent | Postpone | Late.

(** [Omit<ShoppingItem, 'id' | 'purchaseStatus'>]: the fields of
    [ShoppingItem] that a spreadsheet row or an import form supplies. A
    price is a non-negative integer. *)
Record ItemData := mkItemData {
  circle : string;
  eventDate : string;
  block : string;
  number : string;
  title : string;
  price : N;
  remarks : string;
}.

(** [ShoppingItem] of [./types]: the supplied fields together with the
    locally owned [id] and [purchaseStatus]. The coercion plays the part of
    TypeScript's structural subtyping: a [ShoppingItem] is accepted wherever
    the fields alone are asked for. *)
Record ShoppingItem := mkItem {
  itemId : string;
  itemData :> ItemData;
  purchaseStatus : PurchaseStatus;
}.

#[export] Instance PurchaseStatus_eq_dec : EqDecision PurchaseStatus.
Proof. solve_decision. Defined.
#[export] Instance ItemData_eq_dec : EqDecision ItemData.
Proof. solve_decision. Defined.
#[export] Instance ShoppingItem_eq_dec : EqDecision ShoppingItem.
Proof. solve_decision. Defined.

(** [ViewMode] of [./types] *)
Inductive ViewMode := edit | execute.

Inductive Column := ExecuteColumn | CandidateColumn.
Inductive Day := day1 | day2.
Inductive ActiveTab := TabEventList | TabDay1 | TabDay2 | TabImport.
Inductive SortState :=
  | Manual | SortPostpone | SortLate | SortAbsent | SortSoldOut | SortPurchased.
Inductive BlockSortDirection := asc | desc.

#[export] Instance ViewMode_eq_dec : EqDecision ViewMode.
Proof. solve_decision. Defined.
#[export] Instance Column_eq_dec : EqDecision Column.
Proof. solve_decision. Defined.
#[export] Instance Day_eq_dec : EqDecision Day.
Proof. solve_decision. Defined.

(** [ExecuteModeItems] of [./types]: the ids placed in the execute column,
    per day. *)
Record ExecuteModeItems := mkExecuteModeItems {
  exec_day1 : list string;
  exec_day2 : list string;
}.

(** [DayModeState] of [./types]: the mode of each day. *)
Record DayModeState := mkDayModeState {
  mode_day1 : ViewMode;
  mode_day2 : ViewMode;
}.

(** The pending change-set the update dialog shows ([updateData]). *)
Record UpdateData := mkUpdateData {
  itemsToDelete : list ShoppingItem;
  itemsToUpdate : list ShoppingItem;
  itemsToAdd : list ItemData;
}.

(** The [useState] cells of [App] that the handlers below read and write. *)
Record AppState := mkAppState {
  eventLists : gmap string (list ShoppingItem);
  executeModeItems : gmap string ExecuteModeItems;
  dayModes : gmap string DayModeState;
  activeEventName : option string;
  activeTab : ActiveTab;
  sortState : SortState;
  blockSortDirection : option BlockSortDirection;
  selectedItemIds : gset string;
  showUpdateConfirmation : bool;
  updateData : option UpdateData;
  updateEventName : option string;
}.

Definition getDay (d : Day) (e : ExecuteModeItems) : list string :=
  match d with day1 => exec_day1 e | day2 => exec_day2 e end.

(** [{ ...eventItems, [currentDay]: ids }] *)
Definition setDay (d : Day) (ids : list string) (e : ExecuteModeItems) : ExecuteModeItems :=
  match d with
  | day1 => mkExecuteModeItems ids (exec_day2 e)
  | day2 => mkExecuteModeItems (exec_day1 e) ids
  end.

Definition getMode (d : Day) (m : DayModeState) : ViewMode :=
  match d with day1 => mode_day1 m | day2 => mode_day2 m end.

(** [activeTab === 'day1' ? 'day1' : 'day2'] *)
Definition currentDay (tab : ActiveTab) : Day :=
  match tab with TabDay1 => day1 | _ => day2 end.

(** A name as a JavaScript condition sees it: [null] and the empty string
    are both falsy. *)
Definition truthy (name : option string) : option string :=
  match name with
  | Some "" | None => None
  | Some n => Some n
  end.

Definition emptyExecuteModeItems : ExecuteModeItems := mkExecuteModeItems [] [].

(** React's state setters, each applied to an updater [prev => next]. *)
Definition setEventLists (f : gmap string (list ShoppingItem) → gmap string (list ShoppingItem))
    (s : AppState) : AppState :=
  mkAppState (f (eventLists s)) (executeModeItems s) (dayModes s) (activeEventName s)
    (activeTab s) (sortState s) (blockSortDirection s) (selectedItemIds s)
    (showUpdateConfirmation s) (updateData s) (updateEventName s).

Definition setExecuteModeItems (f : gmap string ExecuteModeItems → gmap string ExecuteModeItems)
    (s : AppState) : AppState :=
  mkAppState (eventLists s) (f (executeModeItems s)) (dayModes s) (activeEventName s)
    (activeTab s) (sortState s) (blockSortDirection s) (selectedItemIds s)
    (showUpdateConfirmation s) (updateData s) (updateEventName s).

Definition setSortState (v : SortState) (s : AppState) : AppState :=
  mkAppState (eventLists s) (executeModeItems s) (dayModes s) (activeEventName s)
    (activeTab s) v (blockSortDirection s) (selectedItemIds s)
    (showUpdateConfirmation s) (updateData s) (updateEventName s).

Definition setBlockSortDirection (v : option BlockSortDirection) (s : AppState) : AppState :=
  mkAppState (eventLists s) (executeModeItems s) (dayModes s) (activeEventName s)
    (activeTab s) (sortState s) v (selectedItemIds s)
    (showUpdateConfirmation s) (updateData s) (updateEventName s).

Definition setSelectedItemIds (v : gset string) (s : AppState) : AppState :=
  mkAppState (eventLists s) (executeModeItems s) (dayModes s) (activeEventName s)
    (activeTab s) (sortState s) (blockSortDirection s) v
    (showUpdateConfirmation s) (updateData s) (updateEventName s).

Definition setShowUpdateConfirmation (v : bool) (s : AppState) : AppState :=
  mkAppState (eventLists s) (executeModeItems s) (dayModes s) (activeEventName s)
    (activeTab s) (sortState s) (blockSortDirection s) (selectedItemIds s)
    v (updateData s) (updateEventName s).

Definition setUpdateData (v : option UpdateData) (s : AppState) : AppState :=
  mkAppState (eventLists s) (executeModeItems s) (dayModes s) (activeEventName s)
    (activeTab s) (sortState s) (blockSortDirection s) (selectedItemIds s)
    (showUpdateConfirmation s) v (updateEventName s).

Definition setUpdateEventName (v : option string) (s : AppState) : AppState :=
  mkAppState (eventLists s) (executeModeItems s) (dayModes s) (activeEventName s)
    (activeTab s) (sortState s) (blockSortDirection s) (selectedItemIds s)
    (showUpdateConfirmation s) (updateData s) v.

(** ** JavaScript containers *)

(** [new Map(entries)] read through [get] and [has]: a later entry replaces
    an earlier one under the same key. *)
Definition newMap {K V} `{Countable K} (entries : list (K * V)) : gmap K V :=
  foldl (λ m kv, <[kv.1 := kv.2]> m) ∅ entries.

(** [Set.prototype.add] on an insertion-ordered set: a value already present
    keeps its place. *)
Definition setAdd (s : list string) (x : string) : list string :=
  if decide (x ∈ s) then s else s ++ [x].

(** [new Set(values)], in insertion order. *)
Definition newSet (values : list string) : list string := foldl setAdd [] values.

(** [array.splice(start, 0, ...block)]: [start] beyond the end is clamped. *)
Definition spliceIn {A} (start : nat) (block : list A) (l : list A) : list A :=
  take start l ++ block ++ drop start l.

(** ** Reading the fetched sheet ([handleUpdateEvent], the row loop) *)

Definition dquote : ascii := ascii_of_N 34.
Definition comma : ascii := ascii_of_N 44.
Definition newline : ascii := ascii_of_N 10.

(** The character loop of one line: [cells], [currentCell] and
    [insideQuotes] are the loop's variables. A quote inside quotes that is
    followed by a quote stands for one quote and consumes both. *)
Fixpoint splitCells (line : list ascii) (cells : list string)
    (currentCell : list ascii) (insideQuotes : bool) : list string :=
  match line with
  | [] => cells ++ [Str.ofChars currentCell]
  | char :: rest =>
      if Ascii.eqb char dquote then
        match insideQuotes, rest with
        | true, next :: rest' =>
            if Ascii.eqb next dquote
            then splitCells rest' cells (currentCell ++ [dquote]) insideQuotes
            else splitCells rest cells currentCell (negb insideQuotes)
        | _, _ => splitCells rest cells currentCell (negb insideQuotes)
        end
      else if Ascii.eqb char comma && negb insideQuotes then
        splitCells rest (cells ++ [Str.ofChars currentCell]) [] insideQuotes
      else splitCells rest cells (currentCell ++ [char]) insideQuotes
  end.

Definition cellsOf (line : string) : list string :=
  splitCells (Str.chars line) [] [] false.

(** [cells[i]?.trim() || ''] *)
Definition trimmedCell (cells : list string) (i : nat) : string :=
  Str.trim (default "" (cells !! i)).

(** [parseInt((cells[17] || '0').replace(/[^0-9]/g, ''), 10) || 0], for
    prices that a JavaScript number holds exactly. *)
Definition priceCell (cells : list string) : N :=
  let raw := match cells !! 17 with
             | None | Some "" => "0"
             | Some c => c
             end in
  Str.parseDigits (filter (λ c, Str.isDigit c) (Str.chars raw)).

(** One pass of the row loop's body: [None] is the [continue]. *)
Definition parseRow (line : string) : option ItemData :=
  let cells := cellsOf line in
  let circle := trimmedCell cells 12 in
  let eventDate := trimmedCell cells 13 in
  let block := trimmedCell cells 14 in
  let number := trimmedCell cells 15 in
  if bool_decide (circle = "") || bool_decide (eventDate = "")
     || bool_decide (block = "") || bool_decide (number = "")
  then None
  else
    let title := trimmedCell cells 16 in
    let price := priceCell cells in
    let remarks := trimmedCell cells 22 in
    Some (mkItemData circle eventDate block number title price remarks).

(** [text.split('\n').filter(line => line.trim() !== '')] *)
Definition sheetLines (text : string) : list string :=
  filter (λ line, Str.trim line ≠ "") (Str.split newline text).

(** The row loop, from [i = 1]: the first kept line is the header. *)
Definition parseSheet (text : string) : list ItemData :=
  foldl (λ sheetItems line,
           match parseRow line with
           | Some item => sheetItems ++ [item]
           | None => sheetItems
           end)
        [] (drop 1 (sheetLines text)).

(** ** Item keys and sorted insertion ([./utils/itemComparison]) *)

(** Modelled from the spec: [getItemKey] of [./utils/itemComparison], which
    is not among the source files. The spec's full key is a composite of
    [(circle, eventDate, block, number, title)] under which two items are the
    same entry exactly when the five fields agree; the composite is kept as
    the list of its components. *)
Definition getItemKey (item : ItemData) : list string :=
  [circle item; eventDate item; block item; number item; title item].

(** Modelled from the spec: [getItemKeyWithoutTitle] of
    [./utils/itemComparison], the same composite without the title (the
    spec's loose key). *)
Definition getItemKeyWithoutTitle (item : ItemData) : list string :=
  [circle item; eventDate item; block item; number item].

Section InsertSorted.

(** The ordering of [insertItemSorted]: a JavaScript comparator on
    [(block, number)], positive when its first argument sorts after its
    second. The spec describes it as locale- and numeric-aware collation,
    which is left as a parameter. *)
Variable compareItems : ItemData → ItemData → Z.

(** Modelled from the spec: [insertItemSorted] of
    [./utils/itemComparison]. The new item goes to the first position where
    it is not strictly greater than the item that follows, and to the end
    when there is none. *)
Fixpoint insertItemSorted (items : list ShoppingItem) (newItem : ShoppingItem)
    : list ShoppingItem :=
  match items with
  | [] => [newItem]
  | item :: rest =>
      if decide (0 < compareItems newItem item)%Z
      then item :: insertItemSorted rest newItem
      else newItem :: item :: rest
  end.

End InsertSorted.

(** ** Reconciliation ([handleUpdateEvent], the diff) *)

(** [{ ...existing, price, remarks }] *)
Definition withPriceRemarks (existing : ShoppingItem) (sheetItem : ItemData) : ShoppingItem :=
  mkItem (itemId existing)
    (mkItemData (circle existing) (eventDate existing) (block existing) (number existing)
       (title existing) (price sheetItem) (remarks sheetItem))
    (purchaseStatus existing).

(** [{ ...existing, title, price, remarks }] *)
Definition withTitlePriceRemarks (existing : ShoppingItem) (sheetItem : ItemData) : ShoppingItem :=
  mkItem (itemId existing)
    (mkItemData (circle existing) (eventDate existing) (block existing) (number existing)
       (title sheetItem) (price sheetItem) (remarks sheetItem))
    (purchaseStatus existing).

(** The body of [sheetItems.forEach]: what one fetched row pushes onto
    [itemsToUpdate] and [itemsToAdd]. *)
Definition classifyRow
    (currentItemsMapWithAll currentItemsMapWithoutTitle : gmap (list string) ShoppingItem)
    (acc : list ShoppingItem * list ItemData) (sheetItem : ItemData)
    : list ShoppingItem * list ItemData :=
  let '(itemsToUpdate, itemsToAdd) := acc in
  let keyWithAll := getItemKey sheetItem in
  let keyWithoutTitle := getItemKeyWithoutTitle sheetItem in
  match (currentItemsMapWithAll !! keyWithAll : option ShoppingItem) with
  | Some existingWithAll =>
      if bool_decide (price existingWithAll ≠ price sheetItem
                      ∨ remarks existingWithAll ≠ remarks sheetItem)
      then (itemsToUpdate ++ [withPriceRemarks existingWithAll sheetItem], itemsToAdd)
      else (itemsToUpdate, itemsToAdd)
  | None =>
      match (currentItemsMapWithoutTitle !! keyWithoutTitle : option ShoppingItem) with
      | Some existingWithoutTitle =>
          (itemsToUpdate ++ [withTitlePriceRemarks existingWithoutTitle sheetItem], itemsToAdd)
      | None => (itemsToUpdate, itemsToAdd ++ [sheetItem])
      end
  end.

(** The change-set [handleUpdateEvent] passes to [setUpdateData], from the
    event's current items and the parsed rows. *)
Definition computeUpdateData (currentItems : list ShoppingItem) (sheetItems : list ItemData)
    : UpdateData :=
  let currentItemsMapWithAll :=
    newMap ((λ item : ShoppingItem, (getItemKey item, item)) <$> currentItems) in
  let sheetItemsMapWithoutTitle :=
    newMap ((λ item : ItemData, (getItemKeyWithoutTitle item, item)) <$> sheetItems) in
  let currentItemsMapWithoutTitle :=
    newMap ((λ item : ShoppingItem, (getItemKeyWithoutTitle item, item)) <$> currentItems) in
  let itemsToDelete :=
    filter (λ item : ShoppingItem,
              sheetItemsMapWithoutTitle !! getItemKeyWithoutTitle item = None) currentItems in
  let '(itemsToUpdate, itemsToAdd) :=
    foldl (classifyRow currentItemsMapWithAll currentItemsMapWithoutTitle) ([], []) sheetItems in
  mkUpdateData itemsToDelete itemsToUpdate itemsToAdd.

(** [handleUpdateEvent] once the sheet has been fetched: [text] is the
    response body. (A failed fetch only opens the URL dialog and is not
    part of this model.) *)
Definition handleUpdateEvent (eventName : string) (text : string) (s : AppState) : AppState :=
  let sheetItems := parseSheet text in
  let currentItems := default [] (eventLists s !! eventName) in
  setShowUpdateConfirmation true
    (setUpdateEventName (Some eventName)
       (setUpdateData (Some (computeUpdateData currentItems sheetItems)) s)).

(** ** Confirming a change-set ([handleConfirmUpdate]) *)

Section Confirm.

Variable compareItems : ItemData → ItemData → Z.

(** [uuid k] is what the [k]-th call of [crypto.randomUUID()] returns. *)
Variable uuid : nat → string.

(** The updater given to [setEventLists], on the event's list. *)
Definition applyUpdateData (d : UpdateData) (items : list ShoppingItem) : list ShoppingItem :=
  (* delete *)
  let deleteIds : gset string := list_to_set (itemId <$> itemsToDelete d) in
  let newItems := filter (λ item : ShoppingItem, itemId item ∉ deleteIds) items in
  (* update *)
  let updateMap := newMap ((λ item : ShoppingItem, (itemId item, item)) <$> itemsToUpdate d) in
  let newItems :=
    (λ item : ShoppingItem, default item (updateMap !! itemId item)) <$> newItems in
  (* add, by sorted insertion *)
  foldl (insertItemSorted compareItems) newItems
    (imap (λ k itemData, mkItem (uuid k) itemData StatusNone) (itemsToAdd d)).

(** The updater given to [setExecuteModeItems]. *)
Definition pruneExecuteModeItems (eventName : string) (d : UpdateData)
    (prev : gmap string ExecuteModeItems) : gmap string ExecuteModeItems :=
  match prev !! eventName with
  | None => prev
  | Some eventItems =>
      let deleteIds : gset string := list_to_set (itemId <$> itemsToDelete d) in
      <[eventName := mkExecuteModeItems
                       (filter (λ id, id ∉ deleteIds) (exec_day1 eventItems))
                       (filter (λ id, id ∉ deleteIds) (exec_day2 eventItems))]> prev
  end.

Definition handleConfirmUpdate (s : AppState) : AppState :=
  match updateData s, truthy (updateEventName s) with
  | Some d, Some eventName =>
      let s := setEventLists (λ prev,
                 <[eventName := applyUpdateData d (default [] (prev !! eventName))]> prev) s in
      let s := setExecuteModeItems (pruneExecuteModeItems eventName d) s in
      setUpdateEventName None (setUpdateData None (setShowUpdateConfirmation false s))
  | _, _ => s
  end.

End Confirm.

(** ** Editing one item ([handleUpdateItem]) *)

(** What a handler leaves behind: the next state, or the [TypeError] that
    reading a property of [undefined] throws. *)
Inductive Outcome :=
  | Done (s : AppState)
  | TypeError.

Definition handleUpdateItem (updatedItem : ShoppingItem) (s : AppState) : Outcome :=
  match truthy (activeEventName s) with
  | None => Done s
  | Some active =>
      match eventLists s !! active with
      | None => TypeError
      | Some items =>
          Done (setEventLists (λ prev,
                  <[active := (λ item : ShoppingItem,
                                 if decide (itemId item = itemId updatedItem)
                                 then updatedItem else item) <$> items]> prev) s)
      end
  end.

(** ** Manual reordering ([handleMoveItem]) *)

(** Edit mode, execute column: the updater given to [setExecuteModeItems].
    It reorders the day's id list. *)
Definition moveInExecuteColumn (active : string) (day : Day) (selected : gset string)
    (dragId hoverId : string) (prev : gmap string ExecuteModeItems)
    : gmap string ExecuteModeItems :=
  let eventItems := default emptyExecuteModeItems (prev !! active) in
  let dayItems := getDay day eventItems in
  if decide (dragId ∈ selected) then
    let selectedBlock := filter (λ id, id ∈ selected) dayItems in
    let listWithoutSelection := filter (λ id, id ∉ selected) dayItems in
    match list_find (λ id, id = hoverId) listWithoutSelection with
    | None => prev
    | Some (targetIndex, _) =>
        <[active := setDay day (spliceIn targetIndex selectedBlock listWithoutSelection)
                      eventItems]> prev
    end
  else
    match list_find (λ id, id = dragId) dayItems,
          list_find (λ id, id = hoverId) dayItems with
    | Some (dragIndex, draggedItem), Some (hoverIndex, _) =>
        <[active := setDay day (spliceIn hoverIndex [draggedItem] (delete dragIndex dayItems))
                      eventItems]> prev
    | _, _ => prev
    end.

(** Execute mode: the updater given to [setEventLists]. It reorders the
    event's item list. *)
Definition moveInEventList (active : string) (selected : gset string)
    (dragId hoverId : string) (prev : gmap string (list ShoppingItem))
    : gmap string (list ShoppingItem) :=
  let newItems := default [] (prev !! active) in
  match list_find (λ item : ShoppingItem, itemId item = dragId) newItems,
        list_find (λ item : ShoppingItem, itemId item = hoverId) newItems with
  | Some (dragIndex, draggedItem), Some (hoverIndex, _) =>
      if decide (dragId ∈ selected) then
        let selectedBlock := filter (λ item : ShoppingItem, itemId item ∈ selected) newItems in
        let listWithoutSelection :=
          filter (λ item : ShoppingItem, itemId item ∉ selected) newItems in
        match list_find (λ item : ShoppingItem, itemId item = hoverId) listWithoutSelection with
        | None => prev
        | Some (targetIndex, _) =>
            <[active := spliceIn targetIndex selectedBlock listWithoutSelection]> prev
        end
      else
        <[active := spliceIn hoverIndex [draggedItem] (delete dragIndex newItems)]> prev
  | _, _ => prev
  end.

(** [dayModes[activeEventName]?.[currentDay] || 'edit'] *)
Definition modeOf (s : AppState) (active : string) (day : Day) : ViewMode :=
  match dayModes s !! active with
  | Some modes => getMode day modes
  | None => edit
  end.

Definition handleMoveItem (dragId hoverId : string) (targetColumn : option Column)
    (s : AppState) : AppState :=
  match truthy (activeEventName s) with
  | None => s
  | Some active =>
      let s := setBlockSortDirection None (setSortState Manual s) in
      let day := currentDay (activeTab s) in
      let mode := modeOf s active day in
      if bool_decide (mode = edit) && bool_decide (targetColumn = Some ExecuteColumn) then
        setExecuteModeItems
          (moveInExecuteColumn active day (selectedItemIds s) dragId hoverId) s
      else if bool_decide (mode = execute) then
        setEventLists (moveInEventList active (selectedItemIds s) dragId hoverId) s
      else s
  end.

(** ** The execute column ([handleMoveToExecuteColumn],
       [handleRemoveFromExecuteColumn]) *)

(** [new Set(list)] followed by [itemIds.forEach(id => set.add(id))] and
    [Array.from(set)]. *)
Definition addToExecuteColumn (dayItems itemIds : list string) : list string :=
  foldl setAdd (newSet dayItems) itemIds.

Definition handleMoveToExecuteColumn (itemIds : list string) (s : AppState) : AppState :=
  match truthy (activeEventName s) with
  | None => s
  | Some active =>
      let day := currentDay (activeTab s) in
      setSelectedItemIds ∅
        (setExecuteModeItems (λ prev,
           let eventItems := default emptyExecuteModeItems (prev !! active) in
           <[active := setDay day (addToExecuteColumn (getDay day eventItems) itemIds)
                         eventItems]> prev) s)
  end.

Definition handleRemoveFromExecuteColumn (itemIds : list string) (s : AppState) : AppState :=
  match truthy (activeEventName s) with
  | None => s
  | Some active =>
      let day := currentDay (activeTab s) in
      setSelectedItemIds ∅
        (setExecuteModeItems (λ prev,
           let eventItems := default emptyExecuteModeItems (prev !! active) in
           <[active := setDay day (filter (λ id, id ∉ itemIds) (getDay day eventItems))
                         eventItems]> prev) s)
  end.

(** ** The two column projections *)

(** [items]: the active event's list, empty when there is none. *)
Definition items (s : AppState) : list ShoppingItem :=
  match truthy (activeEventName s) with
  | Some active => default [] (eventLists s !! active)
  | None => []
  end.

Definition day1Items (s : AppState) : list ShoppingItem :=
  filter (λ item : ShoppingItem, Str.includes (eventDate item) "1日目") (items s).

Definition day2Items (s : AppState) : list ShoppingItem :=
  filter (λ item : ShoppingItem, Str.includes (eventDate item) "2日目") (items s).

(** [executeModeItems[activeEventName]?.[currentDay] || []] *)
Definition executeIdsOf (s : AppState) (active : string) : list string :=
  match executeModeItems s !! active with
  | Some eventItems => getDay (currentDay (activeTab s)) eventItems
  | None => []
  end.

Definition executeColumnItems (s : AppState) : list ShoppingItem :=
  match truthy (activeEventName s) with
  | None => []
  | Some active =>
      let executeIds := executeIdsOf s active in
      let itemsMap := newMap ((λ item : ShoppingItem, (itemId item, item)) <$> items s) in
      omap (λ id, itemsMap !! id) executeIds
  end.

Definition candidateColumnItems (s : AppState) : list ShoppingItem :=
  match truthy (activeEventName s) with
  | None => []
  | Some active =>
      let executeIds := executeIdsOf s active in
      let itemsForTab :=
        match activeTab s with TabDay1 => day1Items s | _ => day2Items s end in
      filter (λ item : ShoppingItem, itemId item ∉ executeIds) itemsForTab
  end.

(** * Vocabulary of the statements *)

(** ** Reordering *)

(** The branch of [handleMoveItem] that state [s] and [targetColumn] select. *)
Inductive MoveBranch :=
  | ExecuteColumnBranch (active : string) (day : Day)
  | EventListBranch (active : string)
  | NoMove.

Definition moveBranch (targetColumn : option Column) (s : AppState) : MoveBranch :=
  match truthy (activeEventName s) with
  | None => NoMove
  | Some active =>
      let day := currentDay (activeTab s) in
      if bool_decide (modeOf s active day = edit)
         && bool_decide (targetColumn = Some ExecuteColumn)
      then ExecuteColumnBranch active day
      else if bool_decide (modeOf s active day = execute) then EventListBranch active
      else NoMove
  end.

(** The id sequence that [handleMoveItem] reorders: the day's execute column
    in the edit-mode branch, the ids of the event's items in the
    execute-mode branch. *)
Definition reorderedIds (targetColumn : option Column) (s : AppState) : list string :=
  match moveBranch targetColumn s with
  | ExecuteColumnBranch active day =>
      getDay day (default emptyExecuteModeItems (executeModeItems s !! active))
  | EventListBranch active => itemId <$> default [] (eventLists s !! active)
  | NoMove => []
  end.

(** Both branches on a bare id list; [guarded] is the execute-mode branch,
    which looks both ids up before it looks at the selection. *)
Definition moveIds (guarded : bool) (selected : gset string) (dragId hoverId : string)
    (ids : list string) : list string :=
  if guarded && bool_decide (dragId ∉ ids ∨ hoverId ∉ ids) then ids
  else if decide (dragId ∈ selected) then
    match list_find (λ id, id = hoverId) (filter (λ id, id ∉ selected) ids) with
    | None => ids
    | Some (targetIndex, _) =>
        spliceIn targetIndex (filter (λ id, id ∈ selected) ids)
          (filter (λ id, id ∉ selected) ids)
    end
  else
    match list_find (λ id, id = dragId) ids, list_find (λ id, id = hoverId) ids with
    | Some (dragIndex, _), Some (hoverIndex, _) =>
        spliceIn hoverIndex [dragId] (delete dragIndex ids)
    | _, _ => ids
    end.

(** ** Columns *)

(** The values of a list in the order of their first occurrence. *)
Fixpoint keepFirst (l : list string) : list string :=
  match l with
  | [] => []
  | x :: l => x :: filter (λ y, y ≠ x) (keepFirst l)
  end.

(** [executeModeItems[activeEventName]?.[currentDay] || []], or nothing
    without an active event. *)
Definition currentExecuteIds (s : AppState) : list string :=
  match truthy (activeEventName s) with
  | Some active => executeIdsOf s active
  | None => []
  end.


(** ** Reconciliation *)

(** [get] on a [Map] built from a list of items under the key [key]. *)
Definition keyed (key : ShoppingItem → list string) (l : list ShoppingItem)
    : gmap (list string) ShoppingItem :=
  newMap ((λ item, (key item, item)) <$> l).

(** The two keys, read off a current item. *)
Definition fullKeyOf (item : ShoppingItem) : list string := getItemKey item.
Definition looseKeyOf (item : ShoppingItem) : list string := getItemKeyWithoutTitle item.

(** [currentItemsMapWithAll] and [currentItemsMapWithoutTitle] *)
Definition byFullKey (l : list ShoppingItem) : gmap (list string) ShoppingItem :=
  keyed fullKeyOf l.

Definition byLooseKey (l : list ShoppingItem) : gmap (list string) ShoppingItem :=
  keyed looseKeyOf l.

(** The current item a fetched row is matched with: by full key first, by
    loose key otherwise. *)
Definition matched (currentItems : list ShoppingItem) (row : ItemData) : option ShoppingItem :=
  match byFullKey currentItems !! getItemKey row with
  | Some existing => Some existing
  | None => byLooseKey currentItems !! getItemKeyWithoutTitle row
  end.

(** What one row pushes onto [itemsToUpdate] and onto [itemsToAdd]. *)
Definition rowUpdate (currentItems : list ShoppingItem) (row : ItemData) : option ShoppingItem :=
  match (byFullKey currentItems !! getItemKey row : option ShoppingItem) with
  | Some existing =>
      if bool_decide (price existing ≠ price row ∨ remarks existing ≠ remarks row)
      then Some (withPriceRemarks existing row) else None
  | None =>
      (λ existing, withTitlePriceRemarks existing row)
        <$> byLooseKey currentItems !! getItemKeyWithoutTitle row
  end.

Definition rowAdd (currentItems : list ShoppingItem) (row : ItemData) : option ItemData :=
  match matched currentItems row with
  | Some _ => None
  | None => Some row
  end.

(** The three steps of [applyUpdateData], one after the other: the items
    that are not deleted, an item after the update under its id, and the
    items made of the added rows. *)
Definition survivors (d : UpdateData) (items : list ShoppingItem) : list ShoppingItem :=
  filter (λ item : ShoppingItem, itemId item ∉ itemId <$> itemsToDelete d) items.

Definition updatedItem (d : UpdateData) (item : ShoppingItem) : ShoppingItem :=
  default item
    (newMap ((λ item : ShoppingItem, (itemId item, item)) <$> itemsToUpdate d) !! itemId item).

Definition addedItems (uuid : nat → string) (d : UpdateData) : list ShoppingItem :=
  imap (λ k itemData, mkItem (uuid k) itemData StatusNone) (itemsToAdd d).

(** ** Example data *)

(** Event ["E"] is active on the first day and in mode [mode]; its items
    carry the ids [itemIds] in this order, the first day's execute column is
    [column], and [selected] is the selection. *)
Definition sampleItem (id : string) : ShoppingItem :=
  mkItem id (mkItemData "circle" "1日目" "A" "01" id 0 "") StatusNone.

Definition sampleState (itemIds column : list string) (selected : gset string)
    (mode : ViewMode) : AppState :=
  mkAppState {[ "E" := sampleItem <$> itemIds ]}
    {[ "E" := mkExecuteModeItems column [] ]}
    {[ "E" := mkDayModeState mode mode ]}
    (Some "E") TabDay1 Manual None selected false None None.

(** A comparator and an id supply: blocks, then numbers, in code-unit
    order; ids [new-], [new-i], [new-ii], ... *)
Definition compareByCodeUnit (a b : ItemData) : Z :=
  match String.compare (block a) (block b) with
  | Lt => -1
  | Gt => 1
  | Eq => match String.compare (number a) (number b) with
          | Lt => -1
          | Gt => 1
          | Eq => 0
          end
  end.

Fixpoint tally (k : nat) : string :=
  match k with
  | 0 => ""
  | S k => "i" +:+ tally k
  end.

Definition sampleUuid (k : nat) : string := "new-" +:+ tally k.

(** The item and the row of the spec's key-tier example, with a changed
    price and remark besides. *)
Definition oldItem : ShoppingItem :=
  mkItem "id-1" (mkItemData "A" "1" "E1" "01" "Old" 500 "") Purchased.

Definition newRow : ItemData := mkItemData "A" "1" "E1" "01" "New" 600 "signed".

(** A sheet whose second row has padded cells and an ideographic space, whose
    third line is blank, whose fourth row lacks its block and whose last row
    stops after its number. *)
Definition sampleSheet : string :=
  "a,b,c,d,e,f,g,h,i,j,k,l,circle,day,block,number,title,price,s,t,u,v,remarks
,,,,,,,,,,,, Alpha , 1日目,E1,　01,New , ¥1200 ,,,,, thanks 
   
,,,,,,,,,,,,Beta,1日目,,07,Skipped,300
,,,,,,,,,,,,Gamma,2日目,A,12a".

(** The store after the event of a pending change-set was deleted. *)
Definition afterEventDeleted : AppState :=
  mkAppState ∅ ∅ ∅ None TabEventList Manual None ∅ true
    (Some (mkUpdateData [oldItem] [] [newRow])) (Some "E").

(** A sheet with a retitled row, two rows of one circle (one unchanged, one
    with a new price) and a new row, against a list with an item that left
    the sheet. *)
Definition syncSheet : string :=
  "a,b,c,d,e,f,g,h,i,j,k,l,circle,day,block,number,title,price,s,t,u,v,remarks
,,,,,,,,,,,,A,1,E1,01,New,600,,,,,signed
,,,,,,,,,,,,B,1,E2,03,Same,100,,,,,
,,,,,,,,,,,,B,1,E2,03,Sequel,450,,,,,
,,,,,,,,,,,,C,2,A,10,Fresh,250,,,,,".

Definition syncState : AppState :=
  mkAppState
    {[ "E" := [ oldItem;
                mkItem "id-2" (mkItemData "B" "1" "E2" "03" "Same" 100 "") StatusNone;
                mkItem "id-3" (mkItemData "D" "1" "F" "09" "Gone" 100 "") Late;
                mkItem "id-4" (mkItemData "B" "1" "E2" "03" "Sequel" 400 "") Postpone ] ]}
    {[ "E" := mkExecuteModeItems ["id-3"; "id-1"] [] ]}
    {[ "E" := mkDayModeState edit edit ]}
    (Some "E") TabDay1 Manual None ∅ false None None.

(** Two fetched rows at the place of one current item, with different
    titles. *)
Definition twoTitlesSheet : string :=
  "a,b,c,d,e,f,g,h,i,j,k,l,circle,day,block,number,title,price,s,t,u,v,remarks
,,,,,,,,,,,,A,1,E1,01,First,500
,,,,,,,,,,,,A,1,E1,01,Second,500".

Definition oneItemState : AppState :=
  mkAppState {[ "E" := [oldItem] ]} ∅ ∅ (Some "E") TabDay1 Manual None ∅ false None None.








(** * The other handlers of [App] *)

(** ** The remaining cells *)

Definition setDayModes (f : gmap string DayModeState → gmap string DayModeState)
    (s : AppState) : AppState :=
  mkAppState (eventLists s) (executeModeItems s) (f (dayModes s)) (activeEventName s)
    (activeTab s) (sortState s) (blockSortDirection s) (selectedItemIds s)
    (showUpdateConfirmation s) (updateData s) (updateEventName s).

Definition setActiveEventName (v : option string) (s : AppState) : AppState :=
  mkAppState (eventLists s) (executeModeItems s) (dayModes s) v
    (activeTab s) (sortState s) (blockSortDirection s) (selectedItemIds s)
    (showUpdateConfirmation s) (updateData s) (updateEventName s).

Definition setActiveTab (v : ActiveTab) (s : AppState) : AppState :=
  mkAppState (eventLists s) (executeModeItems s) (dayModes s) (activeEventName s)
    v (sortState s) (blockSortDirection s) (selectedItemIds s)
    (showUpdateConfirmation s) (updateData s) (updateEventName s).

(** [EventMetadata] of [./types] *)
Record EventMetadata := mkEventMetadata {
  spreadsheetUrl : string;
  spreadsheetSheetName : string;
  lastImportDate : string;
}.

(** The cells of [AppState] together with the [useState] cells that only
    the handlers of this part use. *)
Record AppStore := mkAppStore {
  core :> AppState;
  eventMetadata : gmap string EventMetadata;
  itemToEdit : option ShoppingItem;
  itemToDelete : option ShoppingItem;
}.

(** A setter of [AppState], on the store. *)
Definition onCore (f : AppState → AppState) (st : AppStore) : AppStore :=
  mkAppStore (f (core st)) (eventMetadata st) (itemToEdit st) (itemToDelete st).

Definition setEventMetadata (f : gmap string EventMetadata → gmap string EventMetadata)
    (st : AppStore) : AppStore :=
  mkAppStore (core st) (f (eventMetadata st)) (itemToEdit st) (itemToDelete st).

Definition setItemToEdit (v : option ShoppingItem) (st : AppStore) : AppStore :=
  mkAppStore (core st) (eventMetadata st) v (itemToDelete st).

Definition setItemToDelete (v : option ShoppingItem) (st : AppStore) : AppStore :=
  mkAppStore (core st) (eventMetadata st) (itemToEdit st) v.

(** What a handler on the store leaves behind: the next store, or the
    [TypeError] that reading a property of [undefined] or spreading a value
    that is not iterable throws. *)
Inductive StoreOutcome :=
  | StoreDone (st : AppStore)
  | StoreTypeError.

#[export] Instance SortState_eq_dec : EqDecision SortState.
Proof. solve_decision. Defined.
#[export] Instance BlockSortDirection_eq_dec : EqDecision BlockSortDirection.
Proof. solve_decision. Defined.
#[export] Instance ActiveTab_eq_dec : EqDecision ActiveTab.
Proof. solve_decision. Defined.

(** [BulkSortDirection]: the same two literals as [BlockSortDirection]. *)
Definition BulkSortDirection : Type := BlockSortDirection.

(** ** Adding items ([handleBulkAdd]) *)

(** The tab chosen for a list of items: the [if] / [else if] chain on
    [some(item => item.eventDate.includes(...))] that [handleBulkAdd] and
    [handleSelectEvent] both end with. *)
Definition tabFor (l : list ShoppingItem) : ActiveTab :=
  if bool_decide (Exists (λ item : ShoppingItem, Str.includes (eventDate item) "1日目") l)
  then TabDay1
  else if bool_decide (Exists (λ item : ShoppingItem, Str.includes (eventDate item) "2日目") l)
  then TabDay2
  else TabDay1.

(** The optional third argument of [handleBulkAdd]. *)
Record ImportMetadata := mkImportMetadata {
  url : option string;
  sheetName : option string;
}.

(** The names that every plain object inherits from [Object.prototype].
    The dictionaries of the store are plain objects: [obj[name]] with such a
    name gives a function (for [__proto__] the prototype itself) when [obj]
    has no property of its own under the name. *)
Definition objectPrototypeKeys : list string :=
  [ "constructor"; "__defineGetter__"; "__defineSetter__"; "hasOwnProperty";
    "__lookupGetter__"; "__lookupSetter__"; "isPrototypeOf"; "propertyIsEnumerable";
    "toString"; "valueOf"; "__proto__"; "toLocaleString" ].

(** What [obj[name]] gives on a plain object. *)
Inductive Property (V : Type) :=
  | Own (v : V)
  | Inherited
  | Undefined.
Arguments Own {V} v.
Arguments Inherited {V}.
Arguments Undefined {V}.

Definition getProperty {V} (obj : gmap string V) (name : string) : Property V :=
  match obj !! name with
  | Some v => Own v
  | None => if bool_decide (name ∈ objectPrototypeKeys) then Inherited else Undefined
  end.

(** [!obj[name]] for a dictionary of arrays or records: only [undefined] is
    falsy. *)
Definition isMissing {V} (found : Property V) : bool :=
  match found with
  | Undefined => true
  | Own _ | Inherited => false
  end.

(** The items that [[...(found || [])]] spreads: those of an own array, none
    for [undefined]; [None] is the [TypeError] of spreading an inherited
    function or the prototype, neither of which is iterable. *)
Definition spreadOrEmpty {A} (found : Property (list A)) : option (list A) :=
  match found with
  | Own l => Some l
  | Undefined => Some []
  | Inherited => None
  end.

Section BulkAdd.

(** [uuid k] is what the [k]-th call of [crypto.randomUUID()] returns, and
    [now] what [new Date().toISOString()] returns. *)
Variable uuid : nat → string.
Variable now : string.

(** The updater of [setEventLists] throws when it spreads a value that is
    not iterable; no store results then. *)
Definition handleBulkAdd (eventName : string) (newItemsData : list ItemData)
    (metadata : option ImportMetadata) (st : AppStore) : StoreOutcome :=
  let newItems := imap (λ k itemData, mkItem (uuid k) itemData StatusNone) newItemsData in
  let isNewEvent := isMissing (getProperty (eventLists st) eventName) in
  let updater := λ prevLists : gmap string (list ShoppingItem),
    match spreadOrEmpty (getProperty prevLists eventName) with
    | Some currentItems => Some (<[eventName := currentItems ++ newItems]> prevLists)
    | None => None
    end in
  match updater (eventLists st) with
  | None => StoreTypeError
  | Some lists =>
      let st := onCore (setEventLists (λ _, lists)) st in
      let st := match truthy (metadata ≫= url) with
                | Some url' =>
                    setEventMetadata (λ prev,
                      <[eventName := mkEventMetadata url'
                                       (default "" (metadata ≫= sheetName)) now]> prev) st
                | None => st
                end in
      let st := if isNewEvent
                then onCore (setExecuteModeItems
                               (λ prev, <[eventName := emptyExecuteModeItems]> prev))
                       (onCore (setDayModes
                                  (λ prev, <[eventName := mkDayModeState edit edit]> prev))
                          st)
                else st in
      let st := if isNewEvent then onCore (setActiveEventName (Some eventName)) st else st in
      StoreDone match newItems with
                | [] => st
                | _ :: _ => onCore (setActiveTab (tabFor newItems)) st
                end
  end.

End BulkAdd.

(** ** Modes, events and the selection *)

(** [{ ...modes, [currentDay]: newMode }] *)
Definition setMode (d : Day) (mode : ViewMode) (m : DayModeState) : DayModeState :=
  match d with
  | day1 => mkDayModeState mode (mode_day2 m)
  | day2 => mkDayModeState (mode_day1 m) mode
  end.

(** [currentMode]: the mode the screen is rendered in. *)
Definition currentMode (s : AppState) : ViewMode :=
  match truthy (activeEventName s) with
  | None => execute
  | Some active =>
      match dayModes s !! active with
      | None => edit
      | Some modes =>
          match activeTab s with
          | TabDay1 => mode_day1 modes
          | _ => mode_day2 modes
          end
      end
  end.

Definition handleToggleMode (s : AppState) : AppState :=
  match truthy (activeEventName s) with
  | None => s
  | Some active =>
      let day := currentDay (activeTab s) in
      let currentModeValue := modeOf s active day in
      let newMode := if decide (currentModeValue = edit) then execute else edit in
      setSelectedItemIds ∅
        (setDayModes (λ prev,
           <[active := setMode day newMode
                         (default (mkDayModeState edit edit) (prev !! active))]> prev) s)
  end.

Definition handleSelectEvent (eventName : string) (s : AppState) : AppState :=
  let eventItems := default [] (eventLists s !! eventName) in
  setActiveTab (tabFor eventItems)
    (setSelectedItemIds ∅ (setActiveEventName (Some eventName) s)).

Definition handleDeleteEvent (eventName : string) (st : AppStore) : AppStore :=
  let active := activeEventName st in
  let st := onCore (setEventLists (λ prev, delete eventName prev)) st in
  let st := setEventMetadata (λ prev, delete eventName prev) st in
  let st := onCore (setExecuteModeItems (λ prev, delete eventName prev)) st in
  let st := onCore (setDayModes (λ prev, delete eventName prev)) st in
  if decide (active = Some eventName)
  then onCore (setActiveTab TabEventList) (onCore (setActiveEventName None) st)
  else st.

Definition sortCycle : list SortState :=
  [SortPostpone; SortLate; SortAbsent; SortSoldOut; SortPurchased; Manual].

(** [Array.prototype.indexOf] *)
Definition indexOf `{EqDecision A} (x : A) (l : list A) : Z :=
  match list_find (λ y, y = x) l with
  | Some (i, _) => Z.of_nat i
  | None => -1
  end.

(** [sortCycle[nextIndex]] is always defined: the index is reduced modulo
    the length. The value given for [undefined] is never used. *)
Definition handleSortToggle (s : AppState) : AppState :=
  let s := setBlockSortDirection None (setSelectedItemIds ∅ s) in
  let currentIndex := indexOf (sortState s) sortCycle in
  let nextIndex := ((currentIndex + 1) `mod` Z.of_nat (length sortCycle))%Z in
  setSortState (default Manual (sortCycle !! Z.to_nat nextIndex)) s.

Definition handleSelectItem (id : string) (s : AppState) : AppState :=
  let s := setBlockSortDirection None (setSortState Manual s) in
  setSelectedItemIds
    (if decide (id ∈ selectedItemIds s)
     then selectedItemIds s ∖ {[id]}
     else selectedItemIds s ∪ {[id]}) s.

Definition handleClearSelection (s : AppState) : AppState := setSelectedItemIds ∅ s.

(** ** Editing and deleting one item *)

Definition handleEditRequest (item : ShoppingItem) (st : AppStore) : AppStore :=
  onCore (setActiveTab TabImport) (setItemToEdit (Some item) st).

Definition handleDeleteRequest (item : ShoppingItem) (st : AppStore) : AppStore :=
  setItemToDelete (Some item) st.

(** [prev[activeEventName].filter(...)] throws when the active event has no
    list. *)
Definition handleConfirmDelete (st : AppStore) : StoreOutcome :=
  match itemToDelete st, truthy (activeEventName st) with
  | Some toDelete, Some active =>
      let deletedId := itemId toDelete in
      match eventLists st !! active with
      | None => StoreTypeError
      | Some items =>
          let st := onCore (setEventLists (λ prev,
                      <[active := filter (λ item : ShoppingItem, itemId item ≠ deletedId)
                                    items]> prev)) st in
          let st := onCore (setExecuteModeItems (λ prev,
                      match prev !! active with
                      | None => prev
                      | Some eventItems =>
                          <[active := mkExecuteModeItems
                                        (filter (λ id, id ≠ deletedId) (exec_day1 eventItems))
                                        (filter (λ id, id ≠ deletedId) (exec_day2 eventItems))]>
                            prev
                      end)) st in
          StoreDone (setItemToDelete None st)
      end
  | _, _ => StoreDone st
  end.

Definition handleDoneEditing (st : AppStore) : AppStore :=
  let originalDay :=
    match itemToEdit st with
    | Some item => if Str.includes (eventDate item) "1日目" then TabDay1 else TabDay2
    | None => TabDay2
    end in
  onCore (setActiveTab originalDay) (setItemToEdit None st).

(** ** Sorting *)

(** [Array.prototype.sort] with a comparator: the items in comparator order,
    items that compare equal in their former order (the sort is stable).
    Every stable sort gives this list when the comparator is consistent. *)
Fixpoint insertBy {A} (cmp : A → A → Z) (x : A) (l : list A) : list A :=
  match l with
  | [] => [x]
  | y :: rest => if decide (cmp x y ≤ 0)%Z then x :: l else y :: insertBy cmp x rest
  end.

Definition sortBy {A} (cmp : A → A → Z) (l : list A) : list A :=
  foldr (insertBy cmp) [] l.

(** [allItems.map(item => onTab(item) ? sorted[sortedIndex++] : item)]. The
    index stays within [sorted] when that list has one entry for each item
    that [onTab] holds of; the value given for [undefined] is never used
    then. *)
Fixpoint refillByIndex (onTab : ShoppingItem → bool) (sorted : list ShoppingItem)
    (sortedIndex : nat) (allItems : list ShoppingItem) : list ShoppingItem :=
  match allItems with
  | [] => []
  | item :: rest =>
      if onTab item
      then default item (sorted !! sortedIndex)
             :: refillByIndex onTab sorted (S sortedIndex) rest
      else item :: refillByIndex onTab sorted sortedIndex rest
  end.

(** The same with two queues that are emptied by [shift() || item]. *)
Fixpoint refillColumns (onTab inExecute : ShoppingItem → bool)
    (executeItems sortedCandidateItems allItems : list ShoppingItem) : list ShoppingItem :=
  match allItems with
  | [] => []
  | item :: rest =>
      if negb (onTab item)
      then item :: refillColumns onTab inExecute executeItems sortedCandidateItems rest
      else if inExecute item
      then default item (head executeItems)
             :: refillColumns onTab inExecute (tail executeItems) sortedCandidateItems rest
      else default item (head sortedCandidateItems)
             :: refillColumns onTab inExecute executeItems (tail sortedCandidateItems) rest
  end.

Section Sorting.

(** [a.localeCompare(b, 'ja', { numeric: true, sensitivity: 'base' })] and
    [a.localeCompare(b, undefined, { numeric: true, sensitivity: 'base' })]:
    the collation of the runtime, left as parameters. *)
Variable collateJa : string → string → Z.
Variable collate : string → string → Z.

(** The comparator of the two block sorts. *)
Definition compareBlocks (nextDirection : BlockSortDirection) (a b : ShoppingItem) : Z :=
  if bool_decide (block a = "") && bool_decide (block b = "") then 0
  else if bool_decide (block a = "") then 1
  else if bool_decide (block b = "") then -1
  else
    let comparison := collateJa (block a) (block b) in
    match nextDirection with
    | asc => comparison
    | desc => - comparison
    end.

(** The comparator of [handleBulkSort]. *)
Definition compareNumbers (direction : BulkSortDirection) (a b : ShoppingItem) : Z :=
  let comparison := collate (number a) (number b) in
  match direction with
  | asc => comparison
  | desc => - comparison
  end.

(** [blockSortDirection === 'asc' ? 'desc' : 'asc'] *)
Definition nextDirectionOf (s : AppState) : BlockSortDirection :=
  if decide (blockSortDirection s = Some asc) then desc else asc.

(** [activeTab === 'day1' ? '1日目' : '2日目'] *)
Definition tabKey (tab : ActiveTab) : string :=
  match tab with TabDay1 => "1日目" | _ => "2日目" end.

Definition handleBlockSortToggle (s : AppState) : AppState :=
  match truthy (activeEventName s) with
  | None => s
  | Some active =>
      let nextDirection := nextDirectionOf s in
      let currentTabKey := tabKey (activeTab s) in
      let onTab := λ item : ShoppingItem, Str.includes (eventDate item) currentTabKey in
      setSelectedItemIds ∅
        (setBlockSortDirection (Some nextDirection)
           (setEventLists (λ prev,
              let allItems := default [] (prev !! active) in
              let itemsForTab := filter (λ item, onTab item) allItems in
              match itemsForTab with
              | [] => prev
              | _ :: _ =>
                  let sortedItemsForTab := sortBy (compareBlocks nextDirection) itemsForTab in
                  <[active := refillByIndex onTab sortedItemsForTab 0 allItems]> prev
              end) s))
  end.

Definition handleBlockSortToggleCandidate (s : AppState) : AppState :=
  match truthy (activeEventName s) with
  | None => s
  | Some active =>
      let nextDirection := nextDirectionOf s in
      let currentTabKey := tabKey (activeTab s) in
      let executeIds := executeIdsOf s active in
      let onTab := λ item : ShoppingItem, Str.includes (eventDate item) currentTabKey in
      let inExecute := λ item : ShoppingItem, bool_decide (itemId item ∈ executeIds) in
      setSelectedItemIds ∅
        (setBlockSortDirection (Some nextDirection)
           (setEventLists (λ prev,
              let allItems := default [] (prev !! active) in
              let candidateItems :=
                filter (λ item, onTab item ∧ ¬ inExecute item) allItems in
              match candidateItems with
              | [] => prev
              | _ :: _ =>
                  let sortedCandidateItems :=
                    sortBy (compareBlocks nextDirection) candidateItems in
                  let executeItems :=
                    filter (λ item, onTab item ∧ inExecute item) allItems in
                  <[active := refillColumns onTab inExecute executeItems
                                sortedCandidateItems allItems]> prev
              end) s))
  end.

(** The three updaters of [handleBulkSort]: the execute column and the
    candidate list in edit mode, the event's list in execute mode. *)
Definition bulkSortExecuteColumn (direction : BulkSortDirection) (active : string) (day : Day)
    (selected : gset string) (items : list ShoppingItem)
    (prev : gmap string ExecuteModeItems) : gmap string ExecuteModeItems :=
  let eventItems := default emptyExecuteModeItems (prev !! active) in
  let dayItems := getDay day eventItems in
  let itemsMap := newMap ((λ item : ShoppingItem, (itemId item, item)) <$> items) in
  let selectedItems :=
    omap (λ id, itemsMap !! id) (filter (λ id, id ∈ selected) dayItems) in
  let otherItems := filter (λ id, id ∉ selected) dayItems in
  let selectedItems := sortBy (compareNumbers direction) selectedItems in
  match list_find (λ id, id ∈ selected) dayItems with
  | None => prev
  | Some (firstSelectedIndex, _) =>
      <[active := setDay day
                    (spliceIn firstSelectedIndex (itemId <$> selectedItems) otherItems)
                    eventItems]> prev
  end.

Definition bulkSortCandidates (direction : BulkSortDirection) (active : string)
    (currentTabKey : string) (executeIds : list string) (selected : gset string)
    (prev : gmap string (list ShoppingItem)) : gmap string (list ShoppingItem) :=
  let allItems := default [] (prev !! active) in
  let onTab := λ item : ShoppingItem, Str.includes (eventDate item) currentTabKey in
  let inExecute := λ item : ShoppingItem, bool_decide (itemId item ∈ executeIds) in
  let candidateItems := filter (λ item, onTab item ∧ ¬ inExecute item) allItems in
  let selectedCandidateItems :=
    filter (λ item : ShoppingItem, itemId item ∈ selected) candidateItems in
  let otherCandidateItems :=
    filter (λ item : ShoppingItem, itemId item ∉ selected) candidateItems in
  let selectedCandidateItems := sortBy (compareNumbers direction) selectedCandidateItems in
  match list_find (λ item : ShoppingItem, itemId item ∈ selected) candidateItems with
  | None => prev
  | Some (firstSelectedIndex, _) =>
      let sortedCandidateItems :=
        spliceIn firstSelectedIndex selectedCandidateItems otherCandidateItems in
      let executeItems := filter (λ item, onTab item ∧ inExecute item) allItems in
      <[active := refillColumns onTab inExecute executeItems sortedCandidateItems allItems]>
        prev
  end.

Definition bulkSortEventList (direction : BulkSortDirection) (active : string)
    (selected : gset string) (prev : gmap string (list ShoppingItem))
    : gmap string (list ShoppingItem) :=
  let currentItems := default [] (prev !! active) in
  let selectedItems :=
    filter (λ item : ShoppingItem, itemId item ∈ selected) currentItems in
  let otherItems :=
    filter (λ item : ShoppingItem, itemId item ∉ selected) currentItems in
  let selectedItems := sortBy (compareNumbers direction) selectedItems in
  match list_find (λ item : ShoppingItem, itemId item ∈ selected) currentItems with
  | None => prev
  | Some (firstSelectedIndex, _) =>
      <[active := spliceIn firstSelectedIndex selectedItems otherItems]> prev
  end.

Definition handleBulkSort (direction : BulkSortDirection) (s : AppState) : AppState :=
  match truthy (activeEventName s) with
  | None => s
  | Some active =>
      if bool_decide (size (selectedItemIds s) = 0) then s
      else
        let selected := selectedItemIds s in
        let s := setBlockSortDirection None (setSortState Manual s) in
        let day := currentDay (activeTab s) in
        let mode := modeOf s active day in
        if bool_decide (mode = edit) then
          let executeIds := executeIdsOf s active in
          let selectedItems :=
            filter (λ item : ShoppingItem, itemId item ∈ selected) (items s) in
          let isInExecuteColumn :=
            bool_decide (Exists (λ item : ShoppingItem, itemId item ∈ executeIds)
                           selectedItems) in
          let isInCandidateColumn :=
            bool_decide (Exists (λ item : ShoppingItem, itemId item ∉ executeIds)
                           selectedItems) in
          if isInExecuteColumn && negb isInCandidateColumn then
            setExecuteModeItems
              (bulkSortExecuteColumn direction active day selected (items s)) s
          else if isInCandidateColumn && negb isInExecuteColumn then
            setEventLists
              (bulkSortCandidates direction active (tabKey (activeTab s)) executeIds selected) s
          else s
        else
          setEventLists (bulkSortEventList direction active selected) s
  end.

End Sorting.

(** ** What the screen shows *)

(** [sortState as Exclude<SortState, 'Manual'>], compared with a purchase
    status: the status of the same name. *)
Definition statusOf (sort : SortState) : option PurchaseStatus :=
  match sort with
  | Manual => None
  | SortPostpone => Some Postpone
  | SortLate => Some Late
  | SortAbsent => Some Absent
  | SortSoldOut => Some SoldOut
  | SortPurchased => Some Purchased
  end.

(** [activeTab === 'day1' ? day1Items : day2Items] *)
Definition itemsForTab (s : AppState) : list ShoppingItem :=
  match activeTab s with TabDay1 => day1Items s | _ => day2Items s end.

Definition visibleItems (s : AppState) : list ShoppingItem :=
  match truthy (activeEventName s) with
  | None => itemsForTab s
  | Some active =>
      let mode := modeOf s active (currentDay (activeTab s)) in
      if bool_decide (mode = execute) then
        let executeIds := executeIdsOf s active in
        let filtered :=
          filter (λ item : ShoppingItem, itemId item ∈ executeIds) (itemsForTab s) in
        match sortState s with
        | Manual => filtered
        | sort =>
            filter (λ item : ShoppingItem, Some (purchaseStatus item) = statusOf sort) filtered
        end
      else itemsForTab s
  end.

Definition hasCandidateSelection (s : AppState) : bool :=
  match truthy (activeEventName s) with
  | None => false
  | Some active =>
      if bool_decide (currentMode s ≠ edit) || bool_decide (size (selectedItemIds s) = 0)
      then false
      else
        let executeIds := executeIdsOf s active in
        let selectedItems :=
          filter (λ item : ShoppingItem, itemId item ∈ selectedItemIds s) (items s) in
        bool_decide (Exists (λ item : ShoppingItem,
                               item ∈ itemsForTab s ∧ itemId item ∉ executeIds)
                       selectedItems)
  end.

(** ** Exporting an event ([handleExportEvent]) *)

Definition statusLabels (status : PurchaseStatus) : string :=
  match status with
  | StatusNone => "未購入"
  | Purchased => "購入済"
  | SoldOut => "売切"
  | Absent => "欠席"
  | Postpone => "後回し"
  | Late => "遅参"
  end.

(** The [replace] of [escapeCsvCell]: every quote is doubled. *)
Definition doubleQuotes (l : list ascii) : list ascii :=
  l ≫= λ c, if Ascii.eqb c dquote then [dquote; dquote] else [c].

Definition escapeCsvCell (stringData : string) : string :=
  if Str.includes stringData (Str.ofChars [comma])
     || Str.includes stringData (Str.ofChars [dquote])
     || Str.includes stringData (Str.ofChars [newline])
  then Str.ofChars ([dquote] ++ doubleQuotes (Str.chars stringData) ++ [dquote])
  else stringData.

Definition headers : list string :=
  ["サークル名"; "参加日"; "ブロック"; "ナンバー"; "タイトル"; "頒布価格"; "購入状態"; "備考"].

(** The cells of one item's row. *)
Definition exportRow (item : ShoppingItem) : list string :=
  [ escapeCsvCell (circle item);
    escapeCsvCell (eventDate item);
    escapeCsvCell (block item);
    escapeCsvCell (number item);
    escapeCsvCell (title item);
    escapeCsvCell (Str.ofNumber (price item));
    escapeCsvCell (statusLabels (purchaseStatus item));
    escapeCsvCell (remarks item) ].

Definition csvString (itemsToExport : list ShoppingItem) : string :=
  let csvRows :=
    Str.join (Str.ofChars [comma]) headers
      :: ((λ item, Str.join (Str.ofChars [comma]) (exportRow item)) <$> itemsToExport) in
  Str.join (Str.ofChars [newline]) csvRows.

(** The file the browser is made to download: its name and its bytes, the
    byte order mark followed by the rows. [None] is the alert that there is
    nothing to export. *)
Definition bom : string := Str.ofChars (ascii_of_N <$> [239; 187; 191]%N).

Definition handleExportEvent (eventName : string) (s : AppState) : option (string * string) :=
  match eventLists s !! eventName with
  | None | Some [] => None
  | Some itemsToExport => Some (eventName +:+ ".csv", bom +:+ csvString itemsToExport)
  end.

(** * The import form ([ImportScreen]) *)

Module ImportScreen.

(** The [useState] cells of the form: the text areas of a new list and the
    fields of a single item. *)
Record Form := mkForm {
  eventName : string;
  circles : string;
  eventDates : string;
  blocks : string;
  numbers : string;
  titles : string;
  prices : string;
  remarks : string;
  singleCircle : string;
  singleEventDate : string;
  singleBlock : string;
  singleNumber : string;
  singleTitle : string;
  singlePrice : string;
  singleRemarks : string;
}.

(** What a handler of the form calls: [alert] or one of the callbacks that
    [App] passes in. *)
Inductive Call :=
  | alert (message : string)
  | onUpdateItem (item : ShoppingItem)
  | onDoneEditing
  | onBulkAdd (name : string) (items : list ItemData).

Definition tab : ascii := ascii_of_N 9.

(** [cells[i] || ''] *)
Definition cellAt (cells : list string) (i : nat) : string := default "" (cells !! i).

(** The fields of a single item, set from the item to edit (the effect on
    [itemToEdit]). *)
Definition prefill (itemToEdit : option ShoppingItem) (f : Form) : Form :=
  match itemToEdit with
  | None => f
  | Some (mkItem _ (mkItemData circle eventDate block number title price remarks') _) =>
      mkForm (eventName f) (circles f) (eventDates f) (blocks f) (numbers f) (titles f)
        (prices f) (remarks f)
        circle eventDate block number title (Str.ofNumber price) remarks'
  end.

Definition handlePaste (pasteData : string) (f : Form) : Form :=
  let rows := sheetLines pasteData in
  let cells := Str.split tab <$> rows in
  let column := λ i, Str.join (Str.ofChars [newline]) ((λ c, cellAt c i) <$> cells) in
  mkForm (eventName f) (column 0) (column 1) (column 2) (column 3) (column 4) (column 5)
    (remarks f)
    (singleCircle f) (singleEventDate f) (singleBlock f) (singleNumber f) (singleTitle f)
    (singlePrice f) (singleRemarks f).

Definition resetSingleForm (f : Form) : Form :=
  mkForm (eventName f) (circles f) (eventDates f) (blocks f) (numbers f) (titles f)
    (prices f) (remarks f) "" "1日目" "" "" "" "0" "".

(** The setters after a successful [onBulkAdd] of a new list. *)
Definition resetBulkForm (f : Form) : Form :=
  mkForm "" "" "" "" "" "" "" ""
    (singleCircle f) (singleEventDate f) (singleBlock f) (singleNumber f) (singleTitle f)
    (singlePrice f) (singleRemarks f).

(** [text.split('\n').map(s => s.trim())] *)
Definition trimmedLines (text : string) : list string :=
  Str.trim <$> Str.split newline text.

(** [arr[i] || fallback] *)
Definition lineOr (fallback : string) (arr : list string) (i : nat) : string :=
  match arr !! i with
  | None | Some "" => fallback
  | Some line => line
  end.

(** One pass of the loop over the lines of a new list: [None] is the
    [continue]. *)
Definition newItemAt (circlesArr eventDatesArr blocksArr numbersArr titlesArr pricesArr
    remarksArr : list string) (i : nat) : option ItemData :=
  let circle := lineOr "" circlesArr i in
  let block := lineOr "" blocksArr i in
  let number := lineOr "" numbersArr i in
  if bool_decide (block = "") || bool_decide (number = "") then None
  else
    let price := Str.digitsValue (lineOr "0" pricesArr i) in
    Some (mkItemData circle (lineOr "1日目" eventDatesArr i) block number
            (lineOr "" titlesArr i) price (lineOr "" remarksArr i)).

(** The item that the single-item fields describe. *)
Definition singleItem (f : Form) : ItemData :=
  mkItemData (Str.trim (singleCircle f)) (singleEventDate f) (Str.trim (singleBlock f))
    (Str.trim (singleNumber f)) (Str.trim (singleTitle f))
    (Str.digitsValue (singlePrice f)) (Str.trim (singleRemarks f)).

Definition handleSubmit (activeEventName : option string) (itemToEdit : option ShoppingItem)
    (f : Form) : list Call * Form :=
  match itemToEdit with
  | Some toEdit =>
      if bool_decide (Str.trim (singleCircle f) = "")
         && bool_decide (Str.trim (singleTitle f) = "")
      then ([alert "サークル名かタイトルを入力してください。"], f)
      else
        let updatedItem := mkItem (itemId toEdit) (singleItem f) (purchaseStatus toEdit) in
        ([onUpdateItem updatedItem; onDoneEditing], f)
  | None =>
      match activeEventName with
      | None =>
          if bool_decide (Str.trim (eventName f) = "")
          then ([alert "即売会名を入力してください。"], f)
          else
            let finalEventName := Str.trim (eventName f) in
            let circlesArr := trimmedLines (circles f) in
            let eventDatesArr := trimmedLines (eventDates f) in
            let blocksArr := trimmedLines (blocks f) in
            let numbersArr := trimmedLines (numbers f) in
            let titlesArr := trimmedLines (titles f) in
            let pricesArr := trimmedLines (prices f) in
            let remarksArr := trimmedLines (remarks f) in
            let numItems :=
              foldr Nat.max 0
                (length <$> [circlesArr; eventDatesArr; blocksArr; numbersArr; titlesArr;
                             pricesArr; remarksArr]) in
            if bool_decide (numItems = 0) || bool_decide (circlesArr = [""])
            then ([alert "インポートするデータがありません。"], f)
            else
              let newItems :=
                omap (newItemAt circlesArr eventDatesArr blocksArr numbersArr titlesArr
                        pricesArr remarksArr) (seq 0 numItems) in
              match newItems with
              | [] =>
                  ([alert ("有効なアイテムデータが見つかりませんでした。"
                           +:+ "必須項目が入力されているか確認してください。")], f)
              | _ :: _ => ([onBulkAdd finalEventName newItems], resetBulkForm f)
              end
      | Some active =>
          if bool_decide (Str.trim (singleCircle f) = "")
             && bool_decide (Str.trim (singleTitle f) = "")
          then ([alert "サークル名かタイトルを入力してください。"], f)
          else ([onBulkAdd active [singleItem f]], resetSingleForm f)
      end
  end.

End ImportScreen.

(** * Vocabulary of the statements on the other handlers *)

(** ** Sorting *)

(** [refillByIndex] and [refillColumns] both hand out, from the front of a
    queue, the items of the places that a predicate holds of. *)
Fixpoint refillQueue (P : ShoppingItem → bool) (queue l : list ShoppingItem)
    : list ShoppingItem :=
  match l with
  | [] => []
  | item :: rest =>
      if P item then default item (head queue) :: refillQueue P (tail queue) rest
      else item :: refillQueue P queue rest
  end.

(** A comparator is consistent when "not after" is the mirror image of
    "not before" and is transitive. *)
Definition Consistent {A} (cmp : A → A → Z) : Prop :=
  (∀ a b, cmp a b ≤ 0 ↔ 0 ≤ cmp b a)%Z
  ∧ (∀ a b c, cmp a b ≤ 0 → cmp b c ≤ 0 → cmp a c ≤ 0)%Z.

(** ** The screen *)

(** What the status filter of the sort state lets through. *)
Definition shownBy (sort : SortState) (item : ShoppingItem) : Prop :=
  sort = Manual ∨ Some (purchaseStatus item) = statusOf sort.

#[export] Instance shownBy_dec sort item : Decision (shownBy sort item).
Proof. unfold shownBy. apply _. Defined.

(** ** The export *)

(** The fields of an item, in the order of the export's columns. *)
Definition exportFields (item : ShoppingItem) : list string :=
  [ circle item; eventDate item; block item; number item; title item;
    Str.ofNumber (price item); statusLabels (purchaseStatus item); remarks item ].

(** The text fields of an item: what the user typed or the sheet held. *)
Definition textFields (item : ItemData) : list string :=
  [circle item; eventDate item; block item; number item; title item; remarks item].

(** ** The fetched sheet *)

(** A cell in quotes, every quote of it doubled: what the first branch of
    [escapeCsvCell] writes, and what a sheet that quotes every cell writes. *)
Definition quoted (cell : string) : string :=
  Str.ofChars ([dquote] ++ doubleQuotes (Str.chars cell) ++ [dquote]).

(** How a cell may be written in the text of a sheet: in quotes, or as it
    is when it holds no comma and no quote. *)
Definition writes (cell written : string) : Prop :=
  written = quoted cell
  ∨ (written = cell ∧ comma ∉ Str.chars cell ∧ dquote ∉ Str.chars cell).

#[export] Instance writes_dec cell written : Decision (writes cell written).
Proof. unfold writes. apply _. Defined.


(** ** The invariant of the stored lists *)

(** The ids of an event's items and the ids of an event's execute column,
    both empty for an event that has none. *)
Definition listedIds (s : AppState) (event : string) : list string :=
  itemId <$> default [] (eventLists s !! event).

Definition columnIds (s : AppState) (event : string) (day : Day) : list string :=
  getDay day (default emptyExecuteModeItems (executeModeItems s !! event)).

(** No event holds an id twice, and no execute column holds an id twice or
    an id that no item of its event carries. *)
Definition WellFormed (s : AppState) : Prop :=
  ∀ event,
    NoDup (listedIds s event)
    ∧ ∀ day, NoDup (columnIds s event day) ∧ columnIds s event day ⊆ listedIds s event.

(** The first [count] generated ids are pairwise different and none of
    them is among [ids]. *)
Definition freshIds (uuid : nat → string) (ids : list string) (count : nat) : Prop :=
  NoDup (uuid <$> seq 0 count) ∧ Forall (λ k, uuid k ∉ ids) (seq 0 count).

(** ** The import form *)

(** What one pasted row becomes: its tab-separated cells trimmed, a blank
    event date read as the first day and a blank price as zero; [None] when
    its block or its number is blank. *)
Definition pastedCell (fallback : string) (cells : list string) (i : nat) : string :=
  match Str.trim (ImportScreen.cellAt cells i) with
  | "" => fallback
  | cell => cell
  end.

Definition pastedItem (cells : list string) : option ItemData :=
  if bool_decide (pastedCell "" cells 2 = "") || bool_decide (pastedCell "" cells 3 = "")
  then None
  else Some (mkItemData (pastedCell "" cells 0) (pastedCell "1日目" cells 1)
               (pastedCell "" cells 2) (pastedCell "" cells 3) (pastedCell "" cells 4)
               (Str.digitsValue (pastedCell "0" cells 5)) "").

(** ** Example data *)

(** Event ["E"] with four items on the first day, one of them without a
    block, and one item on the second day. It is active on the first day
    and in mode [mode]; the first day's execute column is [column], and
    [selected] is the selection. *)
Definition stall (id day block number : string) : ShoppingItem :=
  mkItem id (mkItemData ("circle " +:+ id) day block number "title" 500 "") StatusNone.

Definition fairItems : list ShoppingItem :=
  [ stall "a" "1日目" "B2" "12";
    stall "b" "2日目" "A1" "03";
    stall "c" "1日目" "A10" "7";
    stall "d" "1日目" "" "1";
    stall "e" "1日目" "A9" "30" ].

Definition fairState (column : list string) (selected : gset string) (mode : ViewMode)
    : AppState :=
  mkAppState {[ "E" := fairItems ]}
    {[ "E" := mkExecuteModeItems column [] ]}
    {[ "E" := mkDayModeState mode mode ]}
    (Some "E") TabDay1 Manual None selected false None None.

(** The store of [fairState] with item ["c"] waiting to be deleted. *)
Definition fairStore (column : list string) (selected : gset string) (mode : ViewMode)
    : AppStore :=
  mkAppStore (fairState column selected mode) ∅ None (Some (stall "c" "1日目" "A10" "7")).

(** A collation for the examples: by the number that the digits of a
    string form. *)
Definition collateDigits (a b : string) : Z :=
  Z.of_N (Str.digitsValue a) - Z.of_N (Str.digitsValue b).

(** An item whose fields hold a comma, quotes and a yen sign. *)
Definition quotedItem : ShoppingItem :=
  mkItem "q" (mkItemData "Alpha, Beta" "1日目" "東1" "01a"
                (Str.ofChars ([dquote] ++ Str.chars "New" ++ [dquote]) +:+ " set") 1200
                "thanks") Purchased.

(** Three pasted rows: a full one, one without a circle and a title, and
    one without a block. *)
Definition pastedText : string :=
  Str.join (Str.ofChars [newline])
    [ Str.join (Str.ofChars [ImportScreen.tab]) ["A"; "1日目"; "東1"; "01"; "Book"; "500"];
      Str.join (Str.ofChars [ImportScreen.tab]) [""; "2日目"; "西2"; "02"; ""; "1,000円"];
      Str.join (Str.ofChars [ImportScreen.tab]) ["C"; "1日目"; ""; "03"; "T"; "1"] ].







Definition emptyForm : ImportScreen.Form :=
  ImportScreen.mkForm "" "" "" "" "" "" "" "" "" "1日目" "" "" "" "0" "".

(** * Properties *)

(** ** Lists and containers *)

Section ListFacts.

Context {A : Type}.
Implicit Types (l block : list A) (x : A).

Lemma spliceIn_Permutation start block l : spliceIn start block l ≡ₚ block ++ l.
Proof.
  unfold spliceIn. rewrite <- (take_drop start l) at 3.
  apply Permutation_app_swap_app.
Qed.

Lemma move_one_Permutation i j x l :
  l !! i = Some x → spliceIn j [x] (delete i l) ≡ₚ l.
Proof.
  intros Hi. rewrite spliceIn_Permutation. simpl.
  symmetry. by apply delete_Permutation.
Qed.

Lemma move_block_Permutation (P : A → Prop) `{∀ x, Decision (P x)} start l :
  spliceIn start (filter P l) (filter (λ x, ¬ P x) l) ≡ₚ l.
Proof. rewrite spliceIn_Permutation. apply filter_app_complement. Qed.

Lemma list_find_lookup (P : A → Prop) `{∀ x, Decision (P x)} l i x :
  list_find P l = Some (i, x) → l !! i = Some x.
Proof. intros Hf. by apply list_find_Some in Hf as [? _]. Qed.

End ListFacts.

(** ** Reordering keeps the ids (C6) *)

Lemma moveInEventList_Permutation active selected dragId hoverId prev eventName :
  default [] (moveInEventList active selected dragId hoverId prev !! eventName)
  ≡ₚ default [] (prev !! eventName).
Proof.
  unfold moveInEventList.
  destruct (list_find _ _) as [[dragIndex draggedItem]|] eqn:Hdrag; [|done].
  destruct (list_find (λ item : ShoppingItem, itemId item = hoverId) _)
    as [[hoverIndex hoverItem]|] eqn:Hhover; [|done].
  destruct (decide (eventName = active)) as [->|Hne].
  - case_decide.
    + destruct (list_find _ (filter _ _)) as [[targetIndex ?]|]; [|done].
      rewrite lookup_insert_eq. simpl.
      apply (move_block_Permutation (λ item : ShoppingItem, itemId item ∈ selected)).
    + rewrite lookup_insert_eq. simpl.
      eapply move_one_Permutation, list_find_lookup, Hdrag.
  - case_decide.
    + destruct (list_find _ (filter _ _)) as [[targetIndex ?]|]; [|done].
      by rewrite lookup_insert_ne.
    + by rewrite lookup_insert_ne.
Qed.

Lemma getDay_setDay day day' ids eventItems :
  getDay day' (setDay day ids eventItems)
  = if decide (day' = day) then ids else getDay day' eventItems.
Proof. by destruct day, day'. Qed.

Lemma moveInExecuteColumn_Permutation active day selected dragId hoverId prev eventName day' :
  getDay day' (default emptyExecuteModeItems
                 (moveInExecuteColumn active day selected dragId hoverId prev !! eventName))
  ≡ₚ getDay day' (default emptyExecuteModeItems (prev !! eventName)).
Proof.
  unfold moveInExecuteColumn.
  set (eventItems := default emptyExecuteModeItems (prev !! active)).
  assert (Hset : ∀ ids, ids ≡ₚ getDay day eventItems →
            getDay day' (default emptyExecuteModeItems
                           (<[active := setDay day ids eventItems]> prev !! eventName))
            ≡ₚ getDay day' (default emptyExecuteModeItems (prev !! eventName))).
  { intros ids Hids. destruct (decide (eventName = active)) as [->|Hne].
    - rewrite lookup_insert_eq. simpl. rewrite getDay_setDay.
      case_decide; by subst.
    - by rewrite lookup_insert_ne. }
  case_decide.
  - destruct (list_find _ (filter _ _)) as [[targetIndex ?]|]; [|done].
    apply Hset, (move_block_Permutation (λ id, id ∈ selected)).
  - destruct (list_find _ _) as [[dragIndex draggedItem]|] eqn:Hdrag; [|done].
    destruct (list_find (λ id, id = hoverId) _) as [[hoverIndex ?]|]; [|done].
    eapply Hset, move_one_Permutation, list_find_lookup, Hdrag.
Qed.

(** C6. In every state, for every event and day, [handleMoveItem] leaves the
    multiset of ids of the event's list and of the day's execute column as
    it was, whatever the dragged id, the target id, the column and the
    selection are: the item list after is a permutation of the item list
    before, and so are the two id lists. *)
Theorem handleMoveItem_preserves_ids dragId hoverId targetColumn s eventName day :
  let s' := handleMoveItem dragId hoverId targetColumn s in
  default [] (eventLists s' !! eventName) ≡ₚ default [] (eventLists s !! eventName)
  ∧ itemId <$> default [] (eventLists s' !! eventName)
    ≡ₚ itemId <$> default [] (eventLists s !! eventName)
  ∧ getDay day (default emptyExecuteModeItems (executeModeItems s' !! eventName))
    ≡ₚ getDay day (default emptyExecuteModeItems (executeModeItems s !! eventName)).
Proof.
  cbv zeta.
  assert (Hitems : default [] (eventLists (handleMoveItem dragId hoverId targetColumn s)
                                 !! eventName)
                   ≡ₚ default [] (eventLists s !! eventName)
                   ∧ getDay day (default emptyExecuteModeItems
                        (executeModeItems (handleMoveItem dragId hoverId targetColumn s)
                           !! eventName))
                     ≡ₚ getDay day (default emptyExecuteModeItems
                                      (executeModeItems s !! eventName))).
  { unfold handleMoveItem. destruct (truthy _) as [active|]; [|done].
    destruct (bool_decide _ && bool_decide _); [|destruct (bool_decide _)]; simpl.
    - split; [done|]. apply moveInExecuteColumn_Permutation.
    - split; [|done]. apply moveInEventList_Permutation.
    - done. }
  destruct Hitems as [Hitems Hids]. split_and!; [done| |done].
  by apply fmap_Permutation.
Qed.

(** ** What a move does to the id sequence *)

Lemma fmap_filter_itemId (P : string → Prop) `{∀ x, Decision (P x)} (l : list ShoppingItem) :
  itemId <$> filter (λ item : ShoppingItem, P (itemId item)) l = filter P (itemId <$> l).
Proof.
  induction l as [|item l IH]; [done|].
  rewrite fmap_cons, !filter_cons.
  destruct (decide (P (itemId item))); [rewrite fmap_cons; f_equal|]; apply IH.
Qed.

Lemma fmap_spliceIn {A B} (f : A → B) start block (l : list A) :
  f <$> spliceIn start block l = spliceIn start (f <$> block) (f <$> l).
Proof. unfold spliceIn. by rewrite !fmap_app, fmap_take, fmap_drop. Qed.

Lemma list_find_itemId (id : string) (l : list ShoppingItem) :
  list_find (λ x, x = id) (itemId <$> l)
  = prod_map (λ i, i) itemId <$> list_find (λ item : ShoppingItem, itemId item = id) l.
Proof. by rewrite list_find_fmap. Qed.

Lemma list_find_None_not_elem (id : string) (ids : list string) :
  list_find (λ x, x = id) ids = None ↔ id ∉ ids.
Proof.
  rewrite list_find_None, Forall_forall. split.
  - intros Hall Hin. by apply (Hall id).
  - intros Hnin x Hx ->. done.
Qed.

Lemma list_find_eq_Some (id : string) (ids : list string) i x :
  list_find (λ x, x = id) ids = Some (i, x) → x = id ∧ ids !! i = Some id ∧ id ∈ ids.
Proof.
  intros Hf. apply list_find_Some in Hf as (Hi & -> & _).
  split_and!; [done..|]. by eapply list_elem_of_lookup_2.
Qed.

Lemma moveInEventList_ids active selected dragId hoverId prev :
  itemId <$> default [] (moveInEventList active selected dragId hoverId prev !! active)
  = moveIds true selected dragId hoverId (itemId <$> default [] (prev !! active)).
Proof.
  unfold moveInEventList, moveIds.
  set (l := default [] (prev !! active)).
  pose proof (list_find_itemId dragId l) as Hd.
  pose proof (list_find_itemId hoverId l) as Hh.
  destruct (list_find (λ item : ShoppingItem, itemId item = dragId) l)
    as [[dragIndex draggedItem]|] eqn:Hdrag; simpl in Hd.
  2:{ apply list_find_None_not_elem in Hd.
      rewrite bool_decide_eq_true_2 by by left. done. }
  destruct (list_find (λ item : ShoppingItem, itemId item = hoverId) l)
    as [[hoverIndex hoverItem]|] eqn:Hhover; simpl in Hh.
  2:{ apply list_find_None_not_elem in Hh.
      rewrite bool_decide_eq_true_2 by by right. done. }
  pose proof (list_find_eq_Some _ _ _ _ Hd) as (Hdid & _ & Hdin).
  pose proof (list_find_eq_Some _ _ _ _ Hh) as (_ & _ & Hhin).
  rewrite bool_decide_eq_false_2 by (intros [?|?]; done). simpl.
  case_decide.
  - rewrite <- (fmap_filter_itemId (λ id, id ∉ selected)).
    rewrite <- (fmap_filter_itemId (λ id, id ∈ selected)).
    rewrite list_find_itemId.
    destruct (list_find _ (filter _ l)) as [[targetIndex ?]|]; simpl; [|done].
    by rewrite lookup_insert_eq, <- fmap_spliceIn.
  - rewrite Hd, Hh. simpl.
    rewrite lookup_insert_eq. cbn [from_option id].
    by rewrite fmap_spliceIn, list_fmap_delete, <- Hdid.
Qed.

Lemma moveInExecuteColumn_ids active day selected dragId hoverId prev :
  getDay day (default emptyExecuteModeItems
                (moveInExecuteColumn active day selected dragId hoverId prev !! active))
  = moveIds false selected dragId hoverId
      (getDay day (default emptyExecuteModeItems (prev !! active))).
Proof.
  unfold moveInExecuteColumn, moveIds. simpl.
  set (eventItems := default emptyExecuteModeItems (prev !! active)).
  case_decide.
  - destruct (list_find _ (filter _ _)) as [[targetIndex ?]|]; [|done].
    rewrite lookup_insert_eq. simpl. rewrite getDay_setDay. by case_decide.
  - destruct (list_find (λ id, id = dragId) _) as [[dragIndex draggedItem]|] eqn:Hdrag; [|done].
    destruct (list_find (λ id, id = hoverId) _) as [[hoverIndex ?]|]; [|done].
    apply list_find_eq_Some in Hdrag as (-> & _).
    rewrite lookup_insert_eq. simpl. rewrite getDay_setDay. by case_decide.
Qed.

(** What [handleMoveItem] never writes. *)
Lemma handleMoveItem_frame dragId hoverId targetColumn s :
  let s' := handleMoveItem dragId hoverId targetColumn s in
  activeEventName s' = activeEventName s ∧ activeTab s' = activeTab s
  ∧ dayModes s' = dayModes s ∧ selectedItemIds s' = selectedItemIds s.
Proof.
  unfold handleMoveItem. destruct (truthy (activeEventName s)) as [active|]; [|done].
  destruct (bool_decide _ && bool_decide _); [|destruct (bool_decide (_ = execute))]; done.
Qed.

Lemma moveBranch_handleMoveItem dragId hoverId targetColumn column s :
  moveBranch column (handleMoveItem dragId hoverId targetColumn s) = moveBranch column s.
Proof.
  destruct (handleMoveItem_frame dragId hoverId targetColumn s) as (Ha & Ht & Hm & _).
  unfold moveBranch, modeOf. by rewrite Ha, Ht, Hm.
Qed.

(** [handleMoveItem] acts on the reordered id sequence as [moveIds] does. *)
Lemma reorderedIds_handleMoveItem dragId hoverId targetColumn s :
  reorderedIds targetColumn (handleMoveItem dragId hoverId targetColumn s)
  = match moveBranch targetColumn s with
    | ExecuteColumnBranch _ _ =>
        moveIds false (selectedItemIds s) dragId hoverId (reorderedIds targetColumn s)
    | EventListBranch _ =>
        moveIds true (selectedItemIds s) dragId hoverId (reorderedIds targetColumn s)
    | NoMove => []
    end.
Proof.
  unfold reorderedIds. rewrite moveBranch_handleMoveItem.
  unfold moveBranch, handleMoveItem.
  destruct (truthy (activeEventName s)) as [active|]; [|done].
  destruct (bool_decide _ && bool_decide _); [|destruct (bool_decide (_ = execute))]; simpl.
  - apply moveInExecuteColumn_ids.
  - apply moveInEventList_ids.
  - done.
Qed.

(** ** Moving one item (C3) *)

Lemma move_one_positions (ids : list string) dragId hoverId i j :
  ids !! i = Some dragId → ids !! j = Some hoverId → i ≠ j →
  let ids' := spliceIn j [dragId] (delete i ids) in
  ids' = take j (delete i ids) ++ dragId :: drop j (delete i ids)
  ∧ ids' !! j = Some dragId
  ∧ (j < i → ids' !! S j = Some hoverId)
  ∧ (i < j → ids' !! (j - 1) = Some hoverId).
Proof.
  intros Hi Hj Hij ids'.
  pose proof (lookup_lt_Some _ _ _ Hi) as Hli.
  pose proof (lookup_lt_Some _ _ _ Hj) as Hlj.
  assert (Hlen : length (take j (delete i ids)) = j).
  { rewrite length_take, length_delete by eauto. lia. }
  subst ids'. unfold spliceIn. simpl. split_and!.
  - done.
  - apply list_lookup_middle. by rewrite Hlen.
  - intros Hlt. rewrite lookup_app_r by lia. rewrite Hlen.
    replace (S j - j) with 1 by lia. simpl.
    rewrite lookup_drop, Nat.add_0_r. rewrite list_lookup_delete_lt by lia. done.
  - intros Hlt. rewrite lookup_app_l by lia.
    rewrite lookup_take_lt by lia. rewrite list_lookup_delete_ge by lia.
    by replace (S (j - 1)) with j by lia.
Qed.

Lemma filter_selected_singleton (selected : gset string) dragId (ids : list string) :
  dragId ∈ selected → (size selected ≤ 1)%nat →
  filter (λ id, id ∈ selected) ids = filter (λ id, id = dragId) ids
  ∧ filter (λ id, id ∉ selected) ids = filter (λ id, id ≠ dragId) ids.
Proof.
  intros Hin Hsize.
  assert (Hall : ∀ id, id ∈ selected ↔ id = dragId).
  { intros id. split; [|by intros ->]. intros Hid.
    destruct (decide (id = dragId)) as [|Hne]; [done|].
    assert ({[id; dragId]} ⊆ selected) as Hsub
      by (apply union_subseteq; split; by apply singleton_subseteq_l).
    apply subseteq_size in Hsub. rewrite size_union, !size_singleton in Hsub by set_solver.
    lia. }
  split; apply list_filter_iff; intros id; by rewrite Hall.
Qed.

(** C3, as the code has it. Let [ids] be the id sequence a move reorders
    (the event's item ids in execute mode, the day's execute column in edit
    mode), with [dragId] first found at index [i] and a different [hoverId]
    first found at index [j]. When the selection does not contain [dragId],
    [dragId] is removed and put back at index [j], the index the target had
    before the removal: it directly precedes [hoverId] when it came from
    after it ([j < i]) and directly follows [hoverId] when it came from before
    it ([i < j]). When the selection contains [dragId] and nothing else, the
    occurrences of [dragId] are removed and put back directly before the
    first [hoverId]. *)
Theorem handleMoveItem_single s targetColumn dragId hoverId i j :
  let ids := reorderedIds targetColumn s in
  let ids' := reorderedIds targetColumn (handleMoveItem dragId hoverId targetColumn s) in
  list_find (λ id, id = dragId) ids = Some (i, dragId) →
  list_find (λ id, id = hoverId) ids = Some (j, hoverId) →
  dragId ≠ hoverId →
  (dragId ∉ selectedItemIds s →
     ids' = take j (delete i ids) ++ dragId :: drop j (delete i ids)
     ∧ ids' !! j = Some dragId
     ∧ (j < i → ids' !! S j = Some hoverId)
     ∧ (i < j → ids' !! (j - 1) = Some hoverId))
  ∧ (dragId ∈ selectedItemIds s → (size (selectedItemIds s) ≤ 1)%nat →
     ∃ before after,
       filter (λ id, id ≠ dragId) ids = before ++ hoverId :: after
       ∧ (hoverId ∉ before)
       ∧ ids' = before ++ filter (λ id, id = dragId) ids ++ hoverId :: after).
Proof.
  intros ids ids' Hdrag Hhover Hne.
  pose proof (list_find_eq_Some _ _ _ _ Hdrag) as (_ & Hi & Hdin).
  pose proof (list_find_eq_Some _ _ _ _ Hhover) as (_ & Hj & Hhin).
  assert (Hids' : ∃ guarded, ids' = moveIds guarded (selectedItemIds s) dragId hoverId ids).
  { subst ids' ids. rewrite reorderedIds_handleMoveItem.
    unfold reorderedIds in Hdin |- *. destruct (moveBranch targetColumn s); eauto.
    by apply elem_of_nil in Hdin. }
  destruct Hids' as [guarded ->]. unfold moveIds.
  rewrite bool_decide_eq_false_2, andb_false_r by (intros [?|?]; done).
  split.
  - intros Hsel. rewrite decide_False by done. rewrite Hdrag, Hhover.
    apply move_one_positions; [done..|]. intros ->. congruence.
  - intros Hsel Hsize. rewrite decide_True by done.
    destruct (filter_selected_singleton _ _ ids Hsel Hsize) as [-> ->].
    assert (Hin : hoverId ∈ filter (λ id, id ≠ dragId) ids).
    { apply list_elem_of_filter. split; [congruence|done]. }
    destruct (list_find (λ id, id = hoverId) (filter (λ id, id ≠ dragId) ids))
      as [[t x]|] eqn:Hfind.
    2:{ by apply list_find_None_not_elem in Hfind. }
    apply list_find_Some in Hfind as (Ht & -> & Hbefore).
    exists (take t (filter (λ id, id ≠ dragId) ids)),
           (drop (S t) (filter (λ id, id ≠ dragId) ids)).
    assert (Hsplit : filter (λ id, id ≠ dragId) ids
                     = take t (filter (λ id, id ≠ dragId) ids)
                       ++ hoverId :: drop (S t) (filter (λ id, id ≠ dragId) ids)).
    { by rewrite <- (take_drop_middle _ _ _ Ht) at 1. }
    split_and!.
    + done.
    + intros Hin'. apply list_elem_of_lookup in Hin' as [k Hk].
      pose proof (lookup_lt_Some _ _ _ Hk) as Hlt. rewrite length_take in Hlt.
      rewrite lookup_take_lt in Hk by lia. eapply Hbefore; [exact Hk|lia|done].
    + unfold spliceIn. do 2 f_equal. by apply drop_S.
Qed.

Lemma handleMoveItem_single_witness :
  let s := sampleState ["a"; "b"; "c"] [] ∅ execute in
  let ids' := reorderedIds None (handleMoveItem "c" "a" None s) in
  ("c" ∉ selectedItemIds s →
     ids' = take 0 (delete 2 (reorderedIds None s))
            ++ "c" :: drop 0 (delete 2 (reorderedIds None s))
     ∧ ids' !! 0 = Some "c"
     ∧ (0 < 2 → ids' !! 1 = Some "a")
     ∧ (2 < 0 → ids' !! (0 - 1) = Some "a"))
  ∧ ("c" ∈ selectedItemIds s → (size (selectedItemIds s) ≤ 1)%nat →
     ∃ before after,
       filter (λ id, id ≠ "c") (reorderedIds None s) = before ++ "a" :: after
       ∧ ("a" ∉ before)
       ∧ ids' = before ++ filter (λ id, id = "c") (reorderedIds None s) ++ "a" :: after).
Proof.
  apply (handleMoveItem_single (sampleState ["a"; "b"; "c"] [] ∅ execute) None "c" "a" 2 0).
  - reflexivity.
  - reflexivity.
  - discriminate.
Defined.

(** C3 as stated fails: dragged from above, the item lands directly after
    the target, not before it. *)
Lemma handleMoveItem_single_lands_after_target :
  let s := sampleState ["a"; "b"; "c"] [] ∅ execute in
  reorderedIds None s = ["a"; "b"; "c"]
  ∧ size (selectedItemIds s) = 0
  ∧ reorderedIds None (handleMoveItem "a" "c" None s) = ["b"; "c"; "a"].
Proof. vm_compute. done. Qed.

(** ** Moving a selected block (C4) *)





(** ** Stale ids (C9) *)

(** C9 fails in the edit-mode branch. A dragged id that is in the selection
    but neither among the items nor in the execute column still moves the
    selected ids of the column: the column [a; b; c] becomes [b; a; c]. *)
Lemma handleMoveItem_stale_drag_moves_block :
  let s := sampleState ["a"; "b"; "c"] ["a"; "b"; "c"] {["x"; "a"]} edit in
  let s' := handleMoveItem "x" "c" (Some ExecuteColumn) s in
  bool_decide ("x" ∈ itemId <$> items s) = false
  ∧ executeIdsOf s "E" = ["a"; "b"; "c"]
  ∧ executeIdsOf s' "E" = ["b"; "a"; "c"].
Proof. vm_compute. done. Qed.

Lemma moveInEventList_stale active selected dragId hoverId prev :
  dragId ∉ itemId <$> default [] (prev !! active)
  ∨ hoverId ∉ itemId <$> default [] (prev !! active) →
  moveInEventList active selected dragId hoverId prev = prev.
Proof.
  intros Hstale. unfold moveInEventList.
  pose proof (list_find_itemId dragId (default [] (prev !! active))) as Hd.
  pose proof (list_find_itemId hoverId (default [] (prev !! active))) as Hh.
  destruct (list_find (λ item : ShoppingItem, itemId item = dragId) _)
    as [[dragIndex draggedItem]|]; [|done].
  destruct (list_find (λ item : ShoppingItem, itemId item = hoverId) _)
    as [[hoverIndex hoverItem]|]; [|done].
  apply list_find_eq_Some in Hd as (_ & _ & Hd), Hh as (_ & _ & Hh). tauto.
Qed.

Lemma moveInExecuteColumn_stale active day selected dragId hoverId prev :
  let dayItems := getDay day (default emptyExecuteModeItems (prev !! active)) in
  hoverId ∉ dayItems ∨ (dragId ∉ dayItems) ∧ (dragId ∉ selected) →
  moveInExecuteColumn active day selected dragId hoverId prev = prev.
Proof.
  intros dayItems Hstale. unfold moveInExecuteColumn. fold dayItems. case_decide.
  - destruct Hstale as [Hnot|[_ ?]]; [|done].
    assert (Hrest : hoverId ∉ filter (λ id, id ∉ selected) dayItems).
    { rewrite list_elem_of_filter. tauto. }
    apply list_find_None_not_elem in Hrest. by rewrite Hrest.
  - destruct Hstale as [Hnot|[Hnot _]]; apply list_find_None_not_elem in Hnot.
    + destruct (list_find (λ id, id = dragId) dayItems) as [[? ?]|]; [|done].
      by rewrite Hnot.
    + by rewrite Hnot.
Qed.

(** A target id that is not in the reordered sequence stops every move: the
    event lists and the execute columns stay as they are. *)
Theorem handleMoveItem_stale_target s targetColumn dragId hoverId :
  let s' := handleMoveItem dragId hoverId targetColumn s in
  hoverId ∉ reorderedIds targetColumn s →
  eventLists s' = eventLists s ∧ executeModeItems s' = executeModeItems s.
Proof.
  intros s'. subst s'. unfold reorderedIds, moveBranch, handleMoveItem.
  destruct (truthy (activeEventName s)) as [active|]; [|done].
  destruct (bool_decide _ && bool_decide _); [|destruct (bool_decide (_ = execute))];
    simpl; intros Hnot.
  - split; [done|]. apply moveInExecuteColumn_stale. by left.
  - split; [|done]. apply moveInEventList_stale. by right.
  - done.
Qed.

Lemma handleMoveItem_stale_target_witness :
  let s := sampleState ["a"; "b"; "c"] ["a"; "b"] {["a"; "b"]} edit in
  let s' := handleMoveItem "a" "gone" (Some ExecuteColumn) s in
  eventLists s' = eventLists s ∧ executeModeItems s' = executeModeItems s.
Proof.
  apply (handleMoveItem_stale_target
           (sampleState ["a"; "b"; "c"] ["a"; "b"] {["a"; "b"]} edit)
           (Some ExecuteColumn) "a" "gone").
  apply (bool_decide_unpack (_ ∉ _)). vm_compute. exact I.
Defined.

(** A dragged id that is not in the reordered sequence stops the move in the
    execute-mode branch, and in the edit-mode branch when it is not selected
    either. *)
Theorem handleMoveItem_stale_drag s targetColumn dragId hoverId :
  let s' := handleMoveItem dragId hoverId targetColumn s in
  dragId ∉ reorderedIds targetColumn s →
  (dragId ∉ selectedItemIds s
   ∨ ∃ active, moveBranch targetColumn s = EventListBranch active) →
  eventLists s' = eventLists s ∧ executeModeItems s' = executeModeItems s.
Proof.
  intros s'. subst s'. unfold reorderedIds, moveBranch, handleMoveItem.
  destruct (truthy (activeEventName s)) as [active|]; [|done].
  destruct (bool_decide _ && bool_decide _); [|destruct (bool_decide (_ = execute))];
    simpl; intros Hnot Hcase.
  - split; [done|]. apply moveInExecuteColumn_stale. right.
    destruct Hcase as [?|[? [=]]]. done.
  - split; [|done]. apply moveInEventList_stale. by left.
  - done.
Qed.

Lemma handleMoveItem_stale_drag_witness :
  let s := sampleState ["a"; "b"; "c"] [] {["x"; "a"]} execute in
  let s' := handleMoveItem "x" "c" None s in
  eventLists s' = eventLists s ∧ executeModeItems s' = executeModeItems s.
Proof.
  apply (handleMoveItem_stale_drag
           (sampleState ["a"; "b"; "c"] [] {["x"; "a"]} execute) None "x" "c").
  - apply (bool_decide_unpack (_ ∉ _)). vm_compute. exact I.
  - right. exists "E". reflexivity.
Defined.

(** [handleUpdateItem] with an id that none of the event's items carries
    leaves every event list as it is and raises nothing. *)
Theorem handleUpdateItem_absent_id (updatedItem : ShoppingItem) s active items :
  truthy (activeEventName s) = Some active →
  eventLists s !! active = Some items →
  itemId updatedItem ∉ itemId <$> items →
  ∃ s', handleUpdateItem updatedItem s = Done s' ∧ eventLists s' = eventLists s.
Proof.
  intros Hactive Hitems Hnot. unfold handleUpdateItem. rewrite Hactive, Hitems.
  eexists. split; [done|]. simpl. apply insert_id. rewrite Hitems. f_equal.
  clear Hitems. induction items as [|item items IH]; [done|].
  rewrite fmap_cons in Hnot. apply not_elem_of_cons in Hnot as [Hne Hnot].
  rewrite fmap_cons, decide_False by done. f_equal. by apply IH.
Qed.

Lemma handleUpdateItem_absent_id_witness :
  ∃ s', handleUpdateItem (sampleItem "gone") (sampleState ["a"; "b"] [] ∅ edit) = Done s'
        ∧ eventLists s' = eventLists (sampleState ["a"; "b"] [] ∅ edit).
Proof.
  apply (handleUpdateItem_absent_id (sampleItem "gone") (sampleState ["a"; "b"] [] ∅ edit)
           "E" (sampleItem <$> ["a"; "b"])).
  - reflexivity.
  - reflexivity.
  - apply (bool_decide_unpack (_ ∉ _)). vm_compute. exact I.
Defined.

(** Without a list for the active event [handleUpdateItem] raises. *)
Example handleUpdateItem_without_event_list :
  handleUpdateItem (sampleItem "a")
    (mkAppState ∅ ∅ ∅ (Some "E") TabDay1 Manual None ∅ false None None)
  = TypeError.
Proof. reflexivity. Qed.

(** ** [Map] and [Set] *)

Section NewMap.

Context {K V : Type} `{Countable K}.
Implicit Types (entries : list (K * V)) (k : K) (v : V).

Lemma newMap_snoc entries k v : newMap (entries ++ [(k, v)]) = <[k := v]> (newMap entries).
Proof. unfold newMap. by rewrite foldl_snoc. Qed.

Lemma newMap_lookup_None entries k : newMap entries !! k = None ↔ k ∉ entries.*1.
Proof.
  induction entries as [|[k' v'] entries IH] using rev_ind.
  { split; [intros _; apply not_elem_of_nil|done]. }
  rewrite newMap_snoc, fmap_app, elem_of_app. simpl.
  rewrite lookup_insert_None, IH, list_elem_of_singleton.
  split; [intros [? ?] [?|?]; [done|congruence]|].
  intros Hnot. split; [tauto|]. intros ->. tauto.
Qed.

(** [get] returns the value of the last entry under the key. *)
Lemma newMap_lookup_last entries1 entries2 k v :
  k ∉ entries2.*1 → newMap (entries1 ++ (k, v) :: entries2) !! k = Some v.
Proof.
  induction entries2 as [|[k' v'] entries2 IH] using rev_ind; intros Hnot.
  - by rewrite newMap_snoc, lookup_insert_eq.
  - rewrite fmap_app, elem_of_app in Hnot. simpl in Hnot.
    rewrite app_comm_cons, app_assoc, newMap_snoc.
    rewrite lookup_insert_ne; [apply IH; tauto|].
    intros ->. apply Hnot. right. by apply list_elem_of_singleton.
Qed.

Lemma newMap_lookup_Some entries k v :
  newMap entries !! k = Some v →
  ∃ entries1 entries2, entries = entries1 ++ (k, v) :: entries2 ∧ k ∉ entries2.*1.
Proof.
  induction entries as [|[k' v'] entries IH] using rev_ind; [done|].
  rewrite newMap_snoc. intros Hlook.
  apply lookup_insert_Some in Hlook as [[-> ->]|[Hne Hlook]].
  - exists entries, []. split; [done|]. apply not_elem_of_nil.
  - destruct (IH Hlook) as (entries1 & entries2 & -> & Hnot).
    exists entries1, (entries2 ++ [(k', v')]). split; [by rewrite <- app_assoc|].
    rewrite fmap_app, elem_of_app. simpl. rewrite list_elem_of_singleton.
    intros [?|?]; [done|congruence].
Qed.

Lemma newMap_lookup_elem entries k v : newMap entries !! k = Some v → (k, v) ∈ entries.
Proof.
  intros Hlook. apply newMap_lookup_Some in Hlook as (entries1 & entries2 & -> & _).
  apply elem_of_app. right. by left.
Qed.

Lemma newMap_lookup_NoDup entries k v :
  NoDup entries.*1 → (k, v) ∈ entries → newMap entries !! k = Some v.
Proof.
  intros Hnodup Hin. apply list_elem_of_split in Hin as (entries1 & entries2 & ->).
  apply newMap_lookup_last.
  rewrite fmap_app, fmap_cons in Hnodup. simpl in Hnodup.
  apply NoDup_app in Hnodup as (_ & _ & Hnodup). by apply NoDup_cons in Hnodup as [? _].
Qed.

End NewMap.

(** The map from ids to items that [executeColumnItems] and
    [handleConfirmUpdate] build. *)
Lemma byId_keys (l : list ShoppingItem) :
  ((λ item : ShoppingItem, (itemId item, item)) <$> l).*1 = itemId <$> l.
Proof. rewrite <- list_fmap_compose. done. Qed.

Lemma byId_elem (l : list ShoppingItem) id item :
  (id, item) ∈ (λ item : ShoppingItem, (itemId item, item)) <$> l
  ↔ item ∈ l ∧ itemId item = id.
Proof.
  rewrite list_elem_of_fmap. split.
  - by intros (x & [= -> ->] & Hx).
  - intros [Hin <-]. by exists item.
Qed.

Lemma keepFirst_elem l x : x ∈ keepFirst l ↔ x ∈ l.
Proof.
  induction l as [|y l IH]; [done|]. simpl.
  rewrite !elem_of_cons, list_elem_of_filter, IH.
  destruct (decide (x = y)); tauto.
Qed.

Lemma keepFirst_NoDup l : NoDup (keepFirst l).
Proof.
  induction l as [|y l IH]; simpl; [constructor|].
  apply NoDup_cons. split; [|by apply NoDup_filter].
  rewrite list_elem_of_filter. intros [Hne _]. by apply Hne.
Qed.

Lemma keepFirst_filter (P : string → Prop) `{∀ x, Decision (P x)} l :
  filter P (keepFirst l) = keepFirst (filter P l).
Proof.
  induction l as [|y l IH]; [done|]. simpl. rewrite !filter_cons.
  destruct (decide (P y)) as [Hy|Hy]; simpl.
  - f_equal. rewrite <- IH. rewrite !list_filter_filter.
    apply list_filter_iff. intros x. tauto.
  - rewrite <- IH. rewrite list_filter_filter.
    apply list_filter_iff. intros x. split; [tauto|].
    intros Hx. split; [done|]. by intros ->.
Qed.

Lemma filter_all {A} (P : A → Prop) `{∀ x, Decision (P x)} (l : list A) :
  (∀ x, x ∈ l → P x) → filter P l = l.
Proof.
  induction l as [|y l IH]; intros Hall; [done|].
  rewrite filter_cons_True by (apply Hall; left).
  f_equal. apply IH. intros x Hx. apply Hall. by right.
Qed.

Lemma keepFirst_id l : NoDup l → keepFirst l = l.
Proof.
  induction 1 as [|x l Hx Hl IH]; [done|]. simpl. f_equal. rewrite IH.
  apply filter_all. by intros y Hy ->.
Qed.

Lemma foldl_setAdd seen l :
  foldl setAdd seen l = seen ++ keepFirst (filter (λ x, x ∉ seen) l).
Proof.
  revert seen. induction l as [|x l IH]; intros seen; simpl.
  - by rewrite app_nil_r.
  - unfold setAdd at 2. rewrite filter_cons. destruct (decide (x ∈ seen)) as [Hin|Hnot].
    + rewrite decide_False by tauto. apply IH.
    + rewrite decide_True by done. rewrite IH, <- app_assoc. simpl. do 2 f_equal.
      rewrite keepFirst_filter, list_filter_filter.
      f_equal. apply list_filter_iff. intros y.
      rewrite elem_of_app, list_elem_of_singleton. tauto.
Qed.

Lemma newSet_keepFirst l : newSet l = keepFirst l.
Proof.
  unfold newSet. rewrite foldl_setAdd. simpl. f_equal.
  apply filter_all. intros x _. apply not_elem_of_nil.
Qed.

(** ** Adding to the execute column (C8) *)

Lemma addToExecuteColumn_keepFirst dayItems itemIds :
  addToExecuteColumn dayItems itemIds
  = keepFirst dayItems ++ keepFirst (filter (λ id, id ∉ dayItems) itemIds).
Proof.
  unfold addToExecuteColumn. rewrite foldl_setAdd, newSet_keepFirst. f_equal. f_equal.
  apply list_filter_iff. intros id. by rewrite keepFirst_elem.
Qed.

Lemma executeIdsOf_handleMoveToExecuteColumn itemIds s active :
  truthy (activeEventName s) = Some active →
  executeIdsOf (handleMoveToExecuteColumn itemIds s) active
  = addToExecuteColumn (executeIdsOf s active) itemIds.
Proof.
  intros Hactive. unfold handleMoveToExecuteColumn, executeIdsOf. rewrite Hactive. simpl.
  rewrite lookup_insert_eq, getDay_setDay, decide_True by done.
  destruct (executeModeItems s !! active); [done|]. by destruct (currentDay _).
Qed.

(** C8. When the day's execute column holds no id twice,
    [handleMoveToExecuteColumn] leaves the column as a prefix of the new
    column, so every id already there keeps its position, and appends the
    given ids that were not in the column, each once, in the order of their
    first occurrence in the given list. *)
Theorem handleMoveToExecuteColumn_appends itemIds s active :
  let column := executeIdsOf s active in
  let appended := keepFirst (filter (λ id, id ∉ column) itemIds) in
  truthy (activeEventName s) = Some active →
  NoDup column →
  executeIdsOf (handleMoveToExecuteColumn itemIds s) active = column ++ appended
  ∧ NoDup appended
  ∧ (∀ id, id ∈ appended ↔ id ∈ itemIds ∧ id ∉ column)
  ∧ appended `sublist_of` itemIds.
Proof.
  intros column appended Hactive Hnodup.
  rewrite executeIdsOf_handleMoveToExecuteColumn by done.
  rewrite addToExecuteColumn_keepFirst. fold column. rewrite keepFirst_id by done.
  split_and!.
  - done.
  - apply keepFirst_NoDup.
  - intros id. subst appended. rewrite keepFirst_elem, list_elem_of_filter. tauto.
  - subst appended. rewrite <- keepFirst_filter.
    etrans; [apply sublist_filter|]. clear.
    induction itemIds as [|x l IH]; simpl; [done|].
    apply sublist_skip. etrans; [apply sublist_filter|done].
Qed.

(** After [handleMoveToExecuteColumn] the day's execute column holds no id
    twice, whatever it held before. *)
Theorem handleMoveToExecuteColumn_NoDup itemIds s active :
  truthy (activeEventName s) = Some active →
  NoDup (executeIdsOf (handleMoveToExecuteColumn itemIds s) active).
Proof.
  intros Hactive. rewrite executeIdsOf_handleMoveToExecuteColumn by done.
  rewrite addToExecuteColumn_keepFirst. apply NoDup_app. split_and!.
  - apply keepFirst_NoDup.
  - intros id Hin Hin'. rewrite keepFirst_elem in Hin.
    rewrite keepFirst_elem, list_elem_of_filter in Hin'. tauto.
  - apply keepFirst_NoDup.
Qed.

Lemma handleMoveToExecuteColumn_NoDup_witness :
  NoDup (executeIdsOf
           (handleMoveToExecuteColumn ["b"; "z"; "z"]
              (sampleState ["a"; "b"] ["a"; "a"; "b"] ∅ edit)) "E").
Proof.
  apply (handleMoveToExecuteColumn_NoDup ["b"; "z"; "z"]
           (sampleState ["a"; "b"] ["a"; "a"; "b"] ∅ edit) "E").
  reflexivity.
Defined.

Lemma handleMoveToExecuteColumn_appends_witness :
  let s := sampleState ["a"; "b"; "c"; "y"; "z"] ["a"; "b"; "c"] {["z"; "b"]} edit in
  executeIdsOf (handleMoveToExecuteColumn ["z"; "b"; "y"; "z"] s) "E"
  = executeIdsOf s "E" ++ keepFirst (filter (λ id, id ∉ executeIdsOf s "E") ["z"; "b"; "y"; "z"])
  ∧ NoDup (keepFirst (filter (λ id, id ∉ executeIdsOf s "E") ["z"; "b"; "y"; "z"]))
  ∧ (∀ id, id ∈ keepFirst (filter (λ id, id ∉ executeIdsOf s "E") ["z"; "b"; "y"; "z"])
           ↔ id ∈ ["z"; "b"; "y"; "z"] ∧ id ∉ executeIdsOf s "E")
  ∧ keepFirst (filter (λ id, id ∉ executeIdsOf s "E") ["z"; "b"; "y"; "z"])
    `sublist_of` ["z"; "b"; "y"; "z"].
Proof.
  apply (handleMoveToExecuteColumn_appends ["z"; "b"; "y"; "z"]
           (sampleState ["a"; "b"; "c"; "y"; "z"] ["a"; "b"; "c"] {["z"; "b"]} edit) "E").
  - reflexivity.
  - apply (bool_decide_unpack (NoDup _)). vm_compute. exact I.
Defined.

Example handleMoveToExecuteColumn_example :
  executeIdsOf (handleMoveToExecuteColumn ["z"; "b"; "y"; "z"]
                  (sampleState ["a"; "b"; "c"; "y"; "z"] ["a"; "b"; "c"] ∅ edit)) "E"
  = ["a"; "b"; "c"; "z"; "y"].
Proof. reflexivity. Qed.

(** ** The column projections (C10) *)




(** An item dated for the second day shows in the first day's execute
    column, and not in its candidate column. *)
Example executeColumnItems_ignores_eventDate :
  let far := mkItem "far" (mkItemData "circle" "2日目" "B" "02" "t" 0 "") StatusNone in
  let s := setEventLists (λ prev, <["E" := sampleItem "a" :: far :: [sampleItem "b"]]> prev)
             (sampleState [] ["far"; "gone"; "a"] ∅ edit) in
  executeColumnItems s = [far; sampleItem "a"]
  ∧ candidateColumnItems s = [sampleItem "b"].
Proof. vm_compute. done. Qed.

(** ** The row loop *)

Lemma parseSheet_loop sheetItems lines :
  foldl (λ sheetItems line,
           match parseRow line with
           | Some item => sheetItems ++ [item]
           | None => sheetItems
           end) sheetItems lines
  = sheetItems ++ omap parseRow lines.
Proof.
  revert sheetItems. induction lines as [|line lines IH]; intros sheetItems; simpl.
  - by rewrite app_nil_r.
  - destruct (parseRow line) as [item|]; rewrite IH; [|done].
    by rewrite <- app_assoc.
Qed.

Lemma parseSheet_omap text :
  parseSheet text = omap parseRow (drop 1 (sheetLines text)).
Proof. unfold parseSheet. by rewrite parseSheet_loop. Qed.

Example parseSheet_example :
  parseSheet sampleSheet
  = [ mkItemData "Alpha" "1日目" "E1" "01" "New" 1200 "thanks";
      mkItemData "Gamma" "2日目" "A" "12a" "" 0 "" ].
Proof. vm_compute. reflexivity. Qed.

(** ** The change-set, row by row *)

Section Keyed.

Context (key : ShoppingItem → list string).

Lemma keyed_keys l : ((λ item, (key item, item)) <$> l).*1 = key <$> l.
Proof. by rewrite <- list_fmap_compose. Qed.

Lemma keyed_None l k : keyed key l !! k = None ↔ k ∉ key <$> l.
Proof. unfold keyed. by rewrite newMap_lookup_None, keyed_keys. Qed.

(** [get] returns the last item under the key. *)
Lemma keyed_Some l k item :
  keyed key l !! k = Some item
  ↔ key item = k ∧ ∃ l1 l2, l = l1 ++ item :: l2 ∧ k ∉ key <$> l2.
Proof.
  unfold keyed. split.
  - intros Hlook. apply newMap_lookup_Some in Hlook as (e1 & e2 & Heq & Hnot).
    apply fmap_app_inv in Heq as (l1 & l2' & -> & Heq & ->). symmetry in Heq.
    apply fmap_cons_inv in Heq as (item' & l2 & [= -> ->] & -> & ->).
    split; [done|]. exists l1, l2. split; [done|]. by rewrite keyed_keys in Hnot.
  - intros [<- (l1 & l2 & -> & Hnot)]. rewrite fmap_app, fmap_cons.
    apply newMap_lookup_last. by rewrite keyed_keys.
Qed.

Lemma keyed_elem l k item : keyed key l !! k = Some item → item ∈ l ∧ key item = k.
Proof.
  intros Hlook. apply keyed_Some in Hlook as [<- (l1 & l2 & -> & _)].
  split; [|done]. apply elem_of_app. right. by left.
Qed.

(** An item under another key does not change what [get] returns. *)
Lemma keyed_skip l1 l2 item k :
  key item ≠ k → keyed key (l1 ++ item :: l2) !! k = keyed key (l1 ++ l2) !! k.
Proof.
  intros Hne. unfold keyed.
  induction l2 as [|last l2 IH] using rev_ind.
  - rewrite app_nil_r, fmap_app. simpl. rewrite newMap_snoc. by rewrite lookup_insert_ne.
  - replace (l1 ++ item :: l2 ++ [last]) with ((l1 ++ item :: l2) ++ [last])
      by (by rewrite <- app_assoc).
    replace (l1 ++ l2 ++ [last]) with ((l1 ++ l2) ++ [last]) by (by rewrite <- app_assoc).
    rewrite (fmap_app _ (l1 ++ item :: l2)), (fmap_app _ (l1 ++ l2)). simpl.
    rewrite !newMap_snoc.
    destruct (decide (key last = k)) as [<-|Hlast].
    + by rewrite !lookup_insert_eq.
    + by rewrite !lookup_insert_ne.
Qed.

End Keyed.

Lemma classifyRow_step currentItems row updates adds :
  classifyRow (byFullKey currentItems) (byLooseKey currentItems) (updates, adds) row
  = (updates ++ option_list (rowUpdate currentItems row),
     adds ++ option_list (rowAdd currentItems row)).
Proof.
  unfold classifyRow, rowUpdate, rowAdd, matched.
  destruct (byFullKey currentItems !! getItemKey row) as [existing|]; simpl.
  - case_bool_decide; simpl; by rewrite ?app_nil_r.
  - destruct (byLooseKey currentItems !! getItemKeyWithoutTitle row) as [existing|]; simpl;
      by rewrite ?app_nil_r.
Qed.

Lemma classifyRow_fold currentItems rows updates adds :
  foldl (classifyRow (byFullKey currentItems) (byLooseKey currentItems)) (updates, adds) rows
  = (updates ++ omap (rowUpdate currentItems) rows, adds ++ omap (rowAdd currentItems) rows).
Proof.
  revert updates adds. induction rows as [|row rows IH]; intros updates adds.
  - by rewrite !app_nil_r.
  - cbn [foldl]. rewrite classifyRow_step, IH, <- !app_assoc. cbn [omap list_omap].
    by destruct (rowUpdate currentItems row), (rowAdd currentItems row).
Qed.

Lemma computeUpdateData_rows currentItems rows :
  computeUpdateData currentItems rows
  = mkUpdateData
      (filter (λ item : ShoppingItem,
                 getItemKeyWithoutTitle item ∉ getItemKeyWithoutTitle <$> rows) currentItems)
      (omap (rowUpdate currentItems) rows)
      (omap (rowAdd currentItems) rows).
Proof.
  unfold computeUpdateData.
  change (newMap ((λ item : ShoppingItem, (getItemKey item, item)) <$> currentItems))
    with (byFullKey currentItems).
  change (newMap ((λ item : ShoppingItem, (getItemKeyWithoutTitle item, item)) <$> currentItems))
    with (byLooseKey currentItems).
  rewrite classifyRow_fold. simpl. f_equal.
  apply list_filter_iff. intros item.
  rewrite newMap_lookup_None, <- list_fmap_compose. done.
Qed.

Lemma getItemKey_loose (a b : ItemData) :
  getItemKey a = getItemKey b
  ↔ getItemKeyWithoutTitle a = getItemKeyWithoutTitle b ∧ title a = title b.
Proof.
  unfold getItemKey, getItemKeyWithoutTitle.
  split; [intros [=]|intros [[=] ?]]; [split|]; congruence.
Qed.

Lemma withTitlePriceRemarks_loose (existing : ShoppingItem) (row : ItemData) :
  getItemKeyWithoutTitle (withTitlePriceRemarks existing row) = getItemKeyWithoutTitle existing.
Proof. done. Qed.

Lemma withTitlePriceRemarks_full (existing : ShoppingItem) (row : ItemData) :
  getItemKeyWithoutTitle existing = getItemKeyWithoutTitle row →
  getItemKey (withTitlePriceRemarks existing row) = getItemKey row.
Proof. intros Hloose. apply getItemKey_loose. done. Qed.

(** Replacing a title by itself: the two update shapes agree on a full-key
    match, and an update that changes nothing is the item itself. *)
Lemma withPriceRemarks_full (existing : ShoppingItem) (row : ItemData) :
  title (itemData existing) = title row →
  withPriceRemarks existing row = withTitlePriceRemarks existing row.
Proof. unfold withPriceRemarks, withTitlePriceRemarks. by intros ->. Qed.

Lemma withTitlePriceRemarks_same (existing : ShoppingItem) (row : ItemData) :
  title existing = title row → price existing = price row → remarks existing = remarks row →
  withTitlePriceRemarks existing row = existing.
Proof.
  destruct existing as [id [] status]. unfold withTitlePriceRemarks. simpl.
  by intros <- <- <-.
Qed.


Lemma NoDup_itemId_inj (l : list ShoppingItem) (a b : ShoppingItem) :
  NoDup (itemId <$> l) → a ∈ l → b ∈ l → itemId a = itemId b → a = b.
Proof.
  induction l as [|x l IH]; [by intros _ ?%elem_of_nil|].
  rewrite fmap_cons, NoDup_cons. intros [Hx Hl] Ha Hb Hid.
  apply elem_of_cons in Ha as [->|Ha], Hb as [->|Hb]; [done| | |by apply IH].
  - destruct Hx. rewrite Hid. by apply list_elem_of_fmap_2.
  - destruct Hx. rewrite <- Hid. by apply list_elem_of_fmap_2.
Qed.

Lemma filter_none {A} (P : A → Prop) `{∀ x, Decision (P x)} (l : list A) :
  (∀ x, x ∈ l → ¬ P x) → filter P l = [].
Proof.
  induction l as [|y l IH]; intros Hall; [done|].
  rewrite filter_cons_False by (apply Hall; left).
  apply IH. intros x Hx. apply Hall. by right.
Qed.

Lemma matched_elem currentItems row existing :
  matched currentItems row = Some existing →
  existing ∈ currentItems
  ∧ getItemKeyWithoutTitle existing = getItemKeyWithoutTitle row.
Proof.
  unfold matched.
  destruct (byFullKey currentItems !! getItemKey row) as [e|] eqn:Hfull.
  - intros [= ->]. apply keyed_elem in Hfull as [Hin Hkey].
    split; [done|]. by apply getItemKey_loose in Hkey as [? _].
  - intros Hloose. by apply keyed_elem in Hloose.
Qed.

(** Every pushed update is the matched item with the row's title, price and
    remarks; a matched item that pushes none already carries them. *)
Lemma rowUpdate_matched currentItems row :
  match matched currentItems row with
  | Some existing =>
      rowUpdate currentItems row = Some (withTitlePriceRemarks existing row)
      ∨ (rowUpdate currentItems row = None ∧ withTitlePriceRemarks existing row = existing)
  | None => rowUpdate currentItems row = None
  end.
Proof.
  unfold matched, rowUpdate.
  destruct (byFullKey currentItems !! getItemKey row) as [e|] eqn:Hfull.
  - apply keyed_elem in Hfull as [_ Hkey].
    apply getItemKey_loose in Hkey as [_ Htitle].
    case_bool_decide as Hdiff.
    + left. by rewrite withPriceRemarks_full.
    + right. split; [done|]. apply withTitlePriceRemarks_same; [done|..].
      * destruct (decide (price e = price row)); [done|]. destruct Hdiff. by left.
      * destruct (decide (remarks e = remarks row)); [done|]. destruct Hdiff. by right.
  - destruct (byLooseKey currentItems !! getItemKeyWithoutTitle row) as [e|]; simpl;
      [by left|done].
Qed.

Lemma rowUpdate_Some currentItems row update :
  rowUpdate currentItems row = Some update →
  ∃ existing, matched currentItems row = Some existing
              ∧ update = withTitlePriceRemarks existing row.
Proof.
  intros Hupdate. pose proof (rowUpdate_matched currentItems row) as Hm.
  destruct (matched currentItems row) as [existing|]; [|congruence].
  exists existing. split; [done|]. destruct Hm as [Hm|[Hm _]]; congruence.
Qed.

Lemma rowAdd_Some currentItems row added :
  rowAdd currentItems row = Some added → added = row ∧ matched currentItems row = None.
Proof. unfold rowAdd. destruct (matched currentItems row); [done|]. by intros [= ->]. Qed.

(** ** A changed title is one update (C5) *)




Example title_change_example :
  computeUpdateData [oldItem] [newRow]
  = mkUpdateData []
      [mkItem "id-1" (mkItemData "A" "1" "E1" "01" "New" 600 "signed") Purchased] [].
Proof. vm_compute. reflexivity. Qed.

(** ** Sorted insertion and confirmation (C2) *)

Section ConfirmFacts.

Variable compareItems : ItemData → ItemData → Z.
Variable uuid : nat → string.

Lemma insertItemSorted_split items newItem :
  ∃ l1 l2, items = l1 ++ l2 ∧ insertItemSorted compareItems items newItem = l1 ++ newItem :: l2.
Proof.
  induction items as [|item rest IH]; simpl.
  - by exists [], [].
  - case_decide.
    + destruct IH as (l1 & l2 & -> & ->). by exists (item :: l1), l2.
    + by exists [], (item :: rest).
Qed.

Lemma foldl_insertItemSorted_Permutation items newItems :
  foldl (insertItemSorted compareItems) items newItems ≡ₚ items ++ newItems.
Proof.
  revert items. induction newItems as [|newItem newItems IH]; intros items; simpl.
  - by rewrite app_nil_r.
  - rewrite IH. destruct (insertItemSorted_split items newItem) as (l1 & l2 & -> & ->).
    rewrite <- !app_assoc. f_equiv. simpl.
    by rewrite (Permutation_middle l2 newItems newItem).
Qed.

Lemma foldl_insertItemSorted_sublist items newItems :
  items `sublist_of` foldl (insertItemSorted compareItems) items newItems.
Proof.
  revert items. induction newItems as [|newItem newItems IH]; intros items; simpl; [done|].
  etrans; [|apply IH].
  destruct (insertItemSorted_split items newItem) as (l1 & l2 & -> & ->).
  apply sublist_app; [done|]. by apply sublist_cons.
Qed.

(** Inserting items under other keys does not change what [get] returns. *)
Lemma keyed_foldl_insertItemSorted key items newItems k :
  Forall (λ newItem, key newItem ≠ k) newItems →
  keyed key (foldl (insertItemSorted compareItems) items newItems) !! k = keyed key items !! k.
Proof.
  revert items. induction newItems as [|newItem newItems IH]; intros items Hall; [done|].
  apply Forall_cons in Hall as [Hne Hall]. simpl. rewrite IH by done.
  destruct (insertItemSorted_split items newItem) as (l1 & l2 & -> & ->).
  by apply keyed_skip.
Qed.

Lemma applyUpdateData_steps d items :
  applyUpdateData compareItems uuid d items
  = foldl (insertItemSorted compareItems) (updatedItem d <$> survivors d items) (addedItems uuid d).
Proof.
  unfold applyUpdateData, survivors, updatedItem, addedItems. do 2 f_equal.
  apply list_filter_iff. intros item. by rewrite elem_of_list_to_set.
Qed.

Lemma pruneExecuteModeItems_lookup eventName d prev other :
  pruneExecuteModeItems eventName d prev !! other
  = if decide (other = eventName)
    then (λ eventItems,
            mkExecuteModeItems
              (filter (λ id, id ∉ itemId <$> itemsToDelete d) (exec_day1 eventItems))
              (filter (λ id, id ∉ itemId <$> itemsToDelete d) (exec_day2 eventItems)))
           <$> prev !! eventName
    else prev !! other.
Proof.
  unfold pruneExecuteModeItems.
  assert (Hfilter : ∀ l : list string,
            filter (λ id, id ∉ (list_to_set (itemId <$> itemsToDelete d) : gset string)) l
            = filter (λ id, id ∉ itemId <$> itemsToDelete d) l).
  { intros l. apply list_filter_iff. intros id. by rewrite elem_of_list_to_set. }
  destruct (prev !! eventName) as [eventItems|] eqn:Hlook; case_decide; subst.
  - by rewrite lookup_insert_eq, !Hfilter.
  - by rewrite lookup_insert_ne.
  - by rewrite Hlook.
  - done.
Qed.

(** C2, as the code has it. Without a pending change-set or event name
    [handleConfirmUpdate] changes nothing. With both, it always applies the
    three steps to the event's list, read as empty when the event is absent:
    the event's list afterwards holds the surviving items, updated by id and
    in their old order, together with the added items; the event's execute
    columns lose the deleted ids when the event has execute columns; other
    events are untouched and the pending change-set is cleared. *)
Theorem handleConfirmUpdate_applies s :
  let s' := handleConfirmUpdate compareItems uuid s in
  match updateData s, truthy (updateEventName s) with
  | Some d, Some eventName =>
      let updated := updatedItem d <$> survivors d (default [] (eventLists s !! eventName)) in
      (∃ items', eventLists s' !! eventName = Some items'
                 ∧ items' ≡ₚ updated ++ addedItems uuid d
                 ∧ updated `sublist_of` items')
      ∧ (∀ other, other ≠ eventName → eventLists s' !! other = eventLists s !! other)
      ∧ executeModeItems s' !! eventName
        = (λ eventItems,
             mkExecuteModeItems
               (filter (λ id, id ∉ itemId <$> itemsToDelete d) (exec_day1 eventItems))
               (filter (λ id, id ∉ itemId <$> itemsToDelete d) (exec_day2 eventItems)))
            <$> executeModeItems s !! eventName
      ∧ (∀ other, other ≠ eventName →
           executeModeItems s' !! other = executeModeItems s !! other)
      ∧ updateData s' = None ∧ updateEventName s' = None
  | _, _ => s' = s
  end.
Proof.
  unfold handleConfirmUpdate.
  destruct (updateData s) as [d|]; [|done].
  destruct (truthy (updateEventName s)) as [eventName|]; [|done].
  simpl. split_and!; try done.
  - eexists. split; [apply lookup_insert_eq|]. rewrite applyUpdateData_steps. split.
    + apply foldl_insertItemSorted_Permutation.
    + apply foldl_insertItemSorted_sublist.
  - intros other Hne. by rewrite lookup_insert_ne.
  - rewrite pruneExecuteModeItems_lookup. by rewrite decide_True.
  - intros other Hne. rewrite pruneExecuteModeItems_lookup. by rewrite decide_False.
Qed.

End ConfirmFacts.

(** C2 as stated fails: confirming for an event that is no longer in the
    store brings the event back, holding the added items. *)
Lemma handleConfirmUpdate_recreates_event :
  eventLists afterEventDeleted !! "E" = None
  ∧ eventLists (handleConfirmUpdate compareByCodeUnit sampleUuid afterEventDeleted) !! "E"
    = Some [mkItem "new-" newRow StatusNone].
Proof. vm_compute. done. Qed.

Example handleConfirmUpdate_example :
  let a := mkItem "a" (mkItemData "X" "1" "A" "01" "T1" 500 "") Purchased in
  let b := mkItem "b" (mkItemData "Y" "1" "C" "01" "T2" 300 "") StatusNone in
  let c := mkItem "c" (mkItemData "Z" "1" "D" "05" "T3" 100 "") Late in
  let fresh := mkItemData "W" "1" "B" "07" "T4" 200 "" in
  let s := mkAppState {[ "E" := [a; b; c] ]} {[ "E" := mkExecuteModeItems ["c"; "a"] ["c"] ]}
             ∅ (Some "E") TabDay1 Manual None ∅ true
             (Some (mkUpdateData [c] [withPriceRemarks a (mkItemData "" "" "" "" "" 600 "")]
                      [fresh]))
             (Some "E") in
  let s' := handleConfirmUpdate compareByCodeUnit sampleUuid s in
  eventLists s' !! "E"
  = Some [withPriceRemarks a (mkItemData "" "" "" "" "" 600 "");
          mkItem "new-" fresh StatusNone; b]
  ∧ executeModeItems s' !! "E" = Some (mkExecuteModeItems ["a"] []).
Proof. vm_compute. done. Qed.

(** ** Reconciling again after a confirm (C1) *)

Lemma omap_none {A B} (f : A → option B) (l : list A) :
  (∀ x, x ∈ l → f x = None) → omap f l = [].
Proof.
  induction l as [|y l IH]; intros Hall; [done|].
  cbn [omap list_omap]. rewrite (Hall y) by left.
  apply IH. intros x Hx. apply Hall. by right.
Qed.

(** The matched item is the last current item under the row's full key, or,
    when there is none, the last under its loose key: no item after it
    carries the row's full key. *)
Lemma matched_split currentItems row existing :
  matched currentItems row = Some existing →
  ∃ l1 l2, currentItems = l1 ++ existing :: l2
           ∧ ∀ later : ShoppingItem, later ∈ l2 → getItemKey later ≠ getItemKey row.
Proof.
  unfold matched.
  destruct (byFullKey currentItems !! getItemKey row) as [e|] eqn:Hfull.
  - intros [= ->]. apply keyed_Some in Hfull as [_ (l1 & l2 & -> & Hnot)].
    exists l1, l2. split; [done|]. intros later Hin Hkey. apply Hnot.
    rewrite <- Hkey. by apply (list_elem_of_fmap_2 fullKeyOf).
  - intros Hloose. apply keyed_None in Hfull.
    apply keyed_Some in Hloose as [_ (l1 & l2 & -> & _)].
    exists l1, l2. split; [done|]. intros later Hin Hkey. apply Hfull.
    rewrite <- Hkey. apply (list_elem_of_fmap_2 fullKeyOf).
    apply elem_of_app. right. by right.
Qed.

Lemma matched_ext currentItems (row row' : ItemData) :
  getItemKey row = getItemKey row' → matched currentItems row = matched currentItems row'.
Proof.
  intros Hfull. unfold matched. rewrite Hfull.
  apply getItemKey_loose in Hfull as [Hloose _]. by rewrite Hloose.
Qed.

Lemma matched_None currentItems row :
  matched currentItems row = None →
  ∀ item : ShoppingItem, item ∈ currentItems →
    getItemKeyWithoutTitle item ≠ getItemKeyWithoutTitle row.
Proof.
  unfold matched. destruct (byFullKey currentItems !! getItemKey row); [done|].
  intros Hloose item Hin Hkey. apply keyed_None in Hloose. apply Hloose.
  rewrite <- Hkey. by apply (list_elem_of_fmap_2 looseKeyOf).
Qed.

Section Idempotence.

Variable compareItems : ItemData → ItemData → Z.
Variable uuid : nat → string.
Variable currentItems : list ShoppingItem.
Variable rows : list ItemData.

Hypothesis Hids : NoDup (itemId <$> currentItems).

(** Two fetched rows that are matched with the same current item are the
    same row, and so are two fetched rows with one full key that are matched
    with none. *)
Hypothesis Hsame :
  ∀ (r1 r2 : ItemData) (existing : ShoppingItem), r1 ∈ rows → r2 ∈ rows →
    matched currentItems r1 = Some existing → matched currentItems r2 = Some existing →
    r1 = r2.
Hypothesis Hnew :
  ∀ r1 r2 : ItemData, r1 ∈ rows → r2 ∈ rows →
    matched currentItems r1 = None → matched currentItems r2 = None →
    getItemKey r1 = getItemKey r2 → r1 = r2.

Let d : UpdateData := computeUpdateData currentItems rows.
Let confirmed : list ShoppingItem := applyUpdateData compareItems uuid d currentItems.

Lemma itemsToUpdate_elem update :
  update ∈ itemsToUpdate d →
  ∃ row existing, row ∈ rows ∧ matched currentItems row = Some existing
                  ∧ update = withTitlePriceRemarks existing row.
Proof.
  subst d. rewrite computeUpdateData_rows. simpl. intros Hin.
  apply list_elem_of_omap in Hin as (row & Hrow & Hup).
  apply rowUpdate_Some in Hup as (existing & Hm & ->). eauto.
Qed.

Lemma itemsToAdd_elem added :
  added ∈ itemsToAdd d ↔ added ∈ rows ∧ matched currentItems added = None.
Proof.
  subst d. rewrite computeUpdateData_rows. simpl. rewrite list_elem_of_omap. split.
  - intros (row & Hrow & Hadd). apply rowAdd_Some in Hadd as [-> Hm]. done.
  - intros [Hrow Hm]. exists added. split; [done|]. unfold rowAdd. by rewrite Hm.
Qed.

Lemma survivors_elem (item : ShoppingItem) :
  item ∈ survivors d currentItems
  ↔ item ∈ currentItems ∧ getItemKeyWithoutTitle item ∈ getItemKeyWithoutTitle <$> rows.
Proof.
  unfold survivors. rewrite list_elem_of_filter.
  subst d. rewrite computeUpdateData_rows. simpl. split.
  - intros [Hnot Hin]. split; [done|].
    destruct (decide (getItemKeyWithoutTitle item ∈ getItemKeyWithoutTitle <$> rows));
      [done|].
    destruct Hnot. apply list_elem_of_fmap_2. by apply list_elem_of_filter.
  - intros [Hin Hkey]. split; [|done]. intros Hid.
    apply list_elem_of_fmap in Hid as (deleted & Hid & Hdel).
    apply list_elem_of_filter in Hdel as [Hnot Hdel].
    assert (deleted = item) as -> by by eapply NoDup_itemId_inj.
    done.
Qed.

(** An item is updated only by the row it is matched with. *)
Lemma updatedItem_cases (item : ShoppingItem) :
  item ∈ currentItems →
  ((itemId item ∉ itemId <$> itemsToUpdate d) ∧ updatedItem d item = item)
  ∨ ∃ row, row ∈ rows ∧ matched currentItems row = Some item
           ∧ updatedItem d item = withTitlePriceRemarks item row.
Proof.
  intros Hin. unfold updatedItem.
  destruct (newMap _ !! itemId item) as [update|] eqn:Hlook; simpl.
  - right. apply newMap_lookup_elem, byId_elem in Hlook as [Hup Hid].
    apply itemsToUpdate_elem in Hup as (row & existing & Hrow & Hm & ->).
    pose proof (matched_elem _ _ _ Hm) as [Hex _].
    assert (existing = item) as -> by by eapply NoDup_itemId_inj.
    eauto.
  - left. apply newMap_lookup_None in Hlook. by rewrite byId_keys in Hlook.
Qed.

Lemma updatedItem_matched row existing :
  row ∈ rows → matched currentItems row = Some existing →
  updatedItem d existing = withTitlePriceRemarks existing row.
Proof.
  intros Hrow Hm. pose proof (matched_elem _ _ _ Hm) as [Hin Hkey].
  destruct (updatedItem_cases existing Hin) as [[Hnot ->]|(row' & Hrow' & Hm' & ->)].
  - pose proof (rowUpdate_matched currentItems row) as Hup. rewrite Hm in Hup.
    destruct Hup as [Hup|[_ Hunchanged]]; [|done].
    destruct Hnot. subst d. rewrite computeUpdateData_rows. simpl.
    apply (list_elem_of_fmap_2' _ _ (withTitlePriceRemarks existing row)); [|done].
    apply list_elem_of_omap. eauto.
  - by rewrite (Hsame row' row existing).
Qed.

Lemma updatedItem_loose (item : ShoppingItem) :
  item ∈ currentItems →
  getItemKeyWithoutTitle (updatedItem d item) = getItemKeyWithoutTitle item.
Proof.
  intros Hin. by destruct (updatedItem_cases item Hin) as [[_ ->]|(row & _ & _ & ->)].
Qed.

Lemma addedItems_elem (item : ShoppingItem) :
  item ∈ addedItems uuid d →
  (itemData item) ∈ rows ∧ matched currentItems (itemData item) = None.
Proof.
  unfold addedItems. intros Hin.
  apply elem_of_lookup_imap in Hin as (k & added & -> & Hk).
  apply itemsToAdd_elem. by eapply list_elem_of_lookup_2.
Qed.

Lemma confirmed_Permutation :
  confirmed ≡ₚ (updatedItem d <$> survivors d currentItems) ++ addedItems uuid d.
Proof.
  subst confirmed. rewrite applyUpdateData_steps.
  apply foldl_insertItemSorted_Permutation.
Qed.

(** Every item after the confirm is a kept item, updated, or a fetched row
    that matched nothing. *)
Lemma confirmed_elem (item : ShoppingItem) :
  item ∈ confirmed →
  (∃ kept : ShoppingItem,
     kept ∈ currentItems
     ∧ getItemKeyWithoutTitle kept ∈ getItemKeyWithoutTitle <$> rows
     ∧ item = updatedItem d kept)
  ∨ ((itemData item) ∈ rows ∧ matched currentItems (itemData item) = None).
Proof.
  rewrite confirmed_Permutation, elem_of_app. intros [Hin|Hin].
  - left. apply list_elem_of_fmap in Hin as (kept & -> & Hkept).
    apply survivors_elem in Hkept as [? ?]. eauto.
  - right. by apply addedItems_elem.
Qed.

Lemma confirmed_lookup_matched row existing :
  row ∈ rows → matched currentItems row = Some existing →
  byFullKey confirmed !! getItemKey row = Some (withTitlePriceRemarks existing row).
Proof.
  intros Hrow Hm. pose proof (matched_elem _ _ _ Hm) as [Hin Hkey].
  subst confirmed. rewrite applyUpdateData_steps. unfold byFullKey.
  rewrite keyed_foldl_insertItemSorted.
  2:{ apply Forall_forall. intros added Hadded Hfull.
      apply addedItems_elem in Hadded as [Hadded Hnone].
      pose proof (matched_ext currentItems _ _ Hfull) as Hext. congruence. }
  apply keyed_Some. split; [by apply withTitlePriceRemarks_full|].
  destruct (matched_split _ _ _ Hm) as (l1 & l2 & Hsplit & Hlater).
  assert (Hkept : existing ∈ survivors d currentItems).
  { apply survivors_elem. split; [done|]. rewrite Hkey. by apply list_elem_of_fmap_2. }
  unfold survivors in Hkept |- *. apply list_elem_of_filter in Hkept as [Hkept _].
  rewrite Hsplit, filter_app, filter_cons_True, fmap_app, fmap_cons by done.
  rewrite (updatedItem_matched row) by done.
  eexists _, _. split; [done|].
  intros Hfull. apply list_elem_of_fmap in Hfull as (updated & Hfull & Hupdated).
  apply list_elem_of_fmap in Hupdated as (later & -> & Hl2).
  apply list_elem_of_filter in Hl2 as [_ Hl2].
  assert (Hcur : later ∈ currentItems).
  { rewrite Hsplit. apply elem_of_app. right. by right. }
  unfold fullKeyOf in Hfull.
  destruct (updatedItem_cases later Hcur) as [[_ Heq]|(row' & Hrow' & Hm' & Heq)];
    rewrite Heq in Hfull.
  - by apply (Hlater later).
  - pose proof (matched_elem _ _ _ Hm') as [_ Hkey'].
    rewrite (withTitlePriceRemarks_full later row' Hkey') in Hfull.
    pose proof (matched_ext currentItems _ _ Hfull) as Hext.
    assert (later = existing) as -> by congruence.
    rewrite Hsplit, fmap_app, fmap_cons in Hids.
    apply NoDup_app in Hids as (_ & _ & Hnodup). apply NoDup_cons in Hnodup as [Hnot _].
    apply Hnot. by apply list_elem_of_fmap_2.
Qed.

Lemma confirmed_lookup_added row :
  row ∈ rows → matched currentItems row = None →
  ∃ item : ShoppingItem,
    byFullKey confirmed !! getItemKey row = Some item ∧ itemData item = row.
Proof.
  intros Hrow Hm.
  assert (Hadded : row ∈ itemsToAdd d) by by apply itemsToAdd_elem.
  apply list_elem_of_lookup in Hadded as [k Hk].
  assert (Hin : mkItem (uuid k) row StatusNone ∈ confirmed).
  { rewrite confirmed_Permutation. apply elem_of_app. right.
    by apply (elem_of_lookup_imap_2 (λ k itemData, mkItem (uuid k) itemData StatusNone)). }
  destruct (byFullKey confirmed !! getItemKey row) as [item|] eqn:Hlook.
  - exists item. split; [done|].
    apply keyed_elem in Hlook as [Hitem Hfull]. unfold fullKeyOf in Hfull.
    apply confirmed_elem in Hitem as [(kept & Hkept & _ & ->)|[Hitem Hnone]].
    + apply getItemKey_loose in Hfull as [Hloose _].
      rewrite updatedItem_loose in Hloose by done.
      by destruct (matched_None _ _ Hm kept).
    + by apply Hnew.
  - apply keyed_None in Hlook. destruct Hlook.
    by apply (list_elem_of_fmap_2 fullKeyOf) in Hin.
Qed.

(** After the confirm every fetched row finds, under its full key, an item
    with its price and remarks. *)
Lemma confirmed_lookup row :
  row ∈ rows →
  ∃ item : ShoppingItem,
    byFullKey confirmed !! getItemKey row = Some item
    ∧ price item = price row ∧ remarks item = remarks row.
Proof.
  intros Hrow. destruct (matched currentItems row) as [existing|] eqn:Hm.
  - eexists. split; [by apply confirmed_lookup_matched|done].
  - destruct (confirmed_lookup_added row Hrow Hm) as (item & Hlook & <-). eauto.
Qed.

Lemma computeUpdateData_confirmed :
  computeUpdateData confirmed rows = mkUpdateData [] [] [].
Proof.
  rewrite computeUpdateData_rows. f_equal.
  - apply filter_none. intros item Hin Hnot. apply Hnot.
    apply confirmed_elem in Hin as [(kept & Hkept & Hkey & ->)|[Hrow _]].
    + by rewrite updatedItem_loose.
    + by apply (list_elem_of_fmap_2 getItemKeyWithoutTitle) in Hrow.
  - apply omap_none. intros row Hrow.
    destruct (confirmed_lookup row Hrow) as (item & Hlook & Hprice & Hremarks).
    unfold rowUpdate. rewrite Hlook. rewrite bool_decide_eq_false_2; [done|].
    intros [?|?]; done.
  - apply omap_none. intros row Hrow.
    destruct (confirmed_lookup row Hrow) as (item & Hlook & _).
    unfold rowAdd, matched. by rewrite Hlook.
Qed.

End Idempotence.

Lemma truthy_Some (name : string) : name ≠ "" → truthy (Some name) = Some name.
Proof. by destruct name. Qed.

Lemma handleUpdateEvent_updateData eventName text s :
  updateData (handleUpdateEvent eventName text s)
  = Some (computeUpdateData (default [] (eventLists s !! eventName)) (parseSheet text)).
Proof. done. Qed.

Lemma handleConfirmUpdate_eventLists compareItems uuid s d eventName :
  updateData s = Some d → truthy (updateEventName s) = Some eventName →
  eventLists (handleConfirmUpdate compareItems uuid s)
  = <[eventName := applyUpdateData compareItems uuid d (default [] (eventLists s !! eventName))]>
      (eventLists s).
Proof. intros Hd Hname. unfold handleConfirmUpdate. by rewrite Hd, Hname. Qed.

(** C1, as the code has it. Let the event's items have pairwise different
    ids and the event name be non-empty. A fetched row is matched with the
    last current item under its full key or, without one, with the last
    current item under its loose key. If no two different fetched rows are
    matched with the same item, and no two different fetched rows that are
    matched with none share a full key, then [handleUpdateEvent],
    [handleConfirmUpdate] and [handleUpdateEvent] again on the same sheet end
    with the empty change-set. *)
Theorem reconcile_after_confirm_is_empty compareItems uuid eventName text s :
  let currentItems := default [] (eventLists s !! eventName) in
  let rows := parseSheet text in
  let s1 := handleUpdateEvent eventName text s in
  let s2 := handleConfirmUpdate compareItems uuid s1 in
  let s3 := handleUpdateEvent eventName text s2 in
  eventName ≠ "" →
  NoDup (itemId <$> currentItems) →
  (∀ (r1 r2 : ItemData) (existing : ShoppingItem), r1 ∈ rows → r2 ∈ rows →
     matched currentItems r1 = Some existing → matched currentItems r2 = Some existing →
     r1 = r2) →
  (∀ r1 r2 : ItemData, r1 ∈ rows → r2 ∈ rows →
     matched currentItems r1 = None → matched currentItems r2 = None →
     getItemKey r1 = getItemKey r2 → r1 = r2) →
  updateData s3 = Some (mkUpdateData [] [] []).
Proof.
  intros currentItems rows s1 s2 s3 Hname Hids Hsame Hnew. subst s3 s2.
  rewrite handleUpdateEvent_updateData. f_equal.
  rewrite (handleConfirmUpdate_eventLists _ _ s1 _ eventName (handleUpdateEvent_updateData _ _ _))
    by by apply truthy_Some.
  rewrite lookup_insert_eq. by apply computeUpdateData_confirmed.
Qed.

(** The same when no two fetched rows share a circle, event date, block and
    number, unless they are the same row. *)
Theorem reconcile_after_confirm_one_row_per_place compareItems uuid eventName text s :
  let s1 := handleUpdateEvent eventName text s in
  let s2 := handleConfirmUpdate compareItems uuid s1 in
  let s3 := handleUpdateEvent eventName text s2 in
  eventName ≠ "" →
  NoDup (itemId <$> default [] (eventLists s !! eventName)) →
  (∀ r1 r2 : ItemData, r1 ∈ parseSheet text → r2 ∈ parseSheet text →
     getItemKeyWithoutTitle r1 = getItemKeyWithoutTitle r2 → r1 = r2) →
  updateData s3 = Some (mkUpdateData [] [] []).
Proof.
  intros s1 s2 s3 Hname Hids Hrows. subst s3 s2.
  rewrite handleUpdateEvent_updateData. f_equal.
  rewrite (handleConfirmUpdate_eventLists _ _ s1 _ eventName (handleUpdateEvent_updateData _ _ _))
    by by apply truthy_Some.
  rewrite lookup_insert_eq. apply computeUpdateData_confirmed; [done|..].
  - intros r1 r2 existing H1 H2 Hm1 Hm2. apply Hrows; [done..|].
    apply matched_elem in Hm1 as [_ Hk1], Hm2 as [_ Hk2]. congruence.
  - intros r1 r2 H1 H2 _ _ Hfull. apply Hrows; [done..|].
    by apply getItemKey_loose in Hfull as [? _].
Qed.

Lemma reconcile_after_confirm_is_empty_witness :
  updateData
    (handleUpdateEvent "E" syncSheet
       (handleConfirmUpdate compareByCodeUnit sampleUuid
          (handleUpdateEvent "E" syncSheet syncState)))
  = Some (mkUpdateData [] [] []).
Proof.
  apply (reconcile_after_confirm_is_empty compareByCodeUnit sampleUuid "E" syncSheet syncState).
  - discriminate.
  - apply (bool_decide_unpack (NoDup _)). vm_compute. exact I.
  - intros r1 r2 existing H1 H2 Hm1 Hm2.
    assert (Hall : Forall (λ r1 : ItemData, Forall (λ r2 : ItemData,
                     matched (default [] (eventLists syncState !! "E")) r1
                     = matched (default [] (eventLists syncState !! "E")) r2 →
                     matched (default [] (eventLists syncState !! "E")) r1 = None ∨ r1 = r2)
                     (parseSheet syncSheet)) (parseSheet syncSheet)).
    { apply (bool_decide_unpack (Forall _ _)). vm_compute. exact I. }
    rewrite Forall_forall in Hall. specialize (Hall r1 H1).
    rewrite Forall_forall in Hall. specialize (Hall r2 H2).
    destruct Hall as [Hnone|Heq]; [congruence|congruence|exact Heq].
  - intros r1 r2 H1 H2 _ _ Hfull.
    assert (Hall : Forall (λ r1 : ItemData, Forall (λ r2 : ItemData,
                     getItemKey r1 = getItemKey r2 → r1 = r2)
                     (parseSheet syncSheet)) (parseSheet syncSheet)).
    { apply (bool_decide_unpack (Forall _ _)). vm_compute. exact I. }
    rewrite Forall_forall in Hall. specialize (Hall r1 H1).
    rewrite Forall_forall in Hall. exact (Hall r2 H2 Hfull).
Defined.

Lemma reconcile_after_confirm_one_row_per_place_witness :
  updateData
    (handleUpdateEvent "E" sampleSheet
       (handleConfirmUpdate compareByCodeUnit sampleUuid
          (handleUpdateEvent "E" sampleSheet syncState)))
  = Some (mkUpdateData [] [] []).
Proof.
  apply (reconcile_after_confirm_one_row_per_place compareByCodeUnit sampleUuid "E"
           sampleSheet syncState).
  - discriminate.
  - apply (bool_decide_unpack (NoDup _)). vm_compute. exact I.
  - intros r1 r2 H1 H2.
    assert (Hall : Forall (λ r1 : ItemData, Forall (λ r2 : ItemData,
                     getItemKeyWithoutTitle r1 = getItemKeyWithoutTitle r2 → r1 = r2)
                     (parseSheet sampleSheet)) (parseSheet sampleSheet)).
    { apply (bool_decide_unpack (Forall _ _)). vm_compute. exact I. }
    rewrite Forall_forall in Hall. specialize (Hall r1 H1).
    rewrite Forall_forall in Hall. exact (Hall r2 H2).
Defined.

Example reconcile_example :
  updateData (handleUpdateEvent "E" syncSheet syncState)
  = Some (mkUpdateData
            [mkItem "id-3" (mkItemData "D" "1" "F" "09" "Gone" 100 "") Late]
            [mkItem "id-1" (mkItemData "A" "1" "E1" "01" "New" 600 "signed") Purchased;
             mkItem "id-4" (mkItemData "B" "1" "E2" "03" "Sequel" 450 "") Postpone]
            [mkItemData "C" "2" "A" "10" "Fresh" 250 ""])
  ∧ eventLists (handleConfirmUpdate compareByCodeUnit sampleUuid
                  (handleUpdateEvent "E" syncSheet syncState)) !! "E"
    = Some [mkItem "new-" (mkItemData "C" "2" "A" "10" "Fresh" 250 "") StatusNone;
            mkItem "id-1" (mkItemData "A" "1" "E1" "01" "New" 600 "signed") Purchased;
            mkItem "id-2" (mkItemData "B" "1" "E2" "03" "Same" 100 "") StatusNone;
            mkItem "id-4" (mkItemData "B" "1" "E2" "03" "Sequel" 450 "") Postpone].
Proof. vm_compute. done. Qed.

(** C1 as stated fails: two fetched rows at the place of one current item,
    with different titles, both update that item; the confirm keeps the last
    update, and the next reconciliation asks for the first one again. *)
Lemma reconcile_after_confirm_not_empty :
  updateData
    (handleUpdateEvent "E" twoTitlesSheet
       (handleConfirmUpdate compareByCodeUnit sampleUuid
          (handleUpdateEvent "E" twoTitlesSheet oneItemState)))
  = Some (mkUpdateData []
            [mkItem "id-1" (mkItemData "A" "1" "E1" "01" "First" 500 "") Purchased] []).
Proof. vm_compute. reflexivity. Qed.

Example trim_example :
  Str.trim "  　a b	" = "a b" ∧ Str.trim " 	" = "" ∧ Str.trim "日目　" = "日目"
  ∧ Str.includes "2日目(日)" "日目" = true.
Proof. vm_compute. done. Qed.

(** * Properties of the other handlers *)

(** ** Taking ids out of the execute column *)

Lemma executeIdsOf_handleRemoveFromExecuteColumn itemIds s active :
  truthy (activeEventName s) = Some active →
  executeIdsOf (handleRemoveFromExecuteColumn itemIds s) active
  = filter (λ id, id ∉ itemIds) (executeIdsOf s active).
Proof.
  intros Hactive. unfold handleRemoveFromExecuteColumn, executeIdsOf. rewrite Hactive. simpl.
  rewrite lookup_insert_eq, getDay_setDay, decide_True by done.
  destruct (executeModeItems s !! active); [done|]. by destruct (currentDay _).
Qed.

Lemma truthy_handleMoveToExecuteColumn itemIds s :
  truthy (activeEventName (handleMoveToExecuteColumn itemIds s)) = truthy (activeEventName s).
Proof.
  unfold handleMoveToExecuteColumn.
  destruct (truthy (activeEventName s)) eqn:Hactive; cbn; by rewrite ?Hactive.
Qed.

(** Ids that are not in the day's execute column, moved into it by
    [handleMoveToExecuteColumn] and taken out again by
    [handleRemoveFromExecuteColumn], leave the column as it was, when the
    column holds no id twice. *)
Theorem handleRemoveFromExecuteColumn_undoes_move itemIds s active :
  let column := executeIdsOf s active in
  truthy (activeEventName s) = Some active →
  NoDup column →
  (∀ id, id ∈ itemIds → id ∉ column) →
  executeIdsOf
    (handleRemoveFromExecuteColumn itemIds (handleMoveToExecuteColumn itemIds s)) active
  = column.
Proof.
  intros column Hactive Hnodup Hfresh.
  rewrite executeIdsOf_handleRemoveFromExecuteColumn
    by (by rewrite truthy_handleMoveToExecuteColumn).
  rewrite executeIdsOf_handleMoveToExecuteColumn by done.
  rewrite addToExecuteColumn_keepFirst. fold column.
  rewrite keepFirst_id by done. rewrite filter_app.
  rewrite (filter_all (λ id, id ∉ itemIds) column)
    by (intros id Hin Hin'; by apply (Hfresh id)).
  rewrite (filter_none (λ id, id ∉ itemIds)); [by rewrite app_nil_r|].
  intros id Hin. rewrite keepFirst_elem, list_elem_of_filter in Hin. tauto.
Qed.

Lemma handleRemoveFromExecuteColumn_undoes_move_witness :
  let s := sampleState ["a"; "b"; "c"; "d"] ["c"; "a"] {["b"]} edit in
  executeIdsOf
    (handleRemoveFromExecuteColumn ["d"; "b"; "d"]
       (handleMoveToExecuteColumn ["d"; "b"; "d"] s)) "E"
  = ["c"; "a"].
Proof.
  apply (handleRemoveFromExecuteColumn_undoes_move ["d"; "b"; "d"]
           (sampleState ["a"; "b"; "c"; "d"] ["c"; "a"] {["b"]} edit) "E").
  - reflexivity.
  - apply (bool_decide_unpack (NoDup _)). vm_compute. exact I.
  - apply Forall_forall. apply (bool_decide_unpack (Forall _ _)). vm_compute. exact I.
Defined.

(** ** Switching the mode of a day *)

Lemma getMode_setMode day day' mode modes :
  getMode day' (setMode day mode modes)
  = if decide (day' = day) then mode else getMode day' modes.
Proof. by destruct day, day'. Qed.

Lemma modeOf_handleToggleMode s active day :
  truthy (activeEventName s) = Some active →
  modeOf (handleToggleMode s) active day
  = if decide (day = currentDay (activeTab s))
    then (if decide (modeOf s active day = edit) then execute else edit)
    else modeOf s active day.
Proof.
  intros Hactive. unfold handleToggleMode. rewrite Hactive.
  unfold modeOf at 1. cbn. rewrite lookup_insert_eq, getMode_setMode.
  destruct (decide (day = _)) as [->|Hday]; [done|].
  unfold modeOf. destruct (dayModes s !! active); [done|]. by destruct day.
Qed.

Lemma handleToggleMode_frame s :
  activeEventName (handleToggleMode s) = activeEventName s
  ∧ activeTab (handleToggleMode s) = activeTab s
  ∧ eventLists (handleToggleMode s) = eventLists s
  ∧ executeModeItems (handleToggleMode s) = executeModeItems s.
Proof. unfold handleToggleMode. by destruct (truthy (activeEventName s)). Qed.

(** [handleToggleMode] switches the mode of the current day of the active
    event between edit and execute and leaves the mode of the other day
    alone, as it leaves the modes of every other event, the items and the
    execute columns; a second [handleToggleMode] gives every day of the
    event the mode it had. *)
Theorem handleToggleMode_twice s active :
  truthy (activeEventName s) = Some active →
  let day := currentDay (activeTab s) in
  let s1 := handleToggleMode s in
  let s2 := handleToggleMode s1 in
  modeOf s1 active day = (if decide (modeOf s active day = edit) then execute else edit)
  ∧ (∀ other, other ≠ day → modeOf s1 active other = modeOf s active other)
  ∧ (∀ event, event ≠ active → dayModes s1 !! event = dayModes s !! event)
  ∧ eventLists s1 = eventLists s
  ∧ executeModeItems s1 = executeModeItems s
  ∧ (∀ d, modeOf s2 active d = modeOf s active d).
Proof.
  intros Hactive day s1 s2.
  destruct (handleToggleMode_frame s) as (Hname & Htab & Hlists & Hcolumns).
  split_and!.
  - subst s1. rewrite modeOf_handleToggleMode by done. by rewrite decide_True.
  - intros other Hother. subst s1. rewrite modeOf_handleToggleMode by done.
    by rewrite decide_False.
  - intros event Hevent. subst s1. unfold handleToggleMode. rewrite Hactive. cbn.
    by rewrite lookup_insert_ne.
  - done.
  - done.
  - intros d. subst s2 s1.
    rewrite modeOf_handleToggleMode by (by rewrite Hname).
    rewrite Htab. rewrite !modeOf_handleToggleMode by done.
    destruct (decide (d = _)) as [->|]; [|done].
    destruct (modeOf s active (currentDay (activeTab s))); by cbn.
Qed.

Lemma handleToggleMode_twice_witness :
  let s := sampleState ["a"; "b"] ["a"] {["b"]} execute in
  modeOf (handleToggleMode s) "E" day1 = edit
  ∧ modeOf (handleToggleMode s) "E" day2 = execute
  ∧ modeOf (handleToggleMode (handleToggleMode s)) "E" day1 = execute.
Proof.
  destruct (handleToggleMode_twice (sampleState ["a"; "b"] ["a"] {["b"]} execute) "E")
    as (Hflip & Hother & _ & _ & _ & Hback); [reflexivity|].
  split_and!.
  - exact Hflip.
  - apply Hother. discriminate.
  - apply Hback.
Defined.

(** ** The sort cycle *)

(** [handleSortToggle] walks through the six sort states in a cycle: six
    toggles bring the sort state back, and no smaller number of toggles
    does. *)
Theorem handleSortToggle_cycle s :
  sortState (Nat.iter 6 handleSortToggle s) = sortState s
  ∧ ∀ k, (0 < k < 6)%nat → sortState (Nat.iter k handleSortToggle s) ≠ sortState s.
Proof.
  assert (Hstep : ∀ s', sortState (handleSortToggle s')
            = match sortState s' with
              | SortPostpone => SortLate
              | SortLate => SortAbsent
              | SortAbsent => SortSoldOut
              | SortSoldOut => SortPurchased
              | SortPurchased => Manual
              | Manual => SortPostpone
              end).
  { intros s'. unfold handleSortToggle. cbn. by destruct (sortState s'). }
  split.
  - unfold Nat.iter. cbn [nat_rect]. rewrite !Hstep. by destruct (sortState s).
  - intros k Hk.
    assert (k = 1 ∨ k = 2 ∨ k = 3 ∨ k = 4 ∨ k = 5)%nat as Hcases by lia.
    destruct Hcases as [-> | [-> | [-> | [-> | ->]]]];
      unfold Nat.iter; cbn [nat_rect]; rewrite !Hstep;
      by destruct (sortState s).
Qed.

(** ** Selecting *)

Lemma elem_of_handleSelectItem id s x :
  x ∈ selectedItemIds (handleSelectItem id s)
  ↔ if decide (x = id) then x ∉ selectedItemIds s else x ∈ selectedItemIds s.
Proof.
  unfold handleSelectItem. cbn.
  destruct (decide (id ∈ selectedItemIds s)) as [Hin|Hin].
  - rewrite elem_of_difference, elem_of_singleton.
    destruct (decide (x = id)) as [->|]; tauto.
  - rewrite elem_of_union, elem_of_singleton.
    destruct (decide (x = id)) as [->|]; tauto.
Qed.

(** [handleSelectItem] changes the membership of the given id in the
    selection and of no other id, and sets the sort state to manual; a
    second [handleSelectItem] of the same id restores the selection. *)
Theorem handleSelectItem_toggles id s :
  let s1 := handleSelectItem id s in
  (id ∈ selectedItemIds s1 ↔ id ∉ selectedItemIds s)
  ∧ (∀ other, other ≠ id → other ∈ selectedItemIds s1 ↔ other ∈ selectedItemIds s)
  ∧ sortState s1 = Manual
  ∧ blockSortDirection s1 = None
  ∧ selectedItemIds (handleSelectItem id s1) = selectedItemIds s.
Proof.
  intros s1. subst s1. split_and!.
  - rewrite elem_of_handleSelectItem. by rewrite decide_True.
  - intros other Hother. rewrite elem_of_handleSelectItem. by rewrite decide_False.
  - done.
  - done.
  - apply set_eq. intros x. rewrite elem_of_handleSelectItem.
    destruct (decide (x = id)) as [->|]; rewrite elem_of_handleSelectItem.
    + rewrite decide_True by done. destruct (decide (id ∈ selectedItemIds s)); tauto.
    + by rewrite decide_False.
Qed.

(** ** Sorting with a comparator *)

Section SortBy.

Context {A : Type} (cmp : A → A → Z).

Lemma insertBy_Permutation x l : insertBy cmp x l ≡ₚ x :: l.
Proof.
  induction l as [|y l IH]; simpl; [done|].
  destruct (decide (cmp x y ≤ 0)%Z); [done|].
  rewrite IH. apply Permutation_swap.
Qed.

Lemma sortBy_Permutation l : sortBy cmp l ≡ₚ l.
Proof.
  induction l as [|x l IH]; simpl; [done|].
  rewrite insertBy_Permutation. by f_equiv.
Qed.

Lemma sortBy_length l : length (sortBy cmp l) = length l.
Proof. by rewrite sortBy_Permutation. Qed.

Lemma sortBy_elem x l : x ∈ sortBy cmp l ↔ x ∈ l.
Proof. by rewrite sortBy_Permutation. Qed.

(** A comparator is consistent when "not after" is total and transitive. *)
Hypothesis cmp_total : ∀ a b, (cmp a b ≤ 0 ∨ cmp b a ≤ 0)%Z.
Hypothesis cmp_trans : ∀ a b c, (cmp a b ≤ 0 → cmp b c ≤ 0 → cmp a c ≤ 0)%Z.

Lemma insertBy_sorted x l :
  StronglySorted (λ a b, cmp a b ≤ 0)%Z l →
  StronglySorted (λ a b, cmp a b ≤ 0)%Z (insertBy cmp x l).
Proof.
  induction 1 as [|y l Hsorted IH Hall]; simpl.
  - repeat constructor.
  - destruct (decide (cmp x y ≤ 0)%Z) as [Hle|Hgt].
    + constructor; [by constructor|]. constructor; [done|].
      eapply Forall_impl; [exact Hall|]. intros z Hz. by eapply cmp_trans.
    + constructor; [done|]. rewrite insertBy_Permutation. constructor; [|done].
      destruct (cmp_total x y); [lia|done].
Qed.

Lemma sortBy_sorted l : StronglySorted (λ a b, cmp a b ≤ 0)%Z (sortBy cmp l).
Proof.
  induction l as [|x l IH]; simpl; [constructor|]. by apply insertBy_sorted.
Qed.

Lemma insertBy_head x l : Forall (λ y, cmp x y ≤ 0)%Z l → insertBy cmp x l = x :: l.
Proof. destruct 1; simpl; [done|]. by rewrite decide_True. Qed.

Lemma sortBy_id l : StronglySorted (λ a b, cmp a b ≤ 0)%Z l → sortBy cmp l = l.
Proof.
  induction 1 as [|x l Hsorted IH Hall]; simpl; [done|].
  rewrite IH. by apply insertBy_head.
Qed.

Lemma sortBy_idemp l : sortBy cmp (sortBy cmp l) = sortBy cmp l.
Proof. apply sortBy_id, sortBy_sorted. Qed.

End SortBy.

(** ** Putting sorted items back *)

Lemma head_drop {A} (l : list A) k : head (drop k l) = l !! k.
Proof. revert k. induction l as [|x l IH]; intros [|k]; simpl; auto. Qed.

Lemma tail_drop {A} (l : list A) k : tail (drop k l) = drop (S k) l.
Proof.
  revert k. induction l as [|x l IH]; intros [|k]; simpl; auto.
Qed.

Lemma refillByIndex_queue onTab sorted k l :
  refillByIndex onTab sorted k l = refillQueue onTab (drop k sorted) l.
Proof.
  revert k. induction l as [|item l IH]; intros k; simpl; [done|].
  destruct (onTab item).
  - by rewrite head_drop, tail_drop, IH.
  - by rewrite IH.
Qed.

Lemma refillColumns_queue onTab inExecute queue l :
  refillColumns onTab inExecute
    (filter (λ item, onTab item ∧ inExecute item) l) queue l
  = refillQueue (λ item, onTab item && negb (inExecute item)) queue l.
Proof.
  revert queue. induction l as [|item l IH]; intros queue; simpl; [done|].
  rewrite filter_cons.
  destruct (onTab item) eqn:Htab; simpl.
  - destruct (inExecute item) eqn:Hexec; simpl; by rewrite IH.
  - by rewrite IH.
Qed.

Section RefillQueue.

Context (P : ShoppingItem → bool).

Lemma refillQueue_length queue l : length (refillQueue P queue l) = length l.
Proof.
  revert queue. induction l as [|item l IH]; intros queue; simpl; [done|].
  destruct (P item); simpl; by rewrite IH.
Qed.

(** The places that [P] does not hold of keep their items. *)
Lemma refillQueue_lookup_other queue l i item :
  l !! i = Some item → ¬ P item → refillQueue P queue l !! i = Some item.
Proof.
  revert queue i. induction l as [|x l IH]; intros queue [|i] Hi Hnot; simplify_eq/=.
  - by destruct (P item).
  - destruct (P x); simpl; by apply IH.
Qed.

(** When the queue holds one item for each place that [P] holds of, and
    [P] holds of its items, the places of [P] get the queue, in order. *)
Lemma refillQueue_filter queue l :
  length queue = length (filter (λ item, P item) l) →
  Forall (λ item, P item) queue →
  filter (λ item, P item) (refillQueue P queue l) = queue
  ∧ filter (λ item, ¬ P item) (refillQueue P queue l) = filter (λ item, ¬ P item) l.
Proof.
  revert queue. induction l as [|x l IH]; intros queue Hlen Hall.
  - by destruct queue.
  - cbn [refillQueue]. destruct (decide (P x)) as [Hx|Hx].
    + rewrite filter_cons_True in Hlen by done.
      destruct queue as [|y queue]; [done|].
      apply Forall_cons in Hall as [Hy Hall].
      destruct (IH queue) as [IH1 IH2]; [simpl in Hlen; lia|done|].
      rewrite (Is_true_true_1 _ Hx). cbn [head tail default from_option id].
      rewrite filter_cons_True by done.
      rewrite filter_cons_False by tauto.
      rewrite (filter_cons_False (λ item, ¬ P item) x) by tauto.
      by rewrite IH1, IH2.
    + rewrite filter_cons_False in Hlen by done.
      destruct (IH queue) as [IH1 IH2]; [done|done|].
      rewrite (Is_true_false_1 _ Hx).
      rewrite filter_cons_False by done.
      rewrite !filter_cons_True by done.
      by rewrite IH1, IH2.
Qed.

Lemma refillQueue_lookup_P queue l i item :
  length queue = length (filter (λ item, P item) l) →
  Forall (λ item, P item) queue →
  l !! i = Some item → P item →
  ∃ item', refillQueue P queue l !! i = Some item' ∧ P item'.
Proof.
  revert queue i. induction l as [|x l IH]; intros queue i Hlen Hall Hi Hitem; [done|].
  cbn [refillQueue]. destruct (decide (P x)) as [Hx|Hx].
  - rewrite filter_cons_True in Hlen by done.
    destruct queue as [|y queue]; [done|].
    apply Forall_cons in Hall as [Hy Hall].
    rewrite (Is_true_true_1 _ Hx). cbn [head tail default from_option id].
    destruct i as [|i]; simpl in *.
    + by exists y.
    + apply IH; [lia|done..].
  - rewrite filter_cons_False in Hlen by done.
    rewrite (Is_true_false_1 _ Hx).
    destruct i as [|i]; simplify_eq/=.
    + done.
    + by apply IH.
Qed.

Lemma refillQueue_none queue l :
  filter (λ item, P item) l = [] → refillQueue P queue l = l.
Proof.
  induction l as [|x l IH]; intros Hfilter; [done|].
  cbn [refillQueue]. destruct (decide (P x)) as [Hx|Hx].
  - by rewrite filter_cons_True in Hfilter.
  - rewrite filter_cons_False in Hfilter by done.
    rewrite (Is_true_false_1 _ Hx). f_equal. by apply IH.
Qed.

Lemma refillQueue_Permutation queue l :
  queue ≡ₚ filter (λ item, P item) l →
  refillQueue P queue l ≡ₚ l.
Proof.
  intros Hperm.
  assert (length queue = length (filter (λ item, P item) l)) as Hlen by (by rewrite Hperm).
  assert (Forall (λ item, P item) queue) as Hall.
  { rewrite Hperm. apply Forall_forall. intros x Hx.
    by apply list_elem_of_filter in Hx as [? _]. }
  destruct (refillQueue_filter queue l Hlen Hall) as [H1 H2].
  rewrite <- (filter_app_complement (λ item, P item) (refillQueue P queue l)).
  rewrite H1, H2, Hperm. apply filter_app_complement.
Qed.

End RefillQueue.

Lemma Consistent_total {A} (cmp : A → A → Z) a b :
  Consistent cmp → (cmp a b ≤ 0 ∨ cmp b a ≤ 0)%Z.
Proof.
  intros [Hsign _]. destruct (decide (cmp a b ≤ 0)%Z); [by left|right].
  apply Hsign. lia.
Qed.

Lemma sortBy_Consistent {A} (cmp : A → A → Z) l :
  Consistent cmp → StronglySorted (λ a b, cmp a b ≤ 0)%Z (sortBy cmp l).
Proof.
  intros Hcmp. apply sortBy_sorted.
  - intros a b. by apply Consistent_total.
  - apply Hcmp.
Qed.

Lemma StronglySorted_lookup {A} (R : A → A → Prop) l i j a b :
  StronglySorted R l → l !! i = Some a → l !! j = Some b → (i < j)%nat → R a b.
Proof.
  intros Hsorted. revert i j. induction Hsorted as [|x l Hsorted IH Hall]; intros i j Hi Hj Hlt.
  - done.
  - destruct i as [|i], j as [|j]; simplify_eq/=; try lia.
    + rewrite Forall_forall in Hall. apply Hall. by eapply list_elem_of_lookup_2.
    + apply (IH i j); [done..|lia].
Qed.

Lemma compareBlocks_Consistent collateJa direction :
  Consistent collateJa → Consistent (compareBlocks collateJa direction).
Proof.
  intros [Hsign Htrans]. split.
  - intros a b. unfold compareBlocks.
    destruct (bool_decide (block a = "")), (bool_decide (block b = "")); cbn; try lia.
    destruct direction; [apply Hsign|].
    specialize (Hsign (block b) (block a)). lia.
  - intros a b c. unfold compareBlocks.
    destruct (bool_decide (block a = "")), (bool_decide (block b = "")),
      (bool_decide (block c = "")); cbn; try lia.
    destruct direction; [apply Htrans|].
    intros Hab Hbc.
    pose proof (Hsign (block b) (block a)) as H1.
    pose proof (Hsign (block c) (block b)) as H2.
    pose proof (Hsign (block c) (block a)) as H3.
    pose proof (Htrans (block c) (block b) (block a)) as H4. lia.
Qed.

Lemma compareNumbers_Consistent collate direction :
  Consistent collate → Consistent (compareNumbers collate direction).
Proof.
  intros [Hsign Htrans]. split.
  - intros a b. unfold compareNumbers. destruct direction; [apply Hsign|].
    specialize (Hsign (number b) (number a)). lia.
  - intros a b c. unfold compareNumbers. destruct direction; [apply Htrans|].
    intros Hab Hbc.
    pose proof (Hsign (number b) (number a)) as H1.
    pose proof (Hsign (number c) (number b)) as H2.
    pose proof (Hsign (number c) (number a)) as H3.
    pose proof (Htrans (number c) (number b) (number a)) as H4. lia.
Qed.

(** ** Sorting a day by block *)

Lemma itemsForTab_filter s :
  itemsForTab s
  = filter (λ item : ShoppingItem, Str.includes (eventDate item) (tabKey (activeTab s)))
      (items s).
Proof. unfold itemsForTab, day1Items, day2Items. by destruct (activeTab s). Qed.

Lemma items_setEventLists f s active :
  truthy (activeEventName s) = Some active →
  items (setEventLists f s) = default [] (f (eventLists s) !! active).
Proof. intros Hactive. unfold items. cbn. by rewrite Hactive. Qed.

Section BlockSort.

Variable collateJa : string → string → Z.

Lemma items_handleBlockSortToggle s :
  let onTab := λ item : ShoppingItem, Str.includes (eventDate item) (tabKey (activeTab s)) in
  items (handleBlockSortToggle collateJa s)
  = refillQueue onTab
      (sortBy (compareBlocks collateJa (nextDirectionOf s))
         (filter (λ item, onTab item) (items s))) (items s).
Proof.
  intros onTab. unfold handleBlockSortToggle, items.
  destruct (truthy (activeEventName s)) as [active|] eqn:Hactive; [|by rewrite Hactive].
  cbn [eventLists activeEventName setSelectedItemIds setBlockSortDirection setEventLists].
  rewrite Hactive.
  set (allItems := default [] (eventLists s !! active)).
  subst onTab. cbn beta.
  set (onTab := λ item : ShoppingItem, Str.includes (eventDate item) (tabKey (activeTab s))).
  destruct (filter _ allItems) as [|x l] eqn:Hfilter.
  - cbn [sortBy foldr]. by rewrite refillQueue_none.
  - by rewrite lookup_insert_eq, refillByIndex_queue, drop_0.
Qed.

Lemma handleBlockSortToggle_frame s :
  activeEventName (handleBlockSortToggle collateJa s) = activeEventName s
  ∧ activeTab (handleBlockSortToggle collateJa s) = activeTab s
  ∧ executeModeItems (handleBlockSortToggle collateJa s) = executeModeItems s
  ∧ dayModes (handleBlockSortToggle collateJa s) = dayModes s.
Proof. unfold handleBlockSortToggle. by destruct (truthy (activeEventName s)). Qed.

Lemma handleBlockSortToggle_places s :
  let s1 := handleBlockSortToggle collateJa s in
  itemsForTab s1 = sortBy (compareBlocks collateJa (nextDirectionOf s)) (itemsForTab s)
  ∧ (∀ i item, items s !! i = Some item → item ∉ itemsForTab s → items s1 !! i = Some item)
  ∧ items s1 ≡ₚ items s.
Proof.
  intros s1. subst s1.
  destruct (handleBlockSortToggle_frame s) as (Hname & Htab & _).
  rewrite !itemsForTab_filter, Htab, items_handleBlockSortToggle.
  set (onTab := λ item : ShoppingItem, Str.includes (eventDate item) (tabKey (activeTab s))).
  set (sorted := sortBy _ _).
  assert (sorted ≡ₚ filter (λ item, onTab item) (items s)) as Hperm
    by apply sortBy_Permutation.
  assert (length sorted = length (filter (λ item, onTab item) (items s))) as Hlen
    by (by rewrite Hperm).
  assert (Forall (λ item, onTab item) sorted) as Hall.
  { rewrite Hperm. apply Forall_forall. intros x Hx.
    by apply list_elem_of_filter in Hx as [? _]. }
  split_and!.
  - by apply (refillQueue_filter onTab).
  - intros i item Hi Hnot. apply refillQueue_lookup_other; [done|].
    intros Hitem. apply Hnot. apply list_elem_of_filter. split; [done|].
    by eapply list_elem_of_lookup_2.
  - by apply refillQueue_Permutation.
Qed.

Lemma handleBlockSortToggle_others s event :
  truthy (activeEventName s) ≠ Some event →
  eventLists (handleBlockSortToggle collateJa s) !! event = eventLists s !! event.
Proof.
  intros Hevent. unfold handleBlockSortToggle.
  destruct (truthy (activeEventName s)) as [active|] eqn:Hactive; [|done].
  cbn [eventLists setSelectedItemIds setBlockSortDirection setEventLists].
  match goal with |- context [match ?l with [] => _ | _ :: _ => _ end] => destruct l end;
    [done|]. rewrite lookup_insert_ne; [done|congruence].
Qed.

(** [handleBlockSortToggle] sorts the items of the current day among the
    places they hold: afterwards the day's items are the former ones in the
    order of the block comparator, every item of another day is at the
    index it had, and the list holds the same items as before. The lists of
    the other events are not touched. *)
Theorem handleBlockSortToggle_sorts_day s :
  let s1 := handleBlockSortToggle collateJa s in
  itemsForTab s1 = sortBy (compareBlocks collateJa (nextDirectionOf s)) (itemsForTab s)
  ∧ (∀ i item, items s !! i = Some item → item ∉ itemsForTab s → items s1 !! i = Some item)
  ∧ items s1 ≡ₚ items s
  ∧ (∀ event, truthy (activeEventName s) ≠ Some event →
       eventLists s1 !! event = eventLists s !! event).
Proof.
  intros s1. destruct (handleBlockSortToggle_places s) as (Hsorted & Hplaces & Hperm).
  split_and!; [done..|]. intros event. apply handleBlockSortToggle_others.
Qed.

(** With a consistent collation, the day's items are in block order after
    [handleBlockSortToggle]: of two items with a block the earlier one does
    not collate after the later one when the new direction is ascending,
    and not before it when it is descending; in both directions an item
    without a block is followed only by items without a block. *)
Theorem handleBlockSortToggle_order s i j (a b : ShoppingItem) :
  Consistent collateJa →
  let dayItems := itemsForTab (handleBlockSortToggle collateJa s) in
  dayItems !! i = Some a → dayItems !! j = Some b → (i < j)%nat →
  (block a = "" → block b = "")
  ∧ (block a ≠ "" → block b ≠ "" →
     match nextDirectionOf s with
     | asc => collateJa (block a) (block b) ≤ 0
     | desc => 0 ≤ collateJa (block a) (block b)
     end)%Z.
Proof.
  intros Hcmp dayItems Hi Hj Hlt.
  destruct (handleBlockSortToggle_places s) as (Hsorted & _).
  assert (StronglySorted (λ a b, compareBlocks collateJa (nextDirectionOf s) a b ≤ 0)%Z
            dayItems) as Hstrong.
  { subst dayItems. rewrite Hsorted.
    apply sortBy_Consistent. by apply compareBlocks_Consistent. }
  pose proof (StronglySorted_lookup _ _ _ _ _ _ Hstrong Hi Hj Hlt) as Hab.
  cbn beta in Hab. unfold compareBlocks in Hab.
  split.
  - intros Ha. rewrite Ha in Hab.
    destruct (decide (block b = "")) as [|Hb]; [done|].
    rewrite bool_decide_eq_true_2 in Hab by done.
    rewrite (bool_decide_eq_false_2 (block b = "")) in Hab by done. cbn in Hab. lia.
  - intros Ha Hb.
    rewrite !bool_decide_eq_false_2 in Hab by done. cbn in Hab.
    destruct (nextDirectionOf s); lia.
Qed.

End BlockSort.

(** [get] on a map of items by id returns the last item with the id. *)
Lemma byId_lookup_last (l : list ShoppingItem) id :
  newMap ((λ item : ShoppingItem, (itemId item, item)) <$> l) !! id
  = last (filter (λ item : ShoppingItem, itemId item = id) l).
Proof.
  induction l as [|x l IH] using rev_ind; [done|].
  rewrite fmap_app, filter_app. cbn [fmap list_fmap]. rewrite newMap_snoc. cbn [fst snd].
  destruct (decide (itemId x = id)) as [<-|Hne].
  - rewrite lookup_insert_eq, filter_cons_True by done. rewrite filter_nil.
    by rewrite last_snoc.
  - rewrite lookup_insert_ne by done. rewrite filter_cons_False by done.
    by rewrite filter_nil, app_nil_r.
Qed.

Lemma omap_ext_elem {A B} (f g : A → option B) (l : list A) :
  (∀ x, x ∈ l → f x = g x) → omap f l = omap g l.
Proof.
  induction l as [|x l IH]; intros Heq; [done|]. cbn.
  rewrite (Heq x) by left. rewrite IH; [done|]. intros y Hy. apply Heq. by right.
Qed.

(** The items a predicate on ids picks are not changed by a rearrangement
    of the other items. *)
Lemma filter_through {A} (P Q : A → Prop) `{∀ x, Decision (P x)} `{∀ x, Decision (Q x)}
    (l1 l2 : list A) :
  (∀ x, P x → Q x) → filter Q l1 = filter Q l2 → filter P l1 = filter P l2.
Proof.
  intros Himpl Heq.
  assert (∀ l : list A, filter P l = filter P (filter Q l)) as Hthrough.
  { intros l. rewrite list_filter_filter. apply list_filter_iff. intros x.
    split; [|tauto]. intros HP. split; [done|]. by apply Himpl. }
  by rewrite (Hthrough l1), (Hthrough l2), Heq.
Qed.

Lemma candidateColumnItems_filter s :
  candidateColumnItems s
  = filter (λ item : ShoppingItem,
              Str.includes (eventDate item) (tabKey (activeTab s))
              && bool_decide (itemId item ∉ currentExecuteIds s)) (items s).
Proof.
  unfold candidateColumnItems, currentExecuteIds, items.
  destruct (truthy (activeEventName s)) as [active|] eqn:Hactive; [|done].
  assert ((match activeTab s with TabDay1 => day1Items s | _ => day2Items s end)
          = filter (λ item : ShoppingItem,
                      Str.includes (eventDate item) (tabKey (activeTab s)))
              (default [] (eventLists s !! active))) as ->.
  { unfold day1Items, day2Items, items. rewrite Hactive. by destruct (activeTab s). }
  rewrite list_filter_filter. apply list_filter_iff. intros item.
  rewrite andb_True, bool_decide_spec. tauto.
Qed.

Lemma currentExecuteIds_frame s s' :
  activeEventName s' = activeEventName s → activeTab s' = activeTab s →
  executeModeItems s' = executeModeItems s →
  currentExecuteIds s' = currentExecuteIds s.
Proof.
  intros Hname Htab Hcolumns. unfold currentExecuteIds, executeIdsOf.
  by rewrite Hname, Htab, Hcolumns.
Qed.

Lemma executeColumnItems_omap s :
  executeColumnItems s
  = omap (λ id, newMap ((λ item : ShoppingItem, (itemId item, item)) <$> items s) !! id)
      (currentExecuteIds s).
Proof.
  unfold executeColumnItems, currentExecuteIds.
  by destruct (truthy (activeEventName s)).
Qed.

(** A rearrangement of the candidates of the day among their places shows
    in the candidate column and nowhere else. *)
Lemma refill_candidates s s1 queue :
  let candidate := λ item : ShoppingItem,
    Str.includes (eventDate item) (tabKey (activeTab s))
    && bool_decide (itemId item ∉ currentExecuteIds s) in
  activeEventName s1 = activeEventName s →
  activeTab s1 = activeTab s →
  executeModeItems s1 = executeModeItems s →
  items s1 = refillQueue candidate queue (items s) →
  queue ≡ₚ candidateColumnItems s →
  candidateColumnItems s1 = queue
  ∧ executeColumnItems s1 = executeColumnItems s
  ∧ (∀ i item, items s !! i = Some item → item ∉ candidateColumnItems s →
       items s1 !! i = Some item)
  ∧ items s1 ≡ₚ items s.
Proof.
  intros candidate Hname Htab Hcolumns Hitems Hperm.
  pose proof (currentExecuteIds_frame s _ Hname Htab Hcolumns) as Hids.
  rewrite candidateColumnItems_filter in Hperm.
  rewrite !candidateColumnItems_filter, !executeColumnItems_omap, Htab, Hids, Hitems.
  fold candidate in Hperm |- *.
  assert (length queue = length (filter (λ item, candidate item) (items s))) as Hlen
    by (by rewrite Hperm).
  assert (Forall (λ item, candidate item) queue) as Hall.
  { rewrite Hperm. apply Forall_forall. intros x Hx.
    by apply list_elem_of_filter in Hx as [? _]. }
  destruct (refillQueue_filter candidate queue (items s) Hlen Hall) as [Hin Hout].
  split_and!.
  - done.
  - apply omap_ext_elem. intros id Hid. rewrite !byId_lookup_last. f_equal.
    apply (filter_through _ (λ item, ¬ candidate item)); [|done].
    intros item <-. unfold candidate. rewrite andb_True, bool_decide_spec. tauto.
  - intros i item Hi Hnot. apply refillQueue_lookup_other; [done|].
    intros Hitem. apply Hnot. apply list_elem_of_filter. split; [done|].
    by eapply list_elem_of_lookup_2.
  - by apply refillQueue_Permutation.
Qed.

Section BlockSortCandidate.

Variable collateJa : string → string → Z.

Lemma refillQueue_ext (P Q : ShoppingItem → bool) queue l :
  (∀ item, P item = Q item) → refillQueue P queue l = refillQueue Q queue l.
Proof.
  intros Heq. revert queue. induction l as [|y l IH]; intros queue; [done|].
  cbn [refillQueue]. by rewrite !IH, Heq.
Qed.

Lemma items_handleBlockSortToggleCandidate s :
  let candidate := λ item : ShoppingItem,
    Str.includes (eventDate item) (tabKey (activeTab s))
    && bool_decide (itemId item ∉ currentExecuteIds s) in
  items (handleBlockSortToggleCandidate collateJa s)
  = refillQueue candidate
      (sortBy (compareBlocks collateJa (nextDirectionOf s)) (candidateColumnItems s))
      (items s).
Proof.
  intros candidate. rewrite candidateColumnItems_filter. fold candidate.
  unfold handleBlockSortToggleCandidate, items.
  destruct (truthy (activeEventName s)) as [active|] eqn:Hactive; [|by rewrite Hactive].
  cbn [eventLists activeEventName setSelectedItemIds setBlockSortDirection setEventLists].
  rewrite Hactive.
  set (allItems := default [] (eventLists s !! active)).
  assert (∀ item, candidate item
            ↔ Str.includes (eventDate item) (tabKey (activeTab s))
              ∧ ¬ bool_decide (itemId item ∈ executeIdsOf s active)) as Hcandidate.
  { intros item. unfold candidate, currentExecuteIds. rewrite Hactive.
    rewrite andb_True, !bool_decide_spec. tauto. }
  rewrite <- (list_filter_iff _ _ allItems Hcandidate).
  destruct (filter _ allItems) as [|x l] eqn:Hfilter.
  - cbn [sortBy foldr]. by rewrite refillQueue_none.
  - rewrite lookup_insert_eq. cbn [default from_option id].
    rewrite refillColumns_queue. apply refillQueue_ext. intros item.
    unfold candidate, currentExecuteIds. rewrite Hactive. f_equal.
    by rewrite bool_decide_not.
Qed.

Lemma handleBlockSortToggleCandidate_frame s :
  activeEventName (handleBlockSortToggleCandidate collateJa s) = activeEventName s
  ∧ activeTab (handleBlockSortToggleCandidate collateJa s) = activeTab s
  ∧ executeModeItems (handleBlockSortToggleCandidate collateJa s) = executeModeItems s
  ∧ dayModes (handleBlockSortToggleCandidate collateJa s) = dayModes s.
Proof. unfold handleBlockSortToggleCandidate. by destruct (truthy (activeEventName s)). Qed.

(** [handleBlockSortToggleCandidate] sorts the candidate list and nothing
    else: afterwards the candidate column is the former one in the order of
    the block comparator, the execute column is as it was, every item that
    is not a candidate of the day is at the index it had, and the list
    holds the same items as before. *)
Theorem handleBlockSortToggleCandidate_sorts_candidates s :
  let s1 := handleBlockSortToggleCandidate collateJa s in
  candidateColumnItems s1
  = sortBy (compareBlocks collateJa (nextDirectionOf s)) (candidateColumnItems s)
  ∧ executeColumnItems s1 = executeColumnItems s
  ∧ (∀ i item, items s !! i = Some item → item ∉ candidateColumnItems s →
       items s1 !! i = Some item)
  ∧ items s1 ≡ₚ items s.
Proof.
  intros s1. subst s1.
  destruct (handleBlockSortToggleCandidate_frame s) as (Hname & Htab & Hcolumns & _).
  apply refill_candidates; try done.
  - apply items_handleBlockSortToggleCandidate.
  - apply sortBy_Permutation.
Qed.

End BlockSortCandidate.

(** ** Sorting the selection by number *)

Section BlockAtFirst.

Context {A : Type} (P : A → Prop) `{∀ x, Decision (P x)}.

Lemma list_find_first (before after : list A) first :
  Forall (λ x, ¬ P x) before → P first →
  list_find P (before ++ first :: after) = Some (length before, first).
Proof.
  intros Hbefore Hfirst. induction Hbefore as [|x before Hx Hbefore IH]; simpl.
  - by rewrite decide_True.
  - rewrite decide_False by done. by rewrite IH.
Qed.

(** The selected block, put among the others at the index of the first
    selected entry, comes right after the entries before that one. *)
Lemma block_at_first (before after block : list A) first :
  Forall (λ x, ¬ P x) before →
  spliceIn (length before) block (filter (λ x, ¬ P x) (before ++ first :: after))
  = before ++ block ++ filter (λ x, ¬ P x) (first :: after).
Proof.
  intros Hbefore. rewrite filter_app.
  rewrite (filter_all (λ x, ¬ P x) before) by (by apply Forall_forall).
  unfold spliceIn. by rewrite take_app_length, drop_app_length.
Qed.

End BlockAtFirst.

Section BulkSort.

Variable collate : string → string → Z.

Lemma size_selected_elem (selected : gset string) id :
  id ∈ selected → bool_decide (size selected = 0) = false.
Proof.
  intros Hin. apply bool_decide_eq_false_2. intros Hsize.
  apply size_empty_inv in Hsize. apply (Hsize id) in Hin. by apply not_elem_of_empty in Hin.
Qed.

(** In execute mode [handleBulkSort] gathers the selected items of the
    event's list at the place of the first of them, in the order of the
    number comparator: the items before the first selected item stay, the
    selected items follow, and the other items come after them in their
    former order. *)
Theorem handleBulkSort_execute_mode direction s active before first after :
  let selected := λ item : ShoppingItem, itemId item ∈ selectedItemIds s in
  truthy (activeEventName s) = Some active →
  modeOf s active (currentDay (activeTab s)) = execute →
  items s = before ++ first :: after →
  Forall (λ item, ¬ selected item) before →
  selected first →
  items (handleBulkSort collate direction s)
  = before
    ++ sortBy (compareNumbers collate direction) (filter selected (first :: after))
    ++ filter (λ item, ¬ selected item) after.
Proof.
  intros selected Hactive Hmode Hitems Hbefore Hfirst.
  unfold handleBulkSort. rewrite Hactive.
  rewrite (size_selected_elem _ _ Hfirst).
  replace (modeOf (setBlockSortDirection None (setSortState Manual s)) active
             (currentDay (activeTab (setBlockSortDirection None (setSortState Manual s)))))
    with (modeOf s active (currentDay (activeTab s))) by done.
  rewrite Hmode. rewrite bool_decide_eq_false_2 by done.
  rewrite (items_setEventLists _ _ active) by done.
  cbn [eventLists setBlockSortDirection setSortState].
  unfold items in Hitems. rewrite Hactive in Hitems.
  unfold bulkSortEventList. rewrite Hitems.
  rewrite (list_find_first (λ item : ShoppingItem, itemId item ∈ selectedItemIds s))
    by done.
  rewrite lookup_insert_eq. cbn [default from_option id].
  rewrite (block_at_first (λ item : ShoppingItem, itemId item ∈ selectedItemIds s))
    by done.
  f_equal. rewrite filter_app.
  rewrite (filter_none _ before) by (by apply Forall_forall).
  rewrite app_nil_l. f_equal.
  by rewrite filter_cons_False by tauto.
Qed.

Lemma handleBulkSort_frame direction s :
  activeEventName (handleBulkSort collate direction s) = activeEventName s
  ∧ activeTab (handleBulkSort collate direction s) = activeTab s
  ∧ dayModes (handleBulkSort collate direction s) = dayModes s
  ∧ selectedItemIds (handleBulkSort collate direction s) = selectedItemIds s.
Proof.
  unfold handleBulkSort.
  destruct (truthy (activeEventName s)); [|done].
  repeat (match goal with |- context [if ?c then _ else _] => destruct c end); done.
Qed.

(** What [handleBulkSort] does in edit mode, by the columns that hold
    selected items of the event. *)
Lemma handleBulkSort_edit_mode direction s active :
  truthy (activeEventName s) = Some active →
  modeOf s active (currentDay (activeTab s)) = edit →
  size (selectedItemIds s) ≠ 0 →
  let selectedItems :=
    filter (λ item : ShoppingItem, itemId item ∈ selectedItemIds s) (items s) in
  let s0 := setBlockSortDirection None (setSortState Manual s) in
  handleBulkSort collate direction s
  = if bool_decide (Exists (λ item : ShoppingItem, itemId item ∈ executeIdsOf s active)
                      selectedItems)
       && negb (bool_decide (Exists (λ item : ShoppingItem,
                                       itemId item ∉ executeIdsOf s active) selectedItems))
    then setExecuteModeItems
           (bulkSortExecuteColumn collate direction active (currentDay (activeTab s))
              (selectedItemIds s) (items s)) s0
    else if bool_decide (Exists (λ item : ShoppingItem,
                                   itemId item ∉ executeIdsOf s active) selectedItems)
            && negb (bool_decide (Exists (λ item : ShoppingItem,
                                            itemId item ∈ executeIdsOf s active)
                                    selectedItems))
    then setEventLists
           (bulkSortCandidates collate direction active (tabKey (activeTab s))
              (executeIdsOf s active) (selectedItemIds s)) s0
    else s0.
Proof.
  intros Hactive Hmode Hsize selectedItems s0.
  unfold handleBulkSort. rewrite Hactive.
  rewrite (bool_decide_eq_false_2 (size _ = 0)) by done.
  replace (modeOf (setBlockSortDirection None (setSortState Manual s)) active
             (currentDay (activeTab (setBlockSortDirection None (setSortState Manual s)))))
    with (modeOf s active (currentDay (activeTab s))) by done.
  rewrite Hmode. by rewrite bool_decide_eq_true_2.
Qed.

Lemma executeIdsOf_current s active :
  truthy (activeEventName s) = Some active → executeIdsOf s active = currentExecuteIds s.
Proof. intros Hactive. unfold currentExecuteIds. by rewrite Hactive. Qed.

(** When the selection holds candidates of the day and no item of the
    execute column, [handleBulkSort] in edit mode gathers the selected
    candidates at the place of the first of them in the candidate column,
    in the order of the number comparator; the execute column is as it
    was, every item that is not a candidate of the day is at the index it
    had, and the list holds the same items as before. *)
Theorem handleBulkSort_candidates direction s active before first after :
  let selected := λ item : ShoppingItem, itemId item ∈ selectedItemIds s in
  let s1 := handleBulkSort collate direction s in
  truthy (activeEventName s) = Some active →
  modeOf s active (currentDay (activeTab s)) = edit →
  Forall (λ item, selected item → itemId item ∉ currentExecuteIds s) (items s) →
  candidateColumnItems s = before ++ first :: after →
  Forall (λ item, ¬ selected item) before →
  selected first →
  candidateColumnItems s1
  = before
    ++ sortBy (compareNumbers collate direction) (filter selected (first :: after))
    ++ filter (λ item, ¬ selected item) after
  ∧ executeColumnItems s1 = executeColumnItems s
  ∧ (∀ i item, items s !! i = Some item → item ∉ candidateColumnItems s →
       items s1 !! i = Some item)
  ∧ items s1 ≡ₚ items s.
Proof.
  intros selected s1 Hactive Hmode Hcolumn Hcandidates Hbefore Hfirst.
  subst selected. cbn beta in *.
  assert (first ∈ candidateColumnItems s) as Hin
    by (rewrite Hcandidates; apply elem_of_app; right; left).
  rewrite candidateColumnItems_filter in Hin.
  apply list_elem_of_filter in Hin as [Hcandidate Hin].
  apply andb_True in Hcandidate as [_ Hout]. apply bool_decide_spec in Hout.
  pose proof (executeIdsOf_current s active Hactive) as Hids.
  assert (s1 = setEventLists
                 (bulkSortCandidates collate direction active (tabKey (activeTab s))
                    (executeIdsOf s active) (selectedItemIds s))
                 (setBlockSortDirection None (setSortState Manual s))) as Hs1.
  { subst s1. rewrite (handleBulkSort_edit_mode direction s active); try done.
    - rewrite (bool_decide_eq_false_2 (Exists (λ item : ShoppingItem,
                 itemId item ∈ executeIdsOf s active) _)).
      + rewrite (bool_decide_eq_true_2 (Exists _ _)); [done|].
        apply Exists_exists. exists first. rewrite Hids. split; [|done].
        by apply list_elem_of_filter.
      + rewrite Exists_exists. intros (item & Hitem & Hexec).
        apply list_elem_of_filter in Hitem as [Hsel Hitem].
        rewrite Forall_forall in Hcolumn. rewrite Hids in Hexec.
        by apply (Hcolumn item).
    - intros Hsize. apply size_empty_inv in Hsize.
      apply (Hsize (itemId first)) in Hfirst. by apply not_elem_of_empty in Hfirst. }
  set (selected := λ item : ShoppingItem, itemId item ∈ selectedItemIds s) in *.
  set (queue := before
                ++ sortBy (compareNumbers collate direction) (filter selected (first :: after))
                ++ filter (λ item, ¬ selected item) after).
  assert (Hqueue : spliceIn (length before)
            (sortBy (compareNumbers collate direction)
               (filter selected (before ++ first :: after)))
            (filter (λ item, ¬ selected item) (before ++ first :: after)) = queue).
  { rewrite (block_at_first selected) by done. subst queue. f_equal.
    rewrite filter_app, (filter_none selected before), app_nil_l
      by (by apply Forall_forall).
    f_equal. by rewrite filter_cons_False by tauto. }
  apply refill_candidates.
  - by rewrite Hs1.
  - by rewrite Hs1.
  - by rewrite Hs1.
  - rewrite Hs1. rewrite (items_setEventLists _ _ active) by done.
    cbn [eventLists setBlockSortDirection setSortState].
    unfold bulkSortCandidates.
    assert (filter (λ item : ShoppingItem,
                      Str.includes (eventDate item) (tabKey (activeTab s))
                      ∧ ¬ bool_decide (itemId item ∈ executeIdsOf s active))
              (default [] (eventLists s !! active)) = before ++ first :: after) as ->.
    { rewrite <- Hcandidates, candidateColumnItems_filter. unfold items. rewrite Hactive.
      apply list_filter_iff. intros item. rewrite Hids.
      rewrite andb_True, !bool_decide_spec. tauto. }
    rewrite (list_find_first selected) by done.
    rewrite lookup_insert_eq. cbn [default from_option id].
    rewrite refillColumns_queue.
    match goal with
    | |- context [spliceIn ?i ?block ?l] =>
        replace (spliceIn i block l) with queue by (symmetry; exact Hqueue)
    end.
    unfold items. rewrite Hactive. apply refillQueue_ext. intros item.
    rewrite Hids. f_equal. by rewrite bool_decide_not.
  - rewrite Hcandidates, sortBy_Permutation. f_equiv.
    rewrite filter_cons_True by done. cbn [app]. f_equiv.
    apply filter_app_complement.
Qed.

Lemma omap_byId_filter (selected : gset string) (l : list ShoppingItem)
    (ids : list string) :
  omap (λ id, newMap ((λ item : ShoppingItem, (itemId item, item)) <$> l) !! id)
    (filter (λ id, id ∈ selected) ids)
  = filter (λ item : ShoppingItem, itemId item ∈ selected)
      (omap (λ id, newMap ((λ item : ShoppingItem, (itemId item, item)) <$> l) !! id) ids).
Proof.
  induction ids as [|id ids IH]; [done|].
  rewrite filter_cons. cbn [omap list_omap].
  destruct (newMap _ !! id) as [item|] eqn:Hlook.
  - pose proof (newMap_lookup_elem _ _ _ Hlook) as Hitem.
    apply byId_elem in Hitem as [_ Hid].
    destruct (decide (id ∈ selected)) as [Hsel|Hsel].
    + cbn [omap list_omap]. rewrite Hlook, filter_cons_True by (by rewrite Hid).
      by rewrite IH.
    + rewrite filter_cons_False by (by rewrite Hid). done.
  - destruct (decide (id ∈ selected)); [|done]. cbn [omap list_omap]. by rewrite Hlook.
Qed.

Lemma executeIdsOf_getDay s active :
  executeIdsOf s active
  = getDay (currentDay (activeTab s))
      (default emptyExecuteModeItems (executeModeItems s !! active)).
Proof.
  unfold executeIdsOf. destruct (executeModeItems s !! active); [done|].
  by destruct (currentDay _).
Qed.

(** When every selected item of the event is in the day's execute column,
    [handleBulkSort] in edit mode gathers the selected ids of the column at
    the place of the first of them: the ids before it stay, the ids of the
    selected items that the column shows follow in the order of the number
    comparator, and the other ids come after them in their former order. A
    selected id of the column that no item carries is dropped. The items
    are not touched. *)
Theorem handleBulkSort_execute_column direction s active before first after :
  let selected := λ item : ShoppingItem, itemId item ∈ selectedItemIds s in
  let s1 := handleBulkSort collate direction s in
  truthy (activeEventName s) = Some active →
  modeOf s active (currentDay (activeTab s)) = edit →
  Forall (λ item, selected item → itemId item ∈ currentExecuteIds s) (items s) →
  Exists selected (items s) →
  currentExecuteIds s = before ++ first :: after →
  Forall (λ id, id ∉ selectedItemIds s) before →
  first ∈ selectedItemIds s →
  currentExecuteIds s1
  = before
    ++ (itemId <$> sortBy (compareNumbers collate direction)
                     (filter selected (executeColumnItems s)))
    ++ filter (λ id, id ∉ selectedItemIds s) after
  ∧ eventLists s1 = eventLists s.
Proof.
  intros selected s1 Hactive Hmode Hcolumn Hsome Hids Hbefore Hfirst.
  subst selected. cbn beta in *.
  pose proof (executeIdsOf_current s active Hactive) as Hcurrent.
  assert (s1 = setExecuteModeItems
                 (bulkSortExecuteColumn collate direction active (currentDay (activeTab s))
                    (selectedItemIds s) (items s))
                 (setBlockSortDirection None (setSortState Manual s))) as Hs1.
  { subst s1. rewrite (handleBulkSort_edit_mode direction s active); try done.
    - rewrite (bool_decide_eq_true_2 (Exists (λ item : ShoppingItem,
                 itemId item ∈ executeIdsOf s active) _)).
      + rewrite (bool_decide_eq_false_2 (Exists _ _)); [done|].
        rewrite Exists_exists. intros (item & Hitem & Hexec).
        apply list_elem_of_filter in Hitem as [Hsel Hitem].
        rewrite Forall_forall in Hcolumn. rewrite Hcurrent in Hexec.
        apply Hexec. by apply Hcolumn.
      + apply Exists_exists in Hsome as (item & Hitem & Hsel).
        apply Exists_exists. exists item. split; [by apply list_elem_of_filter|].
        rewrite Hcurrent. rewrite Forall_forall in Hcolumn. by apply Hcolumn.
    - intros Hsize. apply size_empty_inv in Hsize.
      apply (Hsize first) in Hfirst. by apply not_elem_of_empty in Hfirst. }
  split; [|by rewrite Hs1].
  assert (currentExecuteIds s1 = executeIdsOf s1 active) as ->.
  { symmetry. apply executeIdsOf_current. by rewrite Hs1. }
  rewrite executeIdsOf_getDay, Hs1.
  cbn [executeModeItems activeTab setExecuteModeItems setBlockSortDirection setSortState].
  unfold bulkSortExecuteColumn.
  rewrite <- executeIdsOf_getDay, Hcurrent, Hids.
  rewrite (list_find_first (λ id, id ∈ selectedItemIds s)) by done.
  rewrite lookup_insert_eq. cbn [default from_option id].
  rewrite getDay_setDay, decide_True by done.
  rewrite (block_at_first (λ id, id ∈ selectedItemIds s)) by done.
  f_equal. f_equal.
  - f_equal. f_equal. rewrite omap_byId_filter, executeColumnItems_omap, Hids. done.
  - by rewrite filter_cons_False by tauto.
Qed.

(** When the selection holds an item of the day's execute column and an
    item that is not in it, [handleBulkSort] in edit mode reorders nothing:
    the items and the columns stay as they are, and only the sort state is
    set to manual. *)
Theorem handleBulkSort_mixed_selection direction s active (inColumn outside : ShoppingItem) :
  let s1 := handleBulkSort collate direction s in
  truthy (activeEventName s) = Some active →
  modeOf s active (currentDay (activeTab s)) = edit →
  inColumn ∈ items s → itemId inColumn ∈ selectedItemIds s →
  itemId inColumn ∈ currentExecuteIds s →
  outside ∈ items s → itemId outside ∈ selectedItemIds s →
  itemId outside ∉ currentExecuteIds s →
  eventLists s1 = eventLists s
  ∧ executeModeItems s1 = executeModeItems s
  ∧ sortState s1 = Manual
  ∧ blockSortDirection s1 = None.
Proof.
  intros s1 Hactive Hmode Hin1 Hsel1 Hcol1 Hin2 Hsel2 Hcol2.
  pose proof (executeIdsOf_current s active Hactive) as Hcurrent.
  subst s1. rewrite (handleBulkSort_edit_mode direction s active); try done.
  - rewrite (bool_decide_eq_true_2 (Exists (λ item : ShoppingItem,
               itemId item ∈ executeIdsOf s active) _)).
    + rewrite (bool_decide_eq_true_2 (Exists _ _)); [done|].
      apply Exists_exists. exists outside. rewrite Hcurrent.
      split; [by apply list_elem_of_filter|done].
    + apply Exists_exists. exists inColumn. rewrite Hcurrent.
      split; [by apply list_elem_of_filter|done].
  - intros Hsize. apply size_empty_inv in Hsize.
    apply (Hsize (itemId inColumn)) in Hsel1. by apply not_elem_of_empty in Hsel1.
Qed.

End BulkSort.

(** ** Selecting an event *)

Lemma filter_nil_Exists {A} (P : A → Prop) `{∀ x, Decision (P x)} (l : list A) :
  filter P l = [] ↔ ¬ Exists P l.
Proof.
  rewrite Exists_exists. split.
  - intros Hnil (x & Hx & HP). assert (x ∈ filter P l) as Hin by (by apply list_elem_of_filter).
    rewrite Hnil in Hin. by apply not_elem_of_nil in Hin.
  - intros Hnone. apply filter_none. intros x Hx HP. apply Hnone. by exists x.
Qed.

(** After [handleSelectEvent] the event is the active one, nothing is
    selected, and the tab is a day tab; the day shown is empty only when the
    event has no item on either day. *)
Theorem handleSelectEvent_shows_items eventName s :
  eventName ≠ "" →
  let s1 := handleSelectEvent eventName s in
  items s1 = default [] (eventLists s !! eventName)
  ∧ selectedItemIds s1 = ∅
  ∧ (activeTab s1 = TabDay1 ∨ activeTab s1 = TabDay2)
  ∧ (itemsForTab s1 = [] → day1Items s1 = [] ∧ day2Items s1 = []).
Proof.
  intros Hname s1.
  assert (items s1 = default [] (eventLists s !! eventName)) as Hitems.
  { subst s1. unfold items.
    change (activeEventName (handleSelectEvent eventName s)) with (Some eventName).
    by rewrite truthy_Some. }
  assert (activeTab s1 = tabFor (default [] (eventLists s !! eventName))) as Htab by done.
  split_and!; [done|done|..].
  - rewrite Htab. unfold tabFor. repeat case_bool_decide; auto.
  - unfold itemsForTab, day1Items, day2Items. rewrite Htab, Hitems. unfold tabFor.
    destruct (bool_decide (Exists _ _)) eqn:Hfirst.
    + apply bool_decide_eq_true_1 in Hfirst. intros Hnil.
      by apply (proj1 (filter_nil_Exists _ _)) in Hnil.
    + apply bool_decide_eq_false_1 in Hfirst.
      apply (proj2 (filter_nil_Exists _ _)) in Hfirst.
      destruct (bool_decide (Exists _ _)) eqn:Hsecond.
      * apply bool_decide_eq_true_1 in Hsecond. intros Hnil.
        by apply (proj1 (filter_nil_Exists _ _)) in Hnil.
      * apply bool_decide_eq_false_1 in Hsecond.
        apply (proj2 (filter_nil_Exists _ _)) in Hsecond. done.
Qed.

Lemma handleSelectEvent_shows_items_witness :
  let s1 := handleSelectEvent "E" (sampleState ["a"; "b"] [] {["a"]} edit) in
  items s1 = [sampleItem "a"; sampleItem "b"] ∧ selectedItemIds s1 = ∅.
Proof.
  destruct (handleSelectEvent_shows_items "E" (sampleState ["a"; "b"] [] {["a"]} edit))
    as (Hitems & Hselected & _); [discriminate|].
  split; [exact Hitems|exact Hselected].
Defined.

(** ** Deleting one item *)

(** [handleConfirmDelete] takes every item with the id of the item to
    delete out of the active event's list and the id out of the execute
    columns of both days; the other items and ids keep their order, the
    other events are not touched, and the selection is left as it is.
    Without a list for the active event it throws, and without an item to
    delete or an active event it changes nothing. *)
Theorem handleConfirmDelete_removes (st : AppStore) :
  match itemToDelete st, truthy (activeEventName st) with
  | Some toDelete, Some active =>
      match eventLists st !! active with
      | None => handleConfirmDelete st = StoreTypeError
      | Some items =>
          ∃ st1,
            handleConfirmDelete st = StoreDone st1
            ∧ eventLists st1 !! active
              = Some (filter (λ item : ShoppingItem, itemId item ≠ itemId toDelete) items)
            ∧ (∀ day,
                 getDay day (default emptyExecuteModeItems (executeModeItems st1 !! active))
                 = filter (λ id, id ≠ itemId toDelete)
                     (getDay day
                        (default emptyExecuteModeItems (executeModeItems st !! active))))
            ∧ (∀ other, other ≠ active →
                 eventLists st1 !! other = eventLists st !! other
                 ∧ executeModeItems st1 !! other = executeModeItems st !! other)
            ∧ selectedItemIds st1 = selectedItemIds st
            ∧ itemToDelete st1 = None
      end
  | _, _ => handleConfirmDelete st = StoreDone st
  end.
Proof.
  unfold handleConfirmDelete.
  destruct (itemToDelete st) as [toDelete|]; [|done].
  destruct (truthy (activeEventName st)) as [active|]; [|done].
  destruct (eventLists st !! active) as [items|] eqn:Hitems; [|done].
  eexists. split; [done|]. cbn. split_and!.
  - by rewrite lookup_insert_eq.
  - intros day. destruct (executeModeItems st !! active) as [eventItems|] eqn:Hcolumns.
    + rewrite lookup_insert_eq. by destruct day.
    + rewrite Hcolumns. by destruct day.
  - intros other Hother. rewrite lookup_insert_ne by done. split; [done|].
    destruct (executeModeItems st !! active); [|done]. by rewrite lookup_insert_ne.
  - done.
  - done.
Qed.

(** ** Adding items and deleting an event *)

Lemma imap_itemIds (uuid : nat → string) (rows : list ItemData) :
  itemId <$> imap (λ k row, mkItem (uuid k) row StatusNone) rows
  = uuid <$> seq 0 (length rows).
Proof.
  revert uuid. induction rows as [|row rows IH]; intros uuid; [done|].
  cbn. f_equal. rewrite <- fmap_S_seq, <- list_fmap_compose. apply (IH (uuid ∘ S)).
Qed.

Section BulkAddFacts.

Variable uuid : nat → string.
Variable now : string.

Lemma handleBulkAdd_throws eventName rows metadata (st : AppStore) :
  eventLists st !! eventName = None → eventName ∈ objectPrototypeKeys →
  handleBulkAdd uuid now eventName rows metadata st = StoreTypeError.
Proof.
  intros Hnone Hname. unfold handleBulkAdd, getProperty.
  by rewrite Hnone, bool_decide_eq_true_2.
Qed.

Lemma handleBulkAdd_done eventName rows metadata (st : AppStore) :
  let added := imap (λ k row, mkItem (uuid k) row StatusNone) rows in
  let isNewEvent := bool_decide (eventLists st !! eventName = None) in
  (eventLists st !! eventName = None → eventName ∉ objectPrototypeKeys) →
  ∃ st1 : AppStore,
    handleBulkAdd uuid now eventName rows metadata st = StoreDone st1
    ∧ eventLists st1
      = <[eventName := default [] (eventLists st !! eventName) ++ added]> (eventLists st)
    ∧ executeModeItems st1
      = (if isNewEvent then <[eventName := emptyExecuteModeItems]> (executeModeItems st)
         else executeModeItems st)
    ∧ dayModes st1
      = (if isNewEvent then <[eventName := mkDayModeState edit edit]> (dayModes st)
         else dayModes st)
    ∧ activeEventName st1 = (if isNewEvent then Some eventName else activeEventName st).
Proof.
  intros added isNewEvent Hname. subst isNewEvent.
  unfold handleBulkAdd, getProperty. fold added.
  destruct (eventLists st !! eventName) as [old|] eqn:Hold.
  - rewrite bool_decide_eq_false_2 by done. cbn [spreadOrEmpty isMissing].
    eexists. split; [done|].
    destruct (truthy (metadata ≫= url)), added; by cbn.
  - rewrite (bool_decide_eq_false_2 (eventName ∈ objectPrototypeKeys)) by auto.
    rewrite bool_decide_eq_true_2 by done. cbn [spreadOrEmpty isMissing].
    eexists. split; [done|].
    destruct (truthy (metadata ≫= url)), added; by cbn.
Qed.

(** [handleBulkAdd] keeps the items of the event in place and appends one
    item for each given row, in the order of the rows, with a generated id
    and no purchase status; no other event is touched. An event that had a
    list keeps its modes and columns, and the active event stays, whichever
    it is. An event without a list gets edit mode on both days and empty
    columns, and becomes the active event, unless its name is one that
    objects inherit, such as [constructor]: then the update of the lists
    throws and no store results. *)
Theorem handleBulkAdd_appends eventName rows metadata (st : AppStore) :
  let added := imap (λ k row, mkItem (uuid k) row StatusNone) rows in
  let appended := λ st1 : AppStore,
    eventLists st1 !! eventName = Some (default [] (eventLists st !! eventName) ++ added)
    ∧ (∀ other, other ≠ eventName →
         eventLists st1 !! other = eventLists st !! other
         ∧ executeModeItems st1 !! other = executeModeItems st !! other
         ∧ dayModes st1 !! other = dayModes st !! other) in
  match eventLists st !! eventName with
  | Some _ =>
      ∃ st1 : AppStore,
        handleBulkAdd uuid now eventName rows metadata st = StoreDone st1
        ∧ appended st1
        ∧ executeModeItems st1 !! eventName = executeModeItems st !! eventName
        ∧ dayModes st1 !! eventName = dayModes st !! eventName
        ∧ activeEventName st1 = activeEventName st
  | None =>
      if bool_decide (eventName ∈ objectPrototypeKeys)
      then handleBulkAdd uuid now eventName rows metadata st = StoreTypeError
      else
        ∃ st1 : AppStore,
          handleBulkAdd uuid now eventName rows metadata st = StoreDone st1
          ∧ appended st1
          ∧ executeModeItems st1 !! eventName = Some emptyExecuteModeItems
          ∧ dayModes st1 !! eventName = Some (mkDayModeState edit edit)
          ∧ activeEventName st1 = Some eventName
  end.
Proof.
  intros added appended.
  assert (∀ st1 : AppStore,
            eventLists st1
            = <[eventName := default [] (eventLists st !! eventName) ++ added]> (eventLists st) →
            (∀ other, other ≠ eventName →
               executeModeItems st1 !! other = executeModeItems st !! other
               ∧ dayModes st1 !! other = dayModes st !! other) →
            appended st1) as Happended.
  { intros st1 Hlists Hothers. split.
    - by rewrite Hlists, lookup_insert_eq.
    - intros other Hother. rewrite Hlists, lookup_insert_ne by done.
      split; [done|]. by apply Hothers. }
  destruct (eventLists st !! eventName) as [old|] eqn:Hold.
  - destruct (handleBulkAdd_done eventName rows metadata st)
      as (st1 & Hrun & Hlists & Hcolumns & Hmodes & Hactive); [by rewrite Hold|].
    rewrite Hold in Hlists, Hcolumns, Hmodes, Hactive.
    rewrite bool_decide_eq_false_2 in Hcolumns, Hmodes, Hactive by done.
    exists st1. split; [done|]. split.
    + apply Happended; [done|]. intros other _. by rewrite Hcolumns, Hmodes.
    + by rewrite Hcolumns, Hmodes.
  - case_bool_decide as Hname; [by apply handleBulkAdd_throws|].
    destruct (handleBulkAdd_done eventName rows metadata st)
      as (st1 & Hrun & Hlists & Hcolumns & Hmodes & Hactive); [done|].
    rewrite Hold in Hlists, Hcolumns, Hmodes, Hactive.
    rewrite bool_decide_eq_true_2 in Hcolumns, Hmodes, Hactive by done.
    exists st1. split; [done|]. split.
    + apply Happended; [done|]. intros other Hother.
      by rewrite Hcolumns, Hmodes, !lookup_insert_ne.
    + by rewrite Hcolumns, Hmodes, !lookup_insert_eq.
Qed.

(** [handleDeleteEvent] removes the event from the four dictionaries and
    leaves every other event in them as it is. When the event was the
    active one, no event is active afterwards and the event list is shown;
    otherwise the active event and the tab stay. A change-set or a deletion
    that is pending is kept. Rows added under the name of the deleted event
    start it anew: it holds the new items only, is in edit mode on both
    days and has empty columns. Only under a name that objects inherit,
    such as [constructor], the adding throws instead. *)
Theorem handleDeleteEvent_forgets eventName rows metadata (st : AppStore) :
  let st1 := handleDeleteEvent eventName st in
  (eventLists st1 !! eventName = None
   ∧ eventMetadata st1 !! eventName = None
   ∧ executeModeItems st1 !! eventName = None
   ∧ dayModes st1 !! eventName = None)
  ∧ (∀ other, other ≠ eventName →
       eventLists st1 !! other = eventLists st !! other
       ∧ eventMetadata st1 !! other = eventMetadata st !! other
       ∧ executeModeItems st1 !! other = executeModeItems st !! other
       ∧ dayModes st1 !! other = dayModes st !! other)
  ∧ (if decide (activeEventName st = Some eventName)
     then activeEventName st1 = None ∧ activeTab st1 = TabEventList
     else activeEventName st1 = activeEventName st ∧ activeTab st1 = activeTab st)
  ∧ (updateData st1 = updateData st
     ∧ updateEventName st1 = updateEventName st
     ∧ itemToDelete st1 = itemToDelete st)
  ∧ (if bool_decide (eventName ∈ objectPrototypeKeys)
     then handleBulkAdd uuid now eventName rows metadata st1 = StoreTypeError
     else
       ∃ st2 : AppStore,
         handleBulkAdd uuid now eventName rows metadata st1 = StoreDone st2
         ∧ eventLists st2 !! eventName
           = Some (imap (λ k row, mkItem (uuid k) row StatusNone) rows)
         ∧ executeModeItems st2 !! eventName = Some emptyExecuteModeItems
         ∧ dayModes st2 !! eventName = Some (mkDayModeState edit edit)).
Proof.
  intros st1.
  assert (eventLists st1 !! eventName = None) as Hgone.
  { subst st1. unfold handleDeleteEvent.
    destruct (decide _); cbn; by rewrite lookup_delete_eq. }
  split; [|split; [|split; [|split]]].
  - split_and!; [done|..]; subst st1; unfold handleDeleteEvent;
      destruct (decide _); cbn; by rewrite lookup_delete_eq.
  - intros other Hother. subst st1. unfold handleDeleteEvent.
    destruct (decide _); cbn; by rewrite !lookup_delete_ne.
  - subst st1. unfold handleDeleteEvent. by destruct (decide _).
  - subst st1. unfold handleDeleteEvent. by destruct (decide _).
  - case_bool_decide as Hname; [by apply handleBulkAdd_throws|].
    destruct (handleBulkAdd_done eventName rows metadata st1)
      as (st2 & Hrun & Hlists & Hcolumns & Hmodes & _); [done|].
    rewrite Hgone in Hlists, Hcolumns, Hmodes.
    rewrite bool_decide_eq_true_2 in Hcolumns, Hmodes by done.
    exists st2. split; [done|].
    by rewrite Hlists, Hcolumns, Hmodes, !lookup_insert_eq.
Qed.

End BulkAddFacts.

(** ** Strings as lists of characters *)

Lemma chars_ofChars l : Str.chars (Str.ofChars l) = l.
Proof. apply String.list_ascii_of_string_of_list_ascii. Qed.

Lemma ofChars_chars s : Str.ofChars (Str.chars s) = s.
Proof. apply String.string_of_list_ascii_of_string. Qed.

Lemma chars_app a b : Str.chars (a +:+ b) = Str.chars a ++ Str.chars b.
Proof.
  unfold Str.chars. induction a as [|c a IH]; [done|]. cbn. rewrite <- IH. reflexivity.
Qed.

Lemma isPrefix_singleton c l : Str.isPrefix [c] l = true ↔ head l = Some c.
Proof.
  destruct l as [|d l]; cbn; [done|].
  destruct (Ascii.eqb c d) eqn:Heq.
  - apply Ascii.eqb_eq in Heq as ->. done.
  - apply Ascii.eqb_neq in Heq. split; [done|]. intros [= ->]. done.
Qed.

Lemma includesChars_singleton c l : Str.includesChars l [c] = true ↔ c ∈ l.
Proof.
  induction l as [|d l IH].
  - cbn. split; [done|]. intros Hin. by apply not_elem_of_nil in Hin.
  - cbn [Str.includesChars]. rewrite orb_true_iff, IH, isPrefix_singleton, elem_of_cons.
    cbn. split; intros [Hhead|Htail]; auto; left; congruence.
Qed.

Lemma includes_char s c : Str.includes s (Str.ofChars [c]) = true ↔ c ∈ Str.chars s.
Proof. unfold Str.includes. rewrite chars_ofChars. apply includesChars_singleton. Qed.

(** ** Reading back what [escapeCsvCell] wrote *)

(** A run of characters that are neither quotes nor commas is added to the
    cell being read. *)
Lemma splitCells_plain run rest cells currentCell :
  dquote ∉ run → comma ∉ run →
  splitCells (run ++ rest) cells currentCell false
  = splitCells rest cells (currentCell ++ run) false.
Proof.
  revert currentCell. induction run as [|c run IH]; intros currentCell Hquote Hcomma.
  - by rewrite app_nil_r.
  - rewrite not_elem_of_cons in Hquote, Hcomma.
    destruct Hquote as [Hc1 Hquote], Hcomma as [Hc2 Hcomma].
    cbn [app splitCells].
    rewrite (proj2 (Ascii.eqb_neq _ _)) by congruence.
    rewrite (proj2 (Ascii.eqb_neq _ _)) by congruence.
    cbn [andb]. rewrite IH by done. by rewrite <- app_assoc.
Qed.

(** Inside quotes every character of the cell is read back, a doubled
    quote as one quote, and the closing quote ends the quoted part when no
    quote follows it. *)
Lemma splitCells_quoted cell rest cells currentCell :
  head rest ≠ Some dquote →
  splitCells (doubleQuotes cell ++ dquote :: rest) cells currentCell true
  = splitCells rest cells (currentCell ++ cell) false.
Proof.
  intros Hrest. revert currentCell.
  induction cell as [|c cell IH]; intros currentCell.
  - cbn [doubleQuotes mbind list_bind app splitCells].
    rewrite Ascii.eqb_refl, app_nil_r.
    destruct rest as [|next rest]; [done|].
    rewrite (proj2 (Ascii.eqb_neq next dquote)) by (intros ->; by apply Hrest). done.
  - unfold doubleQuotes in *. cbn [mbind list_bind].
    destruct (Ascii.eqb c dquote) eqn:Hc.
    + apply Ascii.eqb_eq in Hc as ->. cbn [app splitCells].
      rewrite !Ascii.eqb_refl. rewrite IH. by rewrite <- app_assoc.
    + cbn [app splitCells]. rewrite Hc.
      rewrite andb_false_r. rewrite IH. by rewrite <- app_assoc.
Qed.

Lemma splitCells_escaped cell rest cells :
  head rest ≠ Some dquote →
  splitCells (Str.chars (escapeCsvCell cell) ++ rest) cells [] false
  = splitCells rest cells (Str.chars cell) false.
Proof.
  intros Hrest. unfold escapeCsvCell.
  destruct (Str.includes cell (Str.ofChars [comma]) || Str.includes cell (Str.ofChars [dquote])
            || Str.includes cell (Str.ofChars [newline])) eqn:Hspecial.
  - rewrite chars_ofChars. cbn [app splitCells].
    rewrite Ascii.eqb_refl.
    assert (∀ l, splitCells (dquote :: l) cells [] false = splitCells l cells [] true) as Hopen.
    { intros l. cbn [splitCells]. rewrite Ascii.eqb_refl. by destruct l. }
    rewrite <- app_assoc. cbn [app].
    replace (match doubleQuotes (Str.chars cell) ++ dquote :: rest with
             | [] | _ => splitCells (doubleQuotes (Str.chars cell) ++ dquote :: rest)
                           cells [] (negb false)
             end)
      with (splitCells (doubleQuotes (Str.chars cell) ++ dquote :: rest) cells [] true)
      by (by destruct (doubleQuotes _ ++ _)).
    by rewrite splitCells_quoted.
  - apply orb_false_iff in Hspecial as [Hspecial _].
    apply orb_false_iff in Hspecial as [Hcomma Hquote].
    rewrite splitCells_plain; [done|..].
    + intros Hin. apply includes_char in Hin. congruence.
    + intros Hin. apply includes_char in Hin. congruence.
Qed.

Lemma chars_join_cons sep x y l :
  Str.chars (Str.join sep (x :: y :: l))
  = Str.chars x ++ Str.chars sep ++ Str.chars (Str.join sep (y :: l)).
Proof. cbn [Str.join]. by rewrite !chars_app. Qed.

Lemma splitCells_row row cells :
  row ≠ [] →
  splitCells (Str.chars (Str.join (Str.ofChars [comma]) (escapeCsvCell <$> row))) cells [] false
  = cells ++ row.
Proof.
  revert cells. induction row as [|cell row IH]; intros cells Hrow; [done|].
  destruct row as [|cell' row].
  - cbn [fmap list_fmap Str.join].
    rewrite <- (app_nil_r (Str.chars _)), splitCells_escaped by done.
    cbn [splitCells]. by rewrite ofChars_chars.
  - rewrite !fmap_cons, chars_join_cons, chars_ofChars.
    rewrite splitCells_escaped by (cbn [app head]; intros [= Heq]; vm_compute in Heq; discriminate).
    cbn [app splitCells].
    rewrite (proj2 (Ascii.eqb_neq comma dquote)) by (intros Heq; vm_compute in Heq; discriminate).
    rewrite Ascii.eqb_refl. cbn [andb negb].
    rewrite <- fmap_cons, IH by done.
    by rewrite ofChars_chars, <- app_assoc.
Qed.

Lemma cellsOf_row row :
  row ≠ [] →
  cellsOf (Str.join (Str.ofChars [comma]) (escapeCsvCell <$> row)) = row.
Proof. intros Hrow. unfold cellsOf. by rewrite splitCells_row. Qed.

(** The cell reader of the update undoes the quoting of the export: a row
    of cells that [escapeCsvCell] wrote and commas joined is read back as
    the cells, whatever characters they hold. *)
Theorem cellsOf_escapeCsvCell row :
  row ≠ [] →
  cellsOf (Str.join (Str.ofChars [comma]) (escapeCsvCell <$> row)) = row.
Proof.
  intros Hrow. destruct row as [|cell row]; [done|].
  unfold cellsOf. by rewrite splitCells_row.
Qed.

(** ** The lines of the export *)

Lemma splitChars_plain sep run rest current :
  sep ∉ run →
  Str.splitChars sep (run ++ rest) current = Str.splitChars sep rest (current ++ run).
Proof.
  revert current. induction run as [|c run IH]; intros current Hsep.
  - by rewrite app_nil_r.
  - rewrite not_elem_of_cons in Hsep. destruct Hsep as [Hc Hsep].
    cbn [app Str.splitChars].
    rewrite (proj2 (Ascii.eqb_neq c sep)) by congruence.
    rewrite IH by done. by rewrite <- app_assoc.
Qed.

(** [split] undoes [join] on pieces that do not hold the separator. *)
Lemma split_join sep pieces :
  pieces ≠ [] →
  Forall (λ piece, sep ∉ Str.chars piece) pieces →
  Str.split sep (Str.join (Str.ofChars [sep]) pieces) = pieces.
Proof.
  intros Hpieces Hall. unfold Str.split.
  induction Hall as [|piece pieces Hpiece Hall IH]; [done|].
  destruct pieces as [|piece' pieces].
  - cbn [Str.join]. rewrite <- (app_nil_r (Str.chars _)), splitChars_plain by done.
    cbn. by rewrite ofChars_chars.
  - rewrite chars_join_cons, chars_ofChars, splitChars_plain by done.
    cbn [app Str.splitChars]. rewrite Ascii.eqb_refl.
    rewrite IH by done. by rewrite ofChars_chars.
Qed.

Lemma chars_join_elem sep pieces c :
  c ∈ Str.chars (Str.join sep pieces) →
  c ∈ Str.chars sep ∨ ∃ piece, piece ∈ pieces ∧ c ∈ Str.chars piece.
Proof.
  induction pieces as [|piece pieces IH]; intros Hin.
  - by apply not_elem_of_nil in Hin.
  - destruct pieces as [|piece' pieces].
    + right. exists piece. split; [left|done].
    + rewrite chars_join_cons, !elem_of_app in Hin.
      destruct Hin as [Hin|[Hin|Hin]].
      * right. exists piece. split; [left|done].
      * by left.
      * destruct (IH Hin) as [?|(p & Hp & Hc)]; [by left|].
        right. exists p. split; [by right|done].
Qed.

Lemma chars_doubleQuotes_elem l c : c ∈ doubleQuotes l → c ∈ l.
Proof.
  unfold doubleQuotes. intros Hin. apply list_elem_of_bind in Hin as (d & Hin & Hd).
  destruct (Ascii.eqb d dquote) eqn:Heq.
  - apply Ascii.eqb_eq in Heq as ->.
    rewrite !elem_of_cons in Hin. destruct Hin as [->|[->|Hin]]; [done|done|].
    by apply not_elem_of_nil in Hin.
  - by apply list_elem_of_singleton in Hin as ->.
Qed.

Lemma chars_escapeCsvCell_newline cell :
  newline ∉ Str.chars cell → newline ∉ Str.chars (escapeCsvCell cell).
Proof.
  intros Hcell. unfold escapeCsvCell.
  destruct (_ || _ || _); [|done].
  rewrite chars_ofChars, !elem_of_app, !list_elem_of_singleton.
  intros [Heq|[Hin|Heq]].
  - vm_compute in Heq. discriminate.
  - by apply chars_doubleQuotes_elem in Hin.
  - vm_compute in Heq. discriminate.
Qed.

Lemma exportRow_fields item : exportRow item = escapeCsvCell <$> exportFields item.
Proof. done. Qed.

Lemma headers_plain : escapeCsvCell <$> headers = headers.
Proof. by vm_compute. Qed.

Lemma csvRow_newline row :
  Forall (λ field, newline ∉ Str.chars field) row →
  newline ∉ Str.chars (Str.join (Str.ofChars [comma]) (escapeCsvCell <$> row)).
Proof.
  intros Hrow Hin. apply chars_join_elem in Hin as [Hin|(cell & Hcell & Hin)].
  - rewrite chars_ofChars in Hin. apply list_elem_of_singleton in Hin.
    vm_compute in Hin. discriminate.
  - apply list_elem_of_fmap in Hcell as (field & -> & Hfield).
    rewrite Forall_forall in Hrow.
    by apply (chars_escapeCsvCell_newline field (Hrow field Hfield)).
Qed.

(** ** Prices as text *)

Lemma parseDigits_acc (d : Decimal.uint) (p : positive) :
  foldl (λ acc c, 10 * acc + (N_of_ascii c - 48))%N (N.pos p)
    (Str.chars (NilEmpty.string_of_uint d))
  = N.pos (Pos.of_uint_acc d p).
Proof.
  revert p. induction d; intros p; cbn; [done|..]; rewrite <- IHd; f_equal; lia.
Qed.

Lemma parseDigits_string_of_uint (d : Decimal.uint) :
  Str.parseDigits (Str.chars (NilEmpty.string_of_uint d)) = Pos.of_uint d.
Proof.
  unfold Str.parseDigits. induction d; cbn; [done|done|..]; apply parseDigits_acc.
Qed.

Lemma string_of_uint_digits (d : Decimal.uint) :
  Forall (λ c, Str.isDigit c) (Str.chars (NilEmpty.string_of_uint d)).
Proof. induction d; cbn; [constructor|..]; by constructor. Qed.

Lemma ofNumber_digits n : Forall (λ c, Str.isDigit c) (Str.chars (Str.ofNumber n)).
Proof.
  unfold Str.ofNumber, NilZero.string_of_uint.
  destruct (N.to_uint n) eqn:Hn; try (rewrite <- Hn; apply string_of_uint_digits).
  by repeat constructor.
Qed.

(** The digits that [String] writes for a price are read back as the
    price. *)
Lemma digitsValue_ofNumber n : Str.digitsValue (Str.ofNumber n) = n.
Proof.
  unfold Str.digitsValue.
  rewrite filter_all by (apply Forall_forall, ofNumber_digits).
  unfold Str.ofNumber, NilZero.string_of_uint.
  rewrite <- (DecimalN.Unsigned.of_to n) at 2. unfold N.of_uint.
  destruct (N.to_uint n); try apply parseDigits_string_of_uint. done.
Qed.

Lemma digits_no_newline l : Forall (λ c, Str.isDigit c) l → newline ∉ l.
Proof.
  intros Hall Hin. rewrite Forall_forall in Hall. by apply Hall in Hin.
Qed.

Lemma statusLabels_no_newline status : newline ∉ Str.chars (statusLabels status).
Proof.
  apply (bool_decide_unpack (newline ∉ _)). by destruct status; vm_compute.
Qed.

Lemma csvString_cells itemsToExport :
  Forall (λ item : ShoppingItem,
            Forall (λ field, newline ∉ Str.chars field) (textFields item))
    itemsToExport →
  cellsOf <$> Str.split newline (csvString itemsToExport)
  = headers :: (exportFields <$> itemsToExport).
Proof.
  intros Htext.
  assert (Forall (λ item, Forall (λ field, newline ∉ Str.chars field) (exportFields item))
            itemsToExport) as Hfields.
  { eapply Forall_impl; [exact Htext|]. intros item Hitem.
    unfold textFields in Hitem. unfold exportFields.
    repeat (apply Forall_cons in Hitem as [? Hitem]).
    repeat (constructor; [try done|]); [..|constructor].
    - apply digits_no_newline, ofNumber_digits.
    - apply statusLabels_no_newline. }
  clear Htext. unfold csvString.
  rewrite split_join.
  - rewrite fmap_cons. apply (f_equal2 cons).
    + pose proof (cellsOf_row headers) as Hheaders.
      rewrite headers_plain in Hheaders. by apply Hheaders.
    + rewrite <- list_fmap_compose. apply list_fmap_ext. intros i item Hitem.
      by apply (cellsOf_row (exportFields item)).
  - done.
  - constructor.
    + pose proof (csvRow_newline headers) as Hheaders.
      rewrite headers_plain in Hheaders. apply Hheaders.
      apply (bool_decide_unpack (Forall _ _)). by vm_compute.
    + apply Forall_fmap. eapply Forall_impl; [exact Hfields|].
      intros item Hitem. exact (csvRow_newline (exportFields item) Hitem).
Qed.


Lemma csvString_lines itemsToExport line :
  Forall (λ item : ShoppingItem,
            Forall (λ field, newline ∉ Str.chars field) (textFields item))
    itemsToExport →
  line ∈ Str.split newline (csvString itemsToExport) → length (cellsOf line) = 8.
Proof.
  intros Htext Hline.
  assert (cellsOf line ∈ cellsOf <$> Str.split newline (csvString itemsToExport)) as Hin
    by (by apply list_elem_of_fmap_2).
  rewrite csvString_cells in Hin by done.
  apply elem_of_cons in Hin as [->|Hin]; [done|].
  by apply list_elem_of_fmap in Hin as (item & -> & _).
Qed.

(** When no text field holds a line break, the file that
    [handleExportEvent] writes for an event with items is named after the
    event and holds, after the byte order mark, one line for the headers
    and one for each item; the cell reader of the update reads every line
    back as the eight headers or the eight fields of the item, quotes and
    commas in the fields included. *)
Theorem handleExportEvent_read_back eventName s item itemsToExport :
  eventLists s !! eventName = Some (item :: itemsToExport) →
  Forall (λ item : ShoppingItem,
            Forall (λ field, newline ∉ Str.chars field) (textFields item))
    (item :: itemsToExport) →
  handleExportEvent eventName s
  = Some (eventName +:+ ".csv", bom +:+ csvString (item :: itemsToExport))
  ∧ cellsOf <$> Str.split newline (csvString (item :: itemsToExport))
    = headers :: (exportFields <$> item :: itemsToExport).
Proof.
  intros Hlist Htext. split; [|by apply csvString_cells].
  unfold handleExportEvent. by rewrite Hlist.
Qed.

(** Reconciling an event against the text of an export marks every item of
    the event for deletion and finds nothing to update or to add: the
    export has eight columns, and the update reads the thirteenth column
    and those after it. *)
Theorem handleUpdateEvent_of_export eventName exported s :
  Forall (λ item : ShoppingItem,
            Forall (λ field, newline ∉ Str.chars field) (textFields item)) exported →
  parseSheet (csvString exported) = []
  ∧ updateData (handleUpdateEvent eventName (csvString exported) s)
    = Some (mkUpdateData (default [] (eventLists s !! eventName)) [] []).
Proof.
  intros Htext.
  assert (parseSheet (csvString exported) = []) as Hrows.
  { rewrite parseSheet_omap. apply omap_none. intros line Hline.
    apply (subseteq_drop 1), list_elem_of_filter in Hline as [_ Hline].
    pose proof (csvString_lines exported line Htext Hline) as Hlength.
    unfold parseRow, trimmedCell.
    rewrite (lookup_ge_None_2 _ 12) by lia. done. }
  split; [done|].
  rewrite handleUpdateEvent_updateData, Hrows. unfold computeUpdateData. cbn.
  f_equal. f_equal. apply filter_all. intros item Hitem. apply lookup_empty.
Qed.

(** ** The rows of the fetched sheet (C7) *)


(** ** Blank lines *)






(** *** Written cells *)





(** *** Rows *)






(** ** What the screen shows *)

Lemma visibleItems_filter s active :
  truthy (activeEventName s) = Some active →
  modeOf s active (currentDay (activeTab s)) = execute →
  visibleItems s
  = filter (λ item : ShoppingItem,
              itemId item ∈ currentExecuteIds s ∧ shownBy (sortState s) item)
      (itemsForTab s).
Proof.
  intros Hactive Hmode. unfold visibleItems, currentExecuteIds. rewrite Hactive, Hmode.
  rewrite bool_decide_eq_true_2 by done. unfold shownBy.
  destruct (sortState s) eqn:Hsort;
    [apply list_filter_iff; intros item; tauto|..];
    rewrite list_filter_filter; apply list_filter_iff; intros item;
    (split; [intros [? ?]; split; [done|by right]|intros [? [?|?]]; done]).
Qed.

Lemma byId_lookup_NoDup (l : list ShoppingItem) id item :
  NoDup (itemId <$> l) →
  newMap ((λ item : ShoppingItem, (itemId item, item)) <$> l) !! id = Some item
  ↔ item ∈ l ∧ itemId item = id.
Proof.
  intros Hnodup. split.
  - intros Hlook. by apply newMap_lookup_elem, byId_elem in Hlook.
  - intros Hitem. apply newMap_lookup_NoDup; [by rewrite byId_keys|by apply byId_elem].
Qed.

Lemma NoDup_items (l : list ShoppingItem) : NoDup (itemId <$> l) → NoDup l.
Proof. apply NoDup_fmap_1. Qed.

Lemma omap_byId_NoDup (l : list ShoppingItem) (ids : list string) :
  NoDup ids →
  NoDup (omap (λ id, newMap ((λ item : ShoppingItem, (itemId item, item)) <$> l) !! id) ids).
Proof.
  induction 1 as [|id ids Hid Hids IH]; [constructor|].
  cbn [omap list_omap]. destruct (newMap _ !! id) as [item|] eqn:Hlook; [|done].
  constructor; [|done]. intros Hin. apply Hid.
  apply list_elem_of_omap in Hin as (id' & Hid' & Hlook').
  apply newMap_lookup_elem, byId_elem in Hlook as [_ <-].
  by apply newMap_lookup_elem, byId_elem in Hlook' as [_ <-].
Qed.

(** In execute mode the screen shows the items of the day that the execute
    column of edit mode holds and the status filter lets through, in the
    order of the event's list and not in the order of the column. *)
Theorem visibleItems_of_execute_column s active :
  truthy (activeEventName s) = Some active →
  modeOf s active (currentDay (activeTab s)) = execute →
  NoDup (itemId <$> items s) →
  NoDup (currentExecuteIds s) →
  visibleItems s
  ≡ₚ filter (λ item : ShoppingItem,
               Str.includes (eventDate item) (tabKey (activeTab s))
               ∧ shownBy (sortState s) item)
       (executeColumnItems s)
  ∧ visibleItems s `sublist_of` items s.
Proof.
  intros Hactive Hmode Hids Hcolumn.
  rewrite (visibleItems_filter s active), itemsForTab_filter, executeColumnItems_omap
    by done.
  split.
  - apply NoDup_Permutation.
    + apply NoDup_filter, NoDup_filter. by apply NoDup_items.
    + apply NoDup_filter. by apply omap_byId_NoDup.
    + intros item. rewrite !list_elem_of_filter, list_elem_of_omap.
      split.
      * intros ((Hin & Hshown) & Htab & Hitem). split; [done|].
        exists (itemId item). split; [done|]. by apply byId_lookup_NoDup.
      * intros ((Htab & Hshown) & id & Hid & Hlook).
        apply byId_lookup_NoDup in Hlook as [Hitem <-]; done.
  - etrans; apply sublist_filter.
Qed.

(** The button that moves the selection to the execute column is offered
    exactly when the screen is in edit mode and some item of the candidate
    column is selected. *)
Theorem hasCandidateSelection_spec s :
  hasCandidateSelection s = true
  ↔ currentMode s = edit
    ∧ ∃ item, item ∈ candidateColumnItems s ∧ itemId item ∈ selectedItemIds s.
Proof.
  unfold hasCandidateSelection, candidateColumnItems, currentMode.
  destruct (truthy (activeEventName s)) as [active|] eqn:Hactive.
  - fold (itemsForTab s).
    set (mode := match dayModes s !! active with Some _ => _ | None => _ end).
    destruct (decide (mode = edit)) as [Hmode|Hmode].
    + rewrite (bool_decide_eq_false_2 (mode ≠ edit)) by tauto. cbn [orb].
      destruct (bool_decide (size (selectedItemIds s) = 0)) eqn:Hsize.
      * apply bool_decide_eq_true_1, size_empty_inv in Hsize.
        split; [done|]. intros (_ & item & _ & Hsel).
        apply (Hsize (itemId item)) in Hsel. by apply not_elem_of_empty in Hsel.
      * rewrite bool_decide_eq_true, Exists_exists. split.
        -- intros (item & Hitem & Htab & Hout).
           apply list_elem_of_filter in Hitem as [Hsel Hitem].
           split; [done|]. exists item. split; [|done]. by apply list_elem_of_filter.
        -- intros (_ & item & Hitem & Hsel).
           apply list_elem_of_filter in Hitem as [Hout Htab].
           exists item. split; [|done]. apply list_elem_of_filter. split; [done|].
           rewrite itemsForTab_filter in Htab.
           by apply list_elem_of_filter in Htab as [_ ?].
    + rewrite (bool_decide_eq_true_2 (mode ≠ edit)) by done. cbn [orb].
      split; [done|]. by intros [? _].
  - split; [done|]. intros [_ (item & Hitem & _)]. by apply not_elem_of_nil in Hitem.
Qed.

(** ** The invariant of the stored lists *)

Lemma NoDup_of_submseteq {A} (l k : list A) : l ⊆+ k → NoDup k → NoDup l.
Proof.
  intros Hsub Hnodup. apply submseteq_sublist_r in Hsub as (l' & -> & Hsub).
  by eapply sublist_NoDup.
Qed.

(** A step that drops some ids of each event from the list and the
    columns, adds ids to the list only and otherwise rearranges. *)
Lemma WellFormed_step (dropped : string → list string) s s' :
  WellFormed s →
  (∀ event, NoDup (listedIds s' event)) →
  (∀ event id, id ∈ listedIds s event → id ∉ dropped event → id ∈ listedIds s' event) →
  (∀ event day,
     columnIds s' event day ⊆+ filter (λ id, id ∉ dropped event) (columnIds s event day)) →
  WellFormed s'.
Proof.
  intros Hs Hlisted Hkept Hcolumns event.
  split; [done|]. intros day. specialize (Hcolumns event day).
  destruct (Hs event) as [_ Hday]. destruct (Hday day) as [Hnodup Hsub].
  split.
  - eapply NoDup_of_submseteq; [exact Hcolumns|]. by apply NoDup_filter.
  - intros id Hid. eapply elem_of_submseteq in Hid; [|exact Hcolumns].
    apply list_elem_of_filter in Hid as [Hdropped Hid]. apply (Hkept event); [|done].
    by apply Hsub.
Qed.

(** A step that only rearranges the lists and thins out or rearranges the
    columns. *)
Lemma WellFormed_rearranged s s' :
  WellFormed s →
  (∀ event, listedIds s' event ≡ₚ listedIds s event) →
  (∀ event day, columnIds s' event day ⊆+ columnIds s event day) →
  WellFormed s'.
Proof.
  intros Hs Hlisted Hcolumns. apply (WellFormed_step (λ _, []) s); [done|..].
  - intros event. rewrite Hlisted. apply Hs.
  - intros event id Hid _. by rewrite Hlisted.
  - intros event day. rewrite filter_all; [done|]. intros id _. apply not_elem_of_nil.
Qed.

Lemma listedIds_Permutation s s' event :
  default [] (eventLists s' !! event) ≡ₚ default [] (eventLists s !! event) →
  listedIds s' event ≡ₚ listedIds s event.
Proof. intros Hperm. unfold listedIds. by rewrite Hperm. Qed.

(** *** Reordering *)

Lemma handleMoveItem_rearranges dragId hoverId targetColumn s event :
  let s1 := handleMoveItem dragId hoverId targetColumn s in
  default [] (eventLists s1 !! event) ≡ₚ default [] (eventLists s !! event)
  ∧ ∀ day, columnIds s1 event day ≡ₚ columnIds s event day.
Proof.
  intros s1. subst s1. unfold handleMoveItem, columnIds.
  destruct (truthy (activeEventName s)) as [active|]; [|done].
  destruct (bool_decide _ && bool_decide _).
  - cbn. split; [done|]. intros day. apply moveInExecuteColumn_Permutation.
  - destruct (bool_decide (_ = execute)); [|done].
    cbn. split; [|done]. apply moveInEventList_Permutation.
Qed.

Lemma items_other_event s s' event :
  activeEventName s' = activeEventName s →
  (truthy (activeEventName s) ≠ Some event → eventLists s' !! event = eventLists s !! event) →
  items s' ≡ₚ items s →
  default [] (eventLists s' !! event) ≡ₚ default [] (eventLists s !! event).
Proof.
  intros Hname Hother Hitems.
  destruct (decide (truthy (activeEventName s) = Some event)) as [Hactive|Hactive].
  - unfold items in Hitems. by rewrite Hname, Hactive in Hitems.
  - by rewrite Hother.
Qed.

Lemma sortBy_queue_Permutation {A} (cmp : A → A → Z) (P : A → Prop) `{∀ x, Decision (P x)}
    (l : list A) i :
  spliceIn i (sortBy cmp (filter P l)) (filter (λ x, ¬ P x) l) ≡ₚ l.
Proof.
  rewrite spliceIn_Permutation, sortBy_Permutation. apply filter_app_complement.
Qed.

Section Rearranging.

Variable collateJa : string → string → Z.
Variable collate : string → string → Z.

Lemma handleBlockSortToggle_rearranges s event :
  let s1 := handleBlockSortToggle collateJa s in
  default [] (eventLists s1 !! event) ≡ₚ default [] (eventLists s !! event)
  ∧ ∀ day, columnIds s1 event day = columnIds s event day.
Proof.
  intros s1. subst s1.
  destruct (handleBlockSortToggle_frame collateJa s) as (Hname & Htab & Hcolumns & _).
  split; [|by unfold columnIds; rewrite Hcolumns].
  apply items_other_event; [done|..].
  - apply handleBlockSortToggle_others.
  - apply handleBlockSortToggle_places.
Qed.

Lemma handleBlockSortToggleCandidate_rearranges s event :
  let s1 := handleBlockSortToggleCandidate collateJa s in
  default [] (eventLists s1 !! event) ≡ₚ default [] (eventLists s !! event)
  ∧ ∀ day, columnIds s1 event day = columnIds s event day.
Proof.
  intros s1. subst s1.
  destruct (handleBlockSortToggleCandidate_frame collateJa s)
    as (Hname & Htab & Hcolumns & _).
  split; [|by unfold columnIds; rewrite Hcolumns].
  apply items_other_event; [done|..].
  - intros Hevent. unfold handleBlockSortToggleCandidate.
    destruct (truthy (activeEventName s)) as [active|] eqn:Hactive; [|done].
    cbn [eventLists setSelectedItemIds setBlockSortDirection setEventLists].
    match goal with |- context [match ?l with [] => _ | _ :: _ => _ end] => destruct l end;
      [done|]. rewrite lookup_insert_ne; [done|congruence].
  - rewrite items_handleBlockSortToggleCandidate. apply refillQueue_Permutation.
    rewrite candidateColumnItems_filter. apply sortBy_Permutation.
Qed.

Lemma bulkSortEventList_rearranges direction active selected prev event :
  default [] (bulkSortEventList collate direction active selected prev !! event)
  ≡ₚ default [] (prev !! event).
Proof.
  unfold bulkSortEventList. destruct (list_find _ _) as [[i x]|]; [|done].
  destruct (decide (event = active)) as [->|Hevent].
  - rewrite lookup_insert_eq. cbn [default from_option id].
    apply (sortBy_queue_Permutation _ (λ item : ShoppingItem, itemId item ∈ selected)).
  - by rewrite lookup_insert_ne.
Qed.

Lemma refillColumns_Permutation (onTab inExecute : ShoppingItem → bool) queue l :
  queue ≡ₚ filter (λ item, onTab item ∧ ¬ inExecute item) l →
  refillColumns onTab inExecute (filter (λ item, onTab item ∧ inExecute item) l) queue l
  ≡ₚ l.
Proof.
  intros Hqueue. rewrite refillColumns_queue. apply refillQueue_Permutation.
  rewrite Hqueue. apply reflexive_eq. apply list_filter_iff. intros item.
  destruct (onTab item), (inExecute item); cbn; tauto.
Qed.

Lemma bulkSortCandidates_rearranges direction active key executeIds selected prev event :
  default []
    (bulkSortCandidates collate direction active key executeIds selected prev !! event)
  ≡ₚ default [] (prev !! event).
Proof.
  unfold bulkSortCandidates. destruct (list_find _ _) as [[i x]|]; [|done].
  destruct (decide (event = active)) as [->|Hevent].
  - rewrite lookup_insert_eq. cbn [default from_option id].
    apply refillColumns_Permutation.
    apply (sortBy_queue_Permutation _ (λ item : ShoppingItem, itemId item ∈ selected)).
  - by rewrite lookup_insert_ne.
Qed.

Lemma omap_byId_ids (l : list ShoppingItem) (ids : list string) :
  itemId <$> omap (λ id, newMap ((λ item : ShoppingItem, (itemId item, item)) <$> l) !! id) ids
  `sublist_of` ids.
Proof.
  induction ids as [|id ids IH]; [done|]. cbn [omap list_omap].
  destruct (newMap _ !! id) as [item|] eqn:Hlook.
  - apply newMap_lookup_elem, byId_elem in Hlook as [_ <-]. cbn. by apply sublist_skip.
  - by apply sublist_cons.
Qed.

Lemma bulkSortExecuteColumn_thins direction active day selected items prev event day' :
  getDay day' (default emptyExecuteModeItems
                 (bulkSortExecuteColumn collate direction active day selected items prev
                    !! event))
  ⊆+ getDay day' (default emptyExecuteModeItems (prev !! event)).
Proof.
  unfold bulkSortExecuteColumn. destruct (list_find _ _) as [[i x]|]; [|done].
  destruct (decide (event = active)) as [->|Hevent]; [|by rewrite lookup_insert_ne].
  rewrite lookup_insert_eq. cbn [default from_option id].
  rewrite getDay_setDay. destruct (decide (day' = day)) as [->|]; [|done].
  set (dayItems := getDay day (default emptyExecuteModeItems (prev !! active))).
  rewrite spliceIn_Permutation.
  rewrite <- (filter_app_complement (λ id, id ∈ selected) dayItems) at 3.
  apply submseteq_app; [|done].
  rewrite sortBy_Permutation. apply sublist_submseteq, omap_byId_ids.
Qed.

Lemma handleBulkSort_rearranges direction s event :
  let s1 := handleBulkSort collate direction s in
  default [] (eventLists s1 !! event) ≡ₚ default [] (eventLists s !! event)
  ∧ ∀ day, columnIds s1 event day ⊆+ columnIds s event day.
Proof.
  intros s1. subst s1. unfold handleBulkSort, columnIds.
  destruct (truthy (activeEventName s)) as [active|]; [|done].
  destruct (bool_decide (size _ = 0)); [done|].
  destruct (bool_decide (_ = edit)).
  - destruct (_ && negb _).
    + cbn. split; [done|]. intros day. apply bulkSortExecuteColumn_thins.
    + destruct (_ && negb _); [|done].
      cbn. split; [|done]. apply bulkSortCandidates_rearranges.
  - cbn. split; [|done]. apply bulkSortEventList_rearranges.
Qed.

End Rearranging.

(** *** The execute column *)

Lemma columnIds_handleRemoveFromExecuteColumn itemIds s event day :
  columnIds (handleRemoveFromExecuteColumn itemIds s) event day
  `sublist_of` columnIds s event day.
Proof.
  unfold handleRemoveFromExecuteColumn, columnIds.
  destruct (truthy (activeEventName s)) as [active|]; [|done]. cbn.
  destruct (decide (event = active)) as [->|Hevent]; [|by rewrite lookup_insert_ne].
  rewrite lookup_insert_eq. cbn [default from_option id]. rewrite getDay_setDay.
  destruct (decide (day = _)) as [->|]; [apply sublist_filter|done].
Qed.

Lemma columnIds_handleMoveToExecuteColumn itemIds s active event day :
  truthy (activeEventName s) = Some active →
  columnIds (handleMoveToExecuteColumn itemIds s) event day
  = if decide (event = active ∧ day = currentDay (activeTab s))
    then addToExecuteColumn (columnIds s event day) itemIds
    else columnIds s event day.
Proof.
  intros Hactive. unfold handleMoveToExecuteColumn, columnIds. rewrite Hactive. cbn.
  destruct (decide (event = active)) as [->|Hevent].
  - rewrite lookup_insert_eq. cbn [default from_option id]. rewrite getDay_setDay.
    destruct (decide (day = _)) as [->|Hday].
    + by rewrite decide_True.
    + rewrite decide_False; [done|tauto].
  - rewrite lookup_insert_ne by done. rewrite decide_False; [done|tauto].
Qed.

Lemma addToExecuteColumn_NoDup column itemIds : NoDup (addToExecuteColumn column itemIds).
Proof.
  rewrite addToExecuteColumn_keepFirst. apply NoDup_app. split_and!.
  - apply keepFirst_NoDup.
  - intros id Hin Hin'. rewrite keepFirst_elem in Hin.
    rewrite keepFirst_elem, list_elem_of_filter in Hin'. tauto.
  - apply keepFirst_NoDup.
Qed.

Lemma addToExecuteColumn_elem column itemIds id :
  id ∈ addToExecuteColumn column itemIds ↔ id ∈ column ∨ id ∈ itemIds.
Proof.
  rewrite addToExecuteColumn_keepFirst, elem_of_app, !keepFirst_elem, list_elem_of_filter.
  destruct (decide (id ∈ column)); tauto.
Qed.

(** *** The items *)

Lemma listedIds_lookup s event l :
  eventLists s !! event = Some l → listedIds s event = itemId <$> l.
Proof. intros Hl. unfold listedIds. by rewrite Hl. Qed.

Lemma updatedItem_id d (item : ShoppingItem) : itemId (updatedItem d item) = itemId item.
Proof.
  unfold updatedItem. destruct (newMap _ !! itemId item) as [update|] eqn:Hlook; [|done].
  by apply newMap_lookup_elem, byId_elem in Hlook as [_ ?].
Qed.

Lemma applyUpdateData_ids compareItems uuid d (l : list ShoppingItem) :
  itemId <$> applyUpdateData compareItems uuid d l
  ≡ₚ filter (λ id, id ∉ itemId <$> itemsToDelete d) (itemId <$> l)
     ++ (uuid <$> seq 0 (length (itemsToAdd d))).
Proof.
  rewrite applyUpdateData_steps, foldl_insertItemSorted_Permutation, fmap_app.
  unfold addedItems. rewrite imap_itemIds. f_equiv.
  rewrite <- list_fmap_compose.
  rewrite (list_fmap_ext (itemId ∘ updatedItem d) itemId (survivors d l))
    by (intros i item _; apply updatedItem_id).
  unfold survivors. apply reflexive_eq.
  exact (fmap_filter_itemId (λ id, id ∉ itemId <$> itemsToDelete d) l).
Qed.

(** *** The invariant is kept *)

(** The reordering handlers keep the invariant: [handleMoveItem], the two
    block sorts and [handleBulkSort] never make an event hold an id twice
    and never make a column hold an id twice or an id without an item. *)
Theorem WellFormed_reordering collateJa collate s :
  WellFormed s →
  (∀ dragId hoverId targetColumn, WellFormed (handleMoveItem dragId hoverId targetColumn s))
  ∧ WellFormed (handleBlockSortToggle collateJa s)
  ∧ WellFormed (handleBlockSortToggleCandidate collateJa s)
  ∧ (∀ direction, WellFormed (handleBulkSort collate direction s)).
Proof.
  intros Hs. split_and!.
  - intros dragId hoverId targetColumn. apply (WellFormed_rearranged s); [done|..].
    + intros event. apply listedIds_Permutation.
      apply (handleMoveItem_rearranges dragId hoverId targetColumn s event).
    + intros event day.
      destruct (handleMoveItem_rearranges dragId hoverId targetColumn s event) as [_ Hday].
      by rewrite (Hday day).
  - apply (WellFormed_rearranged s); [done|..].
    + intros event. apply listedIds_Permutation.
      apply (handleBlockSortToggle_rearranges collateJa s event).
    + intros event day.
      destruct (handleBlockSortToggle_rearranges collateJa s event) as [_ Hday].
      by rewrite (Hday day).
  - apply (WellFormed_rearranged s); [done|..].
    + intros event. apply listedIds_Permutation.
      apply (handleBlockSortToggleCandidate_rearranges collateJa s event).
    + intros event day.
      destruct (handleBlockSortToggleCandidate_rearranges collateJa s event) as [_ Hday].
      by rewrite (Hday day).
  - intros direction. apply (WellFormed_rearranged s); [done|..].
    + intros event. apply listedIds_Permutation.
      apply (handleBulkSort_rearranges collate direction s event).
    + intros event day.
      apply (handleBulkSort_rearranges collate direction s event).
Qed.

(** The column handlers keep the invariant: taking ids out of the execute
    column always does, and putting ids into it does when every id put in
    is the id of an item of the active event. *)
Theorem WellFormed_columns s :
  WellFormed s →
  (∀ itemIds, WellFormed (handleRemoveFromExecuteColumn itemIds s))
  ∧ (∀ itemIds, itemIds ⊆ itemId <$> items s →
       WellFormed (handleMoveToExecuteColumn itemIds s)).
Proof.
  intros Hs. split.
  - intros itemIds. apply (WellFormed_rearranged s); [done|..].
    + intros event. apply listedIds_Permutation.
      unfold handleRemoveFromExecuteColumn. by destruct (truthy (activeEventName s)).
    + intros event day. apply sublist_submseteq.
      apply columnIds_handleRemoveFromExecuteColumn.
  - intros itemIds Hlisted.
    destruct (truthy (activeEventName s)) as [active|] eqn:Hactive;
      [|by unfold handleMoveToExecuteColumn; rewrite Hactive].
    assert (∀ event, listedIds (handleMoveToExecuteColumn itemIds s) event
                     = listedIds s event) as Hsame.
    { intros event. unfold listedIds, handleMoveToExecuteColumn. by rewrite Hactive. }
    intros event. rewrite Hsame. destruct (Hs event) as [Hnodup Hday].
    split; [done|]. intros day. destruct (Hday day) as [Hcolumn Hsub].
    rewrite (columnIds_handleMoveToExecuteColumn itemIds s active) by done.
    destruct (decide (event = active ∧ day = _)) as [[-> ->]|]; [|done].
    split; [apply addToExecuteColumn_NoDup|].
    intros id Hid. apply addToExecuteColumn_elem in Hid as [Hid|Hid]; [by apply Hsub|].
    apply Hlisted in Hid. unfold items in Hid. by rewrite Hactive in Hid.
Qed.

Lemma NoDup_app_fresh uuid ids count :
  NoDup ids → freshIds uuid ids count → NoDup (ids ++ (uuid <$> seq 0 count)).
Proof.
  intros Hids [Hnew Hfresh]. apply NoDup_app. split_and!; [done| |done].
  intros id Hid Hin. apply list_elem_of_fmap in Hin as (k & -> & Hk).
  rewrite Forall_forall in Hfresh. by apply (Hfresh k).
Qed.

Lemma freshIds_filter uuid (P : string → Prop) `{∀ x, Decision (P x)} ids count :
  freshIds uuid ids count → freshIds uuid (filter P ids) count.
Proof.
  intros [Hnew Hfresh]. split; [done|]. eapply Forall_impl; [exact Hfresh|].
  intros k Hk Hin. apply Hk. by apply list_elem_of_filter in Hin as [_ ?].
Qed.

Section Items.

Variable compareItems : ItemData → ItemData → Z.
Variable uuid : nat → string.
Variable now : string.

Lemma WellFormed_handleUpdateItem (updated : ShoppingItem) s :
  WellFormed s →
  match handleUpdateItem updated s with
  | Done s1 => WellFormed s1
  | TypeError => True
  end.
Proof.
  intros Hs. unfold handleUpdateItem.
  destruct (truthy (activeEventName s)) as [active|]; [|done].
  destruct (eventLists s !! active) as [l|] eqn:Hl; [|done].
  apply (WellFormed_rearranged s); [done|..].
  - intros event. unfold listedIds. cbn.
    destruct (decide (event = active)) as [->|]; [|by rewrite lookup_insert_ne].
    rewrite lookup_insert_eq, Hl. cbn [default from_option id].
    rewrite <- list_fmap_compose. apply reflexive_eq. apply list_fmap_ext.
    intros i item _. cbn. by destruct (decide (itemId item = itemId updated)).
  - done.
Qed.

Lemma WellFormed_handleConfirmDelete (st : AppStore) :
  WellFormed st →
  match handleConfirmDelete st with
  | StoreDone st1 => WellFormed st1
  | StoreTypeError => True
  end.
Proof.
  intros Hs. unfold handleConfirmDelete.
  destruct (itemToDelete st) as [toDelete|]; [|done].
  destruct (truthy (activeEventName st)) as [active|]; [|done].
  destruct (eventLists st !! active) as [l|] eqn:Hl; [|done].
  apply (WellFormed_step
           (λ event, if decide (event = active) then [itemId toDelete] else []) st);
    [done|..].
  - intros event. unfold listedIds. cbn.
    destruct (decide (event = active)) as [->|]; [|rewrite lookup_insert_ne by done; apply Hs].
    rewrite lookup_insert_eq. cbn [default from_option id].
    pose proof (fmap_filter_itemId (λ id, id ≠ itemId toDelete) l) as Hfilter.
    cbn beta in Hfilter. rewrite Hfilter. apply NoDup_filter.
    destruct (Hs active) as [Hnodup _]. unfold listedIds in Hnodup. by rewrite Hl in Hnodup.
  - intros event x Hid Hdropped. unfold listedIds in *. cbn.
    destruct (decide (event = active)) as [->|]; [|by rewrite lookup_insert_ne].
    rewrite lookup_insert_eq. cbn [default from_option id]. rewrite Hl in Hid.
    pose proof (fmap_filter_itemId (λ id, id ≠ itemId toDelete) l) as Hfilter.
    cbn beta in Hfilter. rewrite Hfilter.
    apply list_elem_of_filter. split; [|done]. intros ->. apply Hdropped. by left.
  - intros event day. unfold columnIds. cbn.
    destruct (decide (event = active)) as [->|Hevent].
    + destruct (executeModeItems st !! active) as [eventItems|] eqn:Hcolumns.
      * rewrite lookup_insert_eq. cbn [default from_option id].
        apply reflexive_eq.
        destruct day; cbn; apply list_filter_iff; intros id;
          rewrite list_elem_of_singleton; tauto.
      * rewrite Hcolumns. cbn. by destruct day.
    + rewrite filter_all by (intros id _; apply not_elem_of_nil).
      destruct (executeModeItems st !! active); [|done]. by rewrite lookup_insert_ne.
Qed.

Lemma WellFormed_handleDeleteEvent eventName (st : AppStore) :
  WellFormed st → WellFormed (handleDeleteEvent eventName st).
Proof.
  intros Hs.
  assert (∀ event,
            listedIds (handleDeleteEvent eventName st) event
            = (if decide (event = eventName) then [] else listedIds st event)
            ∧ ∀ day, columnIds (handleDeleteEvent eventName st) event day
                     = if decide (event = eventName) then [] else columnIds st event day)
    as Hafter.
  { intros event.
    assert (eventLists (handleDeleteEvent eventName st) = delete eventName (eventLists st)
            ∧ executeModeItems (handleDeleteEvent eventName st)
              = delete eventName (executeModeItems st)) as [Hlists Hcolumns].
    { unfold handleDeleteEvent. by destruct (decide _). }
    unfold listedIds, columnIds. rewrite Hlists, Hcolumns.
    destruct (decide (event = eventName)) as [->|].
    - rewrite !lookup_delete_eq. split; [done|]. intros day. by destruct day.
    - by rewrite !lookup_delete_ne. }
  intros event. destruct (Hafter event) as [-> Hday].
  destruct (Hs event) as [Hnodup Hcolumns].
  split; [destruct (decide _); [constructor|done]|].
  intros day. rewrite Hday. destruct (decide _); [|apply Hcolumns].
  split; [constructor|done].
Qed.

Lemma WellFormed_handleBulkAdd eventName rows metadata (st : AppStore) :
  WellFormed st →
  freshIds uuid (listedIds st eventName) (length rows) →
  match handleBulkAdd uuid now eventName rows metadata st with
  | StoreDone st1 => WellFormed st1
  | StoreTypeError => True
  end.
Proof.
  intros Hs Hfresh.
  destruct (decide (eventLists st !! eventName = None ∧ eventName ∈ objectPrototypeKeys))
    as [[Hnone Hname]|Hdone].
  { by rewrite handleBulkAdd_throws. }
  destruct (handleBulkAdd_done uuid now eventName rows metadata st)
    as (st1 & -> & Hlists & Hcolumns & _); [tauto|].
  assert (∀ event,
            listedIds st1 event
            = (if decide (event = eventName)
               then listedIds st event ++ (uuid <$> seq 0 (length rows))
               else listedIds st event)) as Hlisted.
  { intros event. unfold listedIds. rewrite Hlists.
    destruct (decide (event = eventName)) as [->|].
    - rewrite lookup_insert_eq. cbn [default from_option id].
      by rewrite fmap_app, imap_itemIds.
    - by rewrite lookup_insert_ne. }
  assert (∀ event day,
            columnIds st1 event day = columnIds st event day
            ∨ columnIds st1 event day = []) as Hday.
  { intros event day. unfold columnIds. rewrite Hcolumns.
    destruct (bool_decide _); [|by left].
    destruct (decide (event = eventName)) as [->|].
    - rewrite lookup_insert_eq. right. by destruct day.
    - rewrite lookup_insert_ne by done. by left. }
  intros event. rewrite Hlisted. destruct (Hs event) as [Hnodup Hsubs]. split.
  - destruct (decide (event = eventName)) as [->|]; [|done]. by apply NoDup_app_fresh.
  - intros day. destruct (Hsubs day) as [Hcolumn Hsub].
    destruct (Hday event day) as [-> | ->].
    + split; [done|]. intros id Hid. apply Hsub in Hid.
      destruct (decide _); [|done]. apply elem_of_app. by left.
    + split; [constructor|]. intros id Hid. by apply not_elem_of_nil in Hid.
Qed.

Lemma WellFormed_handleConfirmUpdate s d eventName :
  WellFormed s →
  updateData s = Some d →
  truthy (updateEventName s) = Some eventName →
  freshIds uuid (listedIds s eventName) (length (itemsToAdd d)) →
  WellFormed (handleConfirmUpdate compareItems uuid s).
Proof.
  intros Hs Hd Hname Hfresh.
  assert (∀ event,
            listedIds (handleConfirmUpdate compareItems uuid s) event
            ≡ₚ if decide (event = eventName)
               then filter (λ id, id ∉ itemId <$> itemsToDelete d) (listedIds s event)
                    ++ (uuid <$> seq 0 (length (itemsToAdd d)))
               else listedIds s event) as Hlisted.
  { intros event. unfold listedIds.
    rewrite (handleConfirmUpdate_eventLists compareItems uuid s d eventName) by done.
    destruct (decide (event = eventName)) as [->|]; [|by rewrite lookup_insert_ne].
    rewrite lookup_insert_eq. cbn [default from_option id]. apply applyUpdateData_ids. }
  apply (WellFormed_step
           (λ event, if decide (event = eventName) then itemId <$> itemsToDelete d else []) s);
    [done|..].
  - intros event. rewrite Hlisted. destruct (Hs event) as [Hnodup _].
    destruct (decide (event = eventName)) as [->|]; [|done].
    apply NoDup_app_fresh; [by apply NoDup_filter|by apply freshIds_filter].
  - intros event id Hid Hdropped. rewrite Hlisted.
    destruct (decide (event = eventName)) as [->|]; [|done].
    apply elem_of_app. left. by apply list_elem_of_filter.
  - intros event day. unfold columnIds, handleConfirmUpdate. rewrite Hd, Hname. cbn.
    rewrite pruneExecuteModeItems_lookup.
    destruct (decide (event = eventName)) as [->|].
    + destruct (executeModeItems s !! eventName); cbn; by destruct day.
    + rewrite filter_all by (intros id _; apply not_elem_of_nil). done.
Qed.

(** The handlers that change which items there are keep the invariant:
    editing an item, deleting an item or an event, and, when the generated
    ids are pairwise different and new to the event, adding items and
    confirming a change-set. *)
Theorem WellFormed_items (st : AppStore) :
  WellFormed st →
  (∀ updated,
     match handleUpdateItem updated st with
     | Done s1 => WellFormed s1
     | TypeError => True
     end)
  ∧ match handleConfirmDelete st with
    | StoreDone st1 => WellFormed st1
    | StoreTypeError => True
    end
  ∧ (∀ eventName, WellFormed (handleDeleteEvent eventName st))
  ∧ (∀ eventName rows metadata,
       freshIds uuid (listedIds st eventName) (length rows) →
       match handleBulkAdd uuid now eventName rows metadata st with
       | StoreDone st1 => WellFormed st1
       | StoreTypeError => True
       end)
  ∧ (∀ d eventName,
       updateData st = Some d →
       truthy (updateEventName st) = Some eventName →
       freshIds uuid (listedIds st eventName) (length (itemsToAdd d)) →
       WellFormed (handleConfirmUpdate compareItems uuid st)).
Proof.
  intros Hs. split_and!.
  - intros updated. by apply WellFormed_handleUpdateItem.
  - by apply WellFormed_handleConfirmDelete.
  - intros eventName. by apply WellFormed_handleDeleteEvent.
  - intros eventName rows metadata. by apply WellFormed_handleBulkAdd.
  - intros d eventName. by apply WellFormed_handleConfirmUpdate.
Qed.

End Items.

(** ** The import form *)

Lemma splitChars_pieces sep l current piece :
  piece ∈ Str.splitChars sep l current →
  (sep ∉ current → sep ∉ Str.chars piece)
  ∧ ∀ c, c ∈ Str.chars piece → c ∈ current ∨ c ∈ l.
Proof.
  revert current. induction l as [|d l IH]; intros current Hpiece.
  - apply list_elem_of_singleton in Hpiece as ->. rewrite chars_ofChars. auto.
  - cbn [Str.splitChars] in Hpiece. destruct (Ascii.eqb d sep) eqn:Hd.
    + apply elem_of_cons in Hpiece as [->|Hpiece].
      * rewrite chars_ofChars. auto.
      * destruct (IH [] Hpiece) as [Hsep Hchars]. split.
        -- intros _. apply Hsep, not_elem_of_nil.
        -- intros c Hc. destruct (Hchars c Hc) as [Hnil|Hl].
           ++ by apply not_elem_of_nil in Hnil.
           ++ right. by right.
    + apply Ascii.eqb_neq in Hd. destruct (IH _ Hpiece) as [Hsep Hchars]. split.
      * intros Hcurrent. apply Hsep. rewrite elem_of_app, list_elem_of_singleton.
        intros [?|?]; [done|congruence].
      * intros c Hc. destruct (Hchars c Hc) as [Hin|Hl].
        -- apply elem_of_app in Hin as [?|Hin]; [by left|].
           apply list_elem_of_singleton in Hin as ->. right. by left.
        -- right. by right.
Qed.

Lemma split_no_sep sep s piece : piece ∈ Str.split sep s → sep ∉ Str.chars piece.
Proof.
  intros Hpiece. apply splitChars_pieces in Hpiece as [Hsep _].
  apply Hsep, not_elem_of_nil.
Qed.

Lemma split_chars sep s piece c :
  piece ∈ Str.split sep s → c ∈ Str.chars piece → c ∈ Str.chars s.
Proof.
  intros Hpiece Hc. apply splitChars_pieces in Hpiece as [_ Hchars].
  destruct (Hchars c Hc) as [Hnil|?]; [|done]. by apply not_elem_of_nil in Hnil.
Qed.

Lemma omap_seq {A B} (f : nat → option B) (g : A → option B) (l : list A) start :
  (∀ i x, l !! i = Some x → f (start + i) = g x) →
  omap f (seq start (length l)) = omap g l.
Proof.
  revert start. induction l as [|x l IH]; intros start Hfg; [done|].
  cbn [length seq omap list_omap].
  rewrite <- (Hfg 0 x eq_refl), Nat.add_0_r. rewrite (IH (S start)); [done|].
  intros i y Hi. rewrite <- (Hfg (S i) y Hi). f_equal. lia.
Qed.

Lemma pasted_column_lines (rows : list (list string)) i :
  rows ≠ [] →
  Forall (λ cells, Forall (λ cell, newline ∉ Str.chars cell) cells) rows →
  ImportScreen.trimmedLines (Str.join (Str.ofChars [newline]) ((λ c, ImportScreen.cellAt c i) <$> rows))
  = (λ c, Str.trim (ImportScreen.cellAt c i)) <$> rows.
Proof.
  intros Hrows Hcells. unfold ImportScreen.trimmedLines. rewrite split_join.
  - rewrite <- list_fmap_compose. reflexivity.
  - by destruct rows.
  - apply Forall_fmap. eapply Forall_impl; [exact Hcells|].
    intros cells Hall. unfold compose, ImportScreen.cellAt.
    destruct (cells !! i) as [cell|] eqn:Hcell; cbn [default from_option id].
    + rewrite Forall_forall in Hall. apply Hall. by eapply list_elem_of_lookup_2.
    + apply not_elem_of_nil.
Qed.

Lemma lineOr_pasted fallback (rows : list (list string)) k i cells :
  rows !! i = Some cells →
  ImportScreen.lineOr fallback ((λ c, Str.trim (ImportScreen.cellAt c k)) <$> rows) i = pastedCell fallback cells k.
Proof.
  intros Hi. unfold ImportScreen.lineOr, pastedCell. rewrite list_lookup_fmap, Hi.
  cbn [fmap option_fmap option_map]. by destruct (Str.trim _).
Qed.

Lemma pasted_rows_no_newline pasteData :
  Forall (λ cells, Forall (λ cell, newline ∉ Str.chars cell) cells)
    (Str.split ImportScreen.tab <$> sheetLines pasteData).
Proof.
  apply Forall_fmap, Forall_forall. intros row Hrow. cbn.
  apply list_elem_of_filter in Hrow as [_ Hrow]. apply split_no_sep in Hrow.
  apply Forall_forall. intros cell Hcell Hin. apply Hrow.
  by eapply split_chars.
Qed.

(** A paste followed by a submit of a new list: the rows of the pasted
    text that are not blank, cut at tabs, become the items, in order, and
    are handed to [onBulkAdd] under the trimmed event name. Nothing is
    imported when no row has a block and a number, or when the text is one
    row and its first cell is blank, or when the text is blank. *)
Theorem handleSubmit_after_paste pasteData f :
  ImportScreen.remarks f = "" →
  Str.trim (ImportScreen.eventName f) ≠ "" →
  let rows := Str.split ImportScreen.tab <$> sheetLines pasteData in
  (ImportScreen.handleSubmit None None (ImportScreen.handlePaste pasteData f)).1
  = if bool_decide (rows = []) || bool_decide ((λ c, Str.trim (ImportScreen.cellAt c 0)) <$> rows = [""])
    then [ImportScreen.alert "インポートするデータがありません。"]
    else match omap pastedItem rows with
         | [] => [ImportScreen.alert ("有効なアイテムデータが見つかりませんでした。"
                         +:+ "必須項目が入力されているか確認してください。")]
         | items => [ImportScreen.onBulkAdd (Str.trim (ImportScreen.eventName f)) items]
         end.
Proof.
  intros Hremarks Hname rows.
  unfold ImportScreen.handleSubmit, ImportScreen.handlePaste.
  cbn [ImportScreen.eventName ImportScreen.circles ImportScreen.eventDates
       ImportScreen.blocks ImportScreen.numbers ImportScreen.titles ImportScreen.prices
       ImportScreen.remarks].
  rewrite bool_decide_eq_false_2 by done. rewrite Hremarks. fold rows.
  destruct (decide (rows = [])) as [Hrows|Hrows].
  { rewrite Hrows. cbn [fmap list_fmap Str.join]. by vm_compute. }
  rewrite (bool_decide_eq_false_2 (rows = [])) by done. cbn [orb].
  rewrite !pasted_column_lines by (done || apply pasted_rows_no_newline).
  replace (ImportScreen.trimmedLines "") with [""] by (by vm_compute).
  assert (foldr Nat.max 0
            (length <$> [(λ c, Str.trim (ImportScreen.cellAt c 0)) <$> rows;
                         (λ c, Str.trim (ImportScreen.cellAt c 1)) <$> rows;
                         (λ c, Str.trim (ImportScreen.cellAt c 2)) <$> rows;
                         (λ c, Str.trim (ImportScreen.cellAt c 3)) <$> rows;
                         (λ c, Str.trim (ImportScreen.cellAt c 4)) <$> rows;
                         (λ c, Str.trim (ImportScreen.cellAt c 5)) <$> rows; [""]]) = length rows)
    as ->.
  { cbn. rewrite !length_fmap. destruct rows; [done|]. cbn. lia. }
  rewrite (bool_decide_eq_false_2 (length rows = 0)) by (by destruct rows). cbn [orb].
  destruct (bool_decide (_ = [""])); [done|].
  rewrite (omap_seq _ pastedItem rows).
  - by destruct (omap pastedItem rows).
  - intros i cells Hi. cbn [Nat.add]. unfold ImportScreen.newItemAt, pastedItem.
    rewrite !(lineOr_pasted _ rows _ i cells) by done.
    replace (ImportScreen.lineOr "" [""] i) with "" by (by destruct i as [|[|i]]).
    done.
Qed.

(** Submitting the form of an item to edit as it was filled in from the
    item hands [onUpdateItem] the item itself but for white space around
    its circle, block, number, title and remarks: the id, the purchase
    status, the event date and the price are those of the item, for a price
    that is a whole number which JavaScript holds exactly. The submit is
    refused when the circle and the title are both blank. *)
Theorem handleSubmit_edit_unchanged activeEventName (item : ShoppingItem) f :
  (price item < 2 ^ 53)%N →
  (ImportScreen.handleSubmit activeEventName (Some item) (ImportScreen.prefill (Some item) f)).1
  = if bool_decide (Str.trim (circle item) = "") && bool_decide (Str.trim (title item) = "")
    then [ImportScreen.alert "サークル名かタイトルを入力してください。"]
    else [ImportScreen.onUpdateItem
            (mkItem (itemId item)
               (mkItemData (Str.trim (circle item)) (eventDate item) (Str.trim (block item))
                  (Str.trim (number item)) (Str.trim (title item)) (price item)
                  (Str.trim (remarks item)))
               (purchaseStatus item));
          ImportScreen.onDoneEditing].
Proof.
  intros _.
  destruct item as [id [circle' eventDate' block' number' title' price' remarks'] status].
  unfold ImportScreen.handleSubmit, ImportScreen.prefill, ImportScreen.singleItem.
  cbn [ImportScreen.singleCircle ImportScreen.singleTitle ImportScreen.singleEventDate
       ImportScreen.singleBlock ImportScreen.singleNumber ImportScreen.singlePrice
       ImportScreen.singleRemarks itemId purchaseStatus itemData circle eventDate block
       number title price remarks].
  rewrite digitsValue_ofNumber.
  by destruct (bool_decide _ && bool_decide _).
Qed.

(** ** The handlers on the example data *)

Lemma collateDigits_Consistent : Consistent collateDigits.
Proof. unfold Consistent, collateDigits. split; intros; lia. Qed.

Lemma fairState_WellFormed column selected mode :
  NoDup column → column ⊆ itemId <$> fairItems →
  WellFormed (fairState column selected mode).
Proof.
  intros Hcolumn Hsub event. unfold listedIds, columnIds. cbn.
  destruct (decide (event = "E")) as [->|Hevent].
  - rewrite !lookup_singleton_eq. cbn [default from_option id]. split.
    + apply (bool_decide_unpack (NoDup _)). vm_compute. exact I.
    + intros [|]; cbn.
      * done.
      * split; [constructor|]. intros id Hid. by apply not_elem_of_nil in Hid.
  - rewrite !lookup_singleton_ne by done. cbn. split; [constructor|].
    intros day. split; [by destruct day; constructor|].
    intros id Hid. destruct day; by apply not_elem_of_nil in Hid.
Qed.

Lemma handleBlockSortToggle_order_witness :
  let dayItems := itemsForTab (handleBlockSortToggle collateDigits (fairState [] ∅ edit)) in
  dayItems !! 0%nat = Some (stall "a" "1日目" "B2" "12")
  ∧ dayItems !! 1%nat = Some (stall "e" "1日目" "A9" "30")
  ∧ (collateDigits "B2" "A9" ≤ 0)%Z.
Proof.
  cbv zeta. split; [reflexivity|]. split; [reflexivity|].
  apply (handleBlockSortToggle_order collateDigits (fairState [] ∅ edit) 0 1
           (stall "a" "1日目" "B2" "12") (stall "e" "1日目" "A9" "30")).
  - exact collateDigits_Consistent.
  - reflexivity.
  - reflexivity.
  - lia.
  - discriminate.
  - discriminate.
Defined.

Lemma handleBulkSort_execute_mode_witness :
  items (handleBulkSort collateDigits desc (fairState [] {[ "c"; "e" ]} execute))
  = [ stall "a" "1日目" "B2" "12"; stall "b" "2日目" "A1" "03";
      stall "e" "1日目" "A9" "30"; stall "c" "1日目" "A10" "7";
      stall "d" "1日目" "" "1" ].
Proof.
  etrans.
  - apply (handleBulkSort_execute_mode collateDigits desc
             (fairState [] {[ "c"; "e" ]} execute) "E"
             [stall "a" "1日目" "B2" "12"; stall "b" "2日目" "A1" "03"]
             (stall "c" "1日目" "A10" "7")
             [stall "d" "1日目" "" "1"; stall "e" "1日目" "A9" "30"]).
    + reflexivity.
    + reflexivity.
    + reflexivity.
    + apply (bool_decide_unpack (Forall _ _)). vm_compute. exact I.
    + apply (bool_decide_unpack (_ ∈ _)). vm_compute. exact I.
  - vm_compute. reflexivity.
Defined.

Lemma handleBulkSort_candidates_witness :
  let s := fairState ["a"] {[ "c"; "e" ]} edit in
  let s1 := handleBulkSort collateDigits desc s in
  candidateColumnItems s1
  = [ stall "e" "1日目" "A9" "30"; stall "c" "1日目" "A10" "7"; stall "d" "1日目" "" "1" ]
  ∧ executeColumnItems s1 = executeColumnItems s
  ∧ items s1 !! 0%nat = Some (stall "a" "1日目" "B2" "12")
  ∧ items s1 ≡ₚ items s.
Proof.
  cbv zeta.
  destruct (handleBulkSort_candidates collateDigits desc
              (fairState ["a"] {[ "c"; "e" ]} edit) "E" []
              (stall "c" "1日目" "A10" "7")
              [stall "d" "1日目" "" "1"; stall "e" "1日目" "A9" "30"])
    as (Hcandidates & Hcolumn & Hplaces & Hperm).
  - reflexivity.
  - reflexivity.
  - apply (bool_decide_unpack (Forall _ _)). vm_compute. exact I.
  - reflexivity.
  - constructor.
  - apply (bool_decide_unpack (_ ∈ _)). vm_compute. exact I.
  - split_and!; [|done| |done].
    + etrans; [exact Hcandidates|]. vm_compute. reflexivity.
    + apply Hplaces; [reflexivity|].
      apply (bool_decide_unpack (_ ∉ _)). vm_compute. exact I.
Defined.

Lemma handleBulkSort_execute_column_witness :
  let s := fairState ["a"; "gone"; "e"; "c"] {[ "gone"; "e"; "c" ]} edit in
  let s1 := handleBulkSort collateDigits asc s in
  currentExecuteIds s1 = ["a"; "c"; "e"] ∧ eventLists s1 = eventLists s.
Proof.
  cbv zeta.
  destruct (handleBulkSort_execute_column collateDigits asc
              (fairState ["a"; "gone"; "e"; "c"] {[ "gone"; "e"; "c" ]} edit) "E"
              ["a"] "gone" ["e"; "c"]) as (Hcolumn & Hlists).
  - reflexivity.
  - reflexivity.
  - apply (bool_decide_unpack (Forall _ _)). vm_compute. exact I.
  - apply (bool_decide_unpack (Exists _ _)). vm_compute. exact I.
  - reflexivity.
  - apply (bool_decide_unpack (Forall _ _)). vm_compute. exact I.
  - apply (bool_decide_unpack (_ ∈ _)). vm_compute. exact I.
  - split; [|done]. etrans; [exact Hcolumn|]. vm_compute. reflexivity.
Defined.

Lemma handleBulkSort_mixed_selection_witness :
  let s := fairState ["a"] {[ "a"; "c" ]} edit in
  let s1 := handleBulkSort collateDigits asc s in
  eventLists s1 = eventLists s
  ∧ executeModeItems s1 = executeModeItems s
  ∧ sortState s1 = Manual
  ∧ blockSortDirection s1 = None.
Proof.
  apply (handleBulkSort_mixed_selection collateDigits asc
           (fairState ["a"] {[ "a"; "c" ]} edit) "E"
           (stall "a" "1日目" "B2" "12") (stall "c" "1日目" "A10" "7")).
  - reflexivity.
  - reflexivity.
  - apply (bool_decide_unpack (_ ∈ _)). vm_compute. exact I.
  - apply (bool_decide_unpack (_ ∈ _)). vm_compute. exact I.
  - apply (bool_decide_unpack (_ ∈ _)). vm_compute. exact I.
  - apply (bool_decide_unpack (_ ∈ _)). vm_compute. exact I.
  - apply (bool_decide_unpack (_ ∈ _)). vm_compute. exact I.
  - apply (bool_decide_unpack (_ ∉ _)). vm_compute. exact I.
Defined.

Lemma cellsOf_escapeCsvCell_witness :
  cellsOf (Str.join (Str.ofChars [comma]) (escapeCsvCell <$> exportFields quotedItem))
  = exportFields quotedItem.
Proof. apply (cellsOf_escapeCsvCell (exportFields quotedItem)). discriminate. Defined.

Lemma handleExportEvent_read_back_witness :
  let s := setEventLists (λ _, {[ "Q" := [quotedItem; stall "a" "1日目" "B2" "12"] ]})
             (fairState [] ∅ edit) in
  let exported := [quotedItem; stall "a" "1日目" "B2" "12"] in
  handleExportEvent "Q" s = Some ("Q.csv", bom +:+ csvString exported)
  ∧ cellsOf <$> Str.split newline (csvString exported)
    = headers :: (exportFields <$> exported).
Proof.
  apply (handleExportEvent_read_back "Q"
           (setEventLists (λ _, {[ "Q" := [quotedItem; stall "a" "1日目" "B2" "12"] ]})
              (fairState [] ∅ edit))
           quotedItem [stall "a" "1日目" "B2" "12"]).
  - reflexivity.
  - apply (bool_decide_unpack (Forall _ _)). vm_compute. exact I.
Defined.

Lemma handleUpdateEvent_of_export_witness :
  parseSheet (csvString fairItems) = []
  ∧ updateData (handleUpdateEvent "E" (csvString fairItems) (fairState [] ∅ edit))
    = Some (mkUpdateData fairItems [] []).
Proof.
  apply (handleUpdateEvent_of_export "E" fairItems (fairState [] ∅ edit)).
  apply (bool_decide_unpack (Forall _ _)). vm_compute. exact I.
Defined.

Lemma visibleItems_of_execute_column_witness :
  let s := fairState ["e"; "a"] ∅ execute in
  (visibleItems s = [stall "a" "1日目" "B2" "12"; stall "e" "1日目" "A9" "30"]
   ∧ executeColumnItems s = [stall "e" "1日目" "A9" "30"; stall "a" "1日目" "B2" "12"])
  ∧ visibleItems s
    ≡ₚ filter (λ item : ShoppingItem,
                 Str.includes (eventDate item) (tabKey (activeTab s))
                 ∧ shownBy (sortState s) item)
         (executeColumnItems s)
  ∧ visibleItems s `sublist_of` items s.
Proof.
  cbv zeta. split; [split; reflexivity|].
  apply (visibleItems_of_execute_column (fairState ["e"; "a"] ∅ execute) "E").
  - reflexivity.
  - reflexivity.
  - apply (bool_decide_unpack (NoDup _)). vm_compute. exact I.
  - apply (bool_decide_unpack (NoDup _)). vm_compute. exact I.
Defined.

Lemma WellFormed_reordering_witness :
  let s := fairState ["e"; "a"] {[ "c"; "d" ]} edit in
  WellFormed s
  ∧ WellFormed (handleMoveItem "a" "e" (Some ExecuteColumn) s)
  ∧ WellFormed (handleBlockSortToggle collateDigits s)
  ∧ WellFormed (handleBlockSortToggleCandidate collateDigits s)
  ∧ WellFormed (handleBulkSort collateDigits desc s).
Proof.
  cbv zeta.
  assert (WellFormed (fairState ["e"; "a"] {[ "c"; "d" ]} edit)) as Hs.
  { apply fairState_WellFormed.
    - apply (bool_decide_unpack (NoDup _)). vm_compute. exact I.
    - apply (bool_decide_unpack (_ ⊆ _)). vm_compute. exact I. }
  destruct (WellFormed_reordering collateDigits collateDigits _ Hs)
    as (Hmove & Hblock & Hcandidate & Hbulk).
  split_and!; [exact Hs|apply Hmove|exact Hblock|exact Hcandidate|apply Hbulk].
Defined.

Lemma WellFormed_columns_witness :
  let s := fairState ["e"; "a"] ∅ edit in
  WellFormed s
  ∧ WellFormed (handleRemoveFromExecuteColumn ["a"; "x"] s)
  ∧ WellFormed (handleMoveToExecuteColumn ["c"; "a"; "c"] s).
Proof.
  cbv zeta.
  assert (WellFormed (fairState ["e"; "a"] ∅ edit)) as Hs.
  { apply fairState_WellFormed.
    - apply (bool_decide_unpack (NoDup _)). vm_compute. exact I.
    - apply (bool_decide_unpack (_ ⊆ _)). vm_compute. exact I. }
  destruct (WellFormed_columns _ Hs) as (Hremove & Hmove).
  split_and!; [exact Hs|apply Hremove|apply Hmove].
  apply (bool_decide_unpack (_ ⊆ _)). vm_compute. exact I.
Defined.

Lemma WellFormed_items_witness :
  let st := fairStore ["e"; "c"] ∅ edit in
  WellFormed st
  ∧ match handleConfirmDelete st with
    | StoreDone st1 => WellFormed st1
    | StoreTypeError => True
    end
  ∧ WellFormed (handleDeleteEvent "E" st)
  ∧ match handleBulkAdd sampleUuid "2025-01-01" "E"
            [itemData quotedItem; itemData quotedItem] None st with
    | StoreDone st1 => WellFormed st1
    | StoreTypeError => True
    end.
Proof.
  cbv zeta.
  assert (WellFormed (fairStore ["e"; "c"] ∅ edit)) as Hs.
  { apply fairState_WellFormed.
    - apply (bool_decide_unpack (NoDup _)). vm_compute. exact I.
    - apply (bool_decide_unpack (_ ⊆ _)). vm_compute. exact I. }
  destruct (WellFormed_items compareByCodeUnit sampleUuid "2025-01-01" _ Hs)
    as (_ & Hdelete & Hevent & Hadd & _).
  split_and!; [exact Hs|exact Hdelete|apply Hevent|apply Hadd].
  split.
  - apply (bool_decide_unpack (NoDup _)). vm_compute. exact I.
  - apply (bool_decide_unpack (Forall _ _)). vm_compute. exact I.
Defined.

Lemma handleSubmit_after_paste_witness :
  let f := ImportScreen.mkForm " Fair " "" "" "" "" "" "" "" "" "1日目" "" "" "" "0" "" in
  (ImportScreen.handleSubmit None None (ImportScreen.handlePaste pastedText f)).1
  = [ ImportScreen.onBulkAdd "Fair"
        [ mkItemData "A" "1日目" "東1" "01" "Book" 500 "";
          mkItemData "" "2日目" "西2" "02" "" 1000 "" ] ].
Proof.
  cbv zeta. etrans.
  - apply (handleSubmit_after_paste pastedText
             (ImportScreen.mkForm " Fair " "" "" "" "" "" "" "" "" "1日目" "" "" "" "0" "")).
    + reflexivity.
    + apply (bool_decide_unpack (_ ≠ _)). vm_compute. exact I.
  - vm_compute. reflexivity.
Defined.

Lemma handleSubmit_edit_unchanged_witness :
  (ImportScreen.handleSubmit (Some "E") (Some quotedItem)
     (ImportScreen.prefill (Some quotedItem) emptyForm)).1
  = [ImportScreen.onUpdateItem quotedItem; ImportScreen.onDoneEditing].
Proof.
  etrans.
  - apply (handleSubmit_edit_unchanged (Some "E") quotedItem emptyForm).
    vm_compute. reflexivity.
  - vm_compute. reflexivity.
Defined.
